(** * Shallow embedding of the agno film-grain GPU pipeline

    WGSL shaders are embedded as Rocq functions over real numbers (the
    [f32]/[f16] rounding of the GPU is not modelled: statements hold
    "within floating tolerance"); [u32] and [i32] arithmetic is [Z] with
    its wrap-around written out.  Textures are functions from integer texel
    coordinates to RGBA vectors; a compute dispatch writes the texels its
    invocations cover and leaves the others as they were. *)

From Stdlib Require Import ZArith Reals Lra Lia List Bool.
Import ListNotations.

Open Scope R_scope.

(** ** Vectors *)

Record vec4 := V4 { vr : R; vg : R; vb : R; va : R }.

Definition vzero4 : vec4 := V4 0 0 0 0.
Definition vadd4 (u v : vec4) : vec4 :=
  V4 (vr u + vr v) (vg u + vg v) (vb u + vb v) (va u + va v).
Definition vscale4 (u : vec4) (k : R) : vec4 :=
  V4 (vr u * k) (vg u * k) (vb u * k) (va u * k).

Record vec3 := V3 { x3 : R; y3 : R; z3 : R }.

Definition vsplat3 (k : R) : vec3 := V3 k k k.
Definition vadd3 (u v : vec3) : vec3 := V3 (x3 u + x3 v) (y3 u + y3 v) (z3 u + z3 v).
Definition vsub3 (u v : vec3) : vec3 := V3 (x3 u - x3 v) (y3 u - y3 v) (z3 u - z3 v).
Definition vmul3 (u v : vec3) : vec3 := V3 (x3 u * x3 v) (y3 u * y3 v) (z3 u * z3 v).
Definition vscale3 (u : vec3) (k : R) : vec3 := V3 (x3 u * k) (y3 u * k) (z3 u * k).
Definition vdiv3 (u : vec3) (k : R) : vec3 := V3 (x3 u / k) (y3 u / k) (z3 u / k).
Definition dot3 (u v : vec3) : R := x3 u * x3 v + y3 u * y3 v + z3 u * z3 v.
Definition rgb (c : vec4) : vec3 := V3 (vr c) (vg c) (vb c).
Definition with_alpha (c : vec3) (a : R) : vec4 := V4 (x3 c) (y3 c) (z3 c) a.

(** WGSL built-ins on [f32]. *)
Definition clampR (x lo hi : R) : R := Rmin (Rmax x lo) hi.
Definition clamp3 (u : vec3) (lo hi : R) : vec3 :=
  V3 (clampR (x3 u) lo hi) (clampR (y3 u) lo hi) (clampR (z3 u) lo hi).
Definition mixR (a b t : R) : R := a * (1 - t) + b * t.
Definition mix3 (a b : vec3) (t : R) : vec3 :=
  V3 (mixR (x3 a) (x3 b) t) (mixR (y3 a) (y3 b) t) (mixR (z3 a) (z3 b) t).
(** [pow(x, y) = exp2(y * log2(x))]: 0 at [x = 0] for a positive exponent. *)
Definition wgsl_pow (x y : R) : R := if Rle_dec x 0 then 0 else Rpower x y.
Definition smoothstep (lo hi x : R) : R :=
  let t := clampR ((x - lo) / (hi - lo)) 0 1 in t * t * (3 - 2 * t).
Definition clampZ (x lo hi : Z) : Z := Z.min (Z.max x lo) hi.

(** [lo, lo+1, ..., hi] as the WGSL [for (var i = lo; i <= hi; i++)] visits it. *)
Definition zrange (lo hi : Z) : list Z :=
  map (fun k => (lo + Z.of_nat k)%Z) (seq 0 (Z.to_nat (hi - lo + 1))).

(** BT.709 luma, [LUMA_COEFFS]. *)
Definition LUMA_COEFFS : vec3 := V3 0.2126 0.7152 0.0722.

(** ** Random/noise core: [common/rng.wgsl] (inlined in [grain/noise.wgsl]) *)

Module Rng.

Definition u32 (z : Z) : Z := (z mod 2 ^ 32)%Z.

(** [pcg(state)]: returns the output word and the advanced state. *)
Definition pcg (old : Z) : Z * Z :=
  let state' := u32 (old * 747796405 + 2891336453) in
  let word := u32 (Z.lxor (Z.shiftr old (Z.shiftr old 28 + 4)) old * 277803737) in
  (Z.lxor (Z.shiftr word 22) word, state').

(** [rand_float(state) = f32(pcg(state)) / 4294967295.0] *)
Definition rand_float (st : Z) : R * Z :=
  let '(w, st') := pcg st in (IZR w / 4294967295, st').

(** Box-Muller, [u1] clamped away from 0. *)
Definition rand_gaussian (st : Z) : R * Z :=
  let '(f1, st1) := rand_float st in
  let u1 := Rmax f1 (1 / 10000000000) in
  let '(u2, st2) := rand_float st1 in
  (sqrt (-2 * ln u1) * cos (6.283185307 * u2), st2).

(** [init_seed(pixel, frame_seed)] *)
Definition init_seed (px py frame_seed : Z) : Z :=
  u32 (px * 1973 + py * 9277 + frame_seed * 26699).

End Rng.

(** ** Textures and compute dispatches *)

(** Texel contents by integer coordinates; only texels inside the texture's
    dimensions are ever read by the shaders below. *)
Definition tex := Z -> Z -> vec4.

(** A dispatch of [wgx * wgy] workgroups of size [sx * sy] on an output of
    dimensions [w * h]: invocation [gid] stores [body gid] unless the
    shader's [gid.x >= dims.x || gid.y >= dims.y] guard returns early. *)
Definition dispatch (wgx wgy sx sy w h : Z) (body : Z -> Z -> vec4) (old : tex) : tex :=
  fun x y =>
    if (0 <=? x)%Z && (x <? wgx * sx)%Z && (0 <=? y)%Z && (y <? wgy * sy)%Z
       && (x <? w)%Z && (y <? h)%Z
    then body x y else old x y.

(** [Math.ceil(a / b)] on positive integers. *)
Definition ceil_div (a b : Z) : Z := ((a + b - 1) / b)%Z.

(** u32 to i32 bit reinterpretation, [i32(params.ar_lag)]. *)
Definition to_i32 (z : Z) : Z := if (z <? 2 ^ 31)%Z then z else (z - 2 ^ 32)%Z.

(** i32 arithmetic wraps: the exact result taken modulo [2^32] into
    [[-2^31, 2^31)]. *)
Definition wrap_i32 (z : Z) : Z := to_i32 (z mod 2 ^ 32).

(** WGSL [abs] on i32: the most negative value is its own absolute value. *)
Definition abs_i32 (z : Z) : Z := if (z =? - 2 ^ 31)%Z then z else Z.abs z.

(** The counter values of [for (var i = lo; i <= hi; i++)] on i32, [None]
    when the loop never stops: for [hi = 2^31 - 1] the test [i <= hi] always
    holds, [i++] wrapping to [-2^31]; otherwise the loop stops after
    [hi], with no iteration when [lo > hi]. *)
Definition i32_for (lo hi : Z) : option (list Z) :=
  if (hi =? 2 ^ 31 - 1)%Z then None else Some (zrange lo hi).

(** ** Grain tile generator: shaders of [grain/] and [GrainGenerator.ts] *)

Module Grain.

Definition TILE_COUNT : Z := 8.
Definition BASE_TILE_SIZE : Z := 256.

(** Uniform buffers, field by field as the shaders' structs lay them out. *)
Record NoiseU := { n_seed : Z; n_tile_index : Z; n_tile_size : Z }.
Record ArU := { ar_strength : R; ar_lag : Z }.
Record BlurU := { kernel_radius : Z; sigma : R; direction : Z; channel : Z }.
Record NormU := { scale : R; norm_tile_index : Z }.

Inductive WorkTex := WT1 | WT2.

(** GPU memory touched by tile generation. *)
Record Gpu := {
  work1 : tex; work2 : tex; tiles : Z -> tex;
  noiseU : NoiseU; arU : ArU; blurU : BlurU; normU : NormU }.

Definition get_work (g : Gpu) (t : WorkTex) : tex :=
  match t with WT1 => work1 g | WT2 => work2 g end.

Definition set_work (g : Gpu) (t : WorkTex) (v : tex) : Gpu :=
  match t with
  | WT1 => Build_Gpu v (work2 g) (tiles g) (noiseU g) (arU g) (blurU g) (normU g)
  | WT2 => Build_Gpu (work1 g) v (tiles g) (noiseU g) (arU g) (blurU g) (normU g)
  end.

(** *** [noise.wgsl] *)
Definition noise_main (u : NoiseU) (x y : Z) : vec4 :=
  let tile_seed := Rng.u32 (n_seed u + n_tile_index u * 1000) in
  let st := Rng.init_seed x y tile_seed in
  let '(g1, st1) := Rng.rand_gaussian st in
  let '(g2, st2) := Rng.rand_gaussian st1 in
  let '(g3, _) := Rng.rand_gaussian st2 in
  V4 g1 g2 g3 1.

(** *** [ar-filter.wgsl] *)

(** [get_ar_weight] on i32 arguments.  [dx * dx + dy * dy] wraps; when it
    wraps to a negative value, [sqrt] of the negative [f32] is NaN and so is
    [pow(0.7, NaN)]: [None] stands for that NaN weight. *)
Definition get_ar_weight (dx dy ar_lag : Z) : option R :=
  if (abs_i32 dx >? ar_lag)%Z || (abs_i32 dy >? ar_lag)%Z then Some 0
  else if (dy >? 0)%Z then Some 0
  else if (dy =? 0)%Z && (dx >=? 0)%Z then Some 0
  else
    let d2 := wrap_i32 (wrap_i32 (dx * dx) + wrap_i32 (dy * dy)) in
    if (d2 <? 0)%Z then None else Some (Rpower 0.7 (sqrt (IZR d2))).

(** The double loop accumulating [(sum, weight_sum)], both counters running
    from [-ar_lag] (wrapped) to [ar_lag]; [None] when the loops never stop.
    A NaN weight fails the test [w > 0.0]. *)
Definition ar_accum (inp : tex) (w h x y lag : Z) : option (vec3 * R) :=
  match i32_for (wrap_i32 (- lag)) lag with
  | None => None
  | Some ds =>
      Some (fold_left (fun acc dy =>
        fold_left (fun '(sum, ws) dx =>
          match get_ar_weight dx dy lag with
          | Some wt =>
              if Rlt_dec 0 wt then
                let sx := clampZ (wrap_i32 (x + dx)) 0 (w - 1) in
                let sy := clampZ (wrap_i32 (y + dy)) 0 (h - 1) in
                (vadd3 sum (vscale3 (rgb (inp sx sy)) wt), ws + wt)
              else (sum, ws)
          | None => (sum, ws)
          end) ds acc)
        ds (vsplat3 0, 0))
  end.

(** The AR shader's invocation at [(x, y)] on a [w * h] input: the stored
    texel, or [None] when the invocation never terminates. *)
Definition ar_main (u : ArU) (inp : tex) (w h x y : Z) : option vec4 :=
  let lag := to_i32 (ar_lag u) in
  match ar_accum inp w h x y lag with
  | None => None
  | Some (sum, ws) =>
      let ar_component := vscale3 sum (ar_strength u / Rmax ws 0.001) in
      let innovation := rgb (inp x y) in
      let innovation_scale := sqrt (1 - ar_strength u * ar_strength u) in
      Some (with_alpha (vadd3 ar_component (vscale3 innovation innovation_scale)) 1)
  end.

(** The texel the AR pass leaves in its output.  An invocation that never
    terminates ([ar_lag = 2^31 - 1]) stores nothing, the GPU watchdog ends
    the work and the device is lost: no later pass or readback observes the
    texture, and the model stores [vzero4] there. *)
Definition ar_texel (u : ArU) (inp : tex) (w h x y : Z) : vec4 :=
  match ar_main u inp w h x y with Some c => c | None => vzero4 end.

(** *** [rgb-to-ycbcr.wgsl] (three shaders: conversion, blur, normalize) *)
Definition rgb_to_ycbcr (c : vec3) : vec3 :=
  V3 (0.2126 * x3 c + 0.7152 * y3 c + 0.0722 * z3 c)
     (-0.1146 * x3 c - 0.3854 * y3 c + 0.5000 * z3 c)
     (0.5000 * x3 c - 0.4542 * y3 c - 0.0458 * z3 c).

Definition ycbcr_main (inp : tex) (x y : Z) : vec4 :=
  with_alpha (rgb_to_ycbcr (rgb (inp x y))) 1.

Definition blur_main (u : BlurU) (inp : tex) (w h x y : Z) : vec4 :=
  let center := inp x y in
  let sigma2 := 2 * sigma u * sigma u in
  let '(sum, ws) :=
    fold_left (fun '(sum, ws) i =>
      let sp := if (direction u =? 0)%Z
                then (clampZ (x + i) 0 (w - 1), y)
                else (x, clampZ (y + i) 0 (h - 1)) in
      let wt := exp (- IZR (i * i) / sigma2) in
      (vadd4 sum (vscale4 (inp (fst sp) (snd sp)) wt), ws + wt))
      (zrange (- kernel_radius u) (kernel_radius u)) (vzero4, 0) in
  let result := vscale4 sum (/ ws) in
  if (channel u <? 3)%Z then
    if (channel u =? 0)%Z then V4 (vr result) (vg center) (vb center) (va center)
    else if (channel u =? 1)%Z then V4 (vr center) (vg result) (vb center) (va center)
    else V4 (vr center) (vg center) (vb result) (va center)
  else result.

Definition ycbcr_to_rgb (c : vec3) : vec3 :=
  V3 (x3 c + 1.5748 * z3 c)
     (x3 c - 0.1873 * y3 c - 0.4681 * z3 c)
     (x3 c + 1.8556 * y3 c).

Definition normalize_main (u : NormU) (inp : tex) (x y : Z) : vec4 :=
  let c := ycbcr_to_rgb (rgb (inp x y)) in
  with_alpha (clamp3 (vadd3 (vscale3 c (scale u)) (vsplat3 0.5)) 0 1) 1.

(** *** Passes recorded by [generateSingleTile] *)
Inductive Pass :=
| NoisePass (out : WorkTex) (wgx wgy : Z)
| ArPass (inp out : WorkTex) (wgx wgy : Z)
| YcbcrPass (inp out : WorkTex) (wgx wgy : Z)
| BlurPass (inp out : WorkTex) (wgx wgy : Z)
| NormalizePass (inp : WorkTex) (wgx wgy : Z).

(** Executing one recorded pass on the queue, with the uniform buffers as
    they are when the command buffer runs; [ts] is the work-texture size. *)
Definition exec_pass (ts : Z) (g : Gpu) (p : Pass) : Gpu :=
  match p with
  | NoisePass o wx wy =>
      set_work g o (dispatch wx wy 16 16 ts ts (noise_main (noiseU g)) (get_work g o))
  | ArPass i o wx wy =>
      set_work g o (dispatch wx wy 16 16 ts ts (ar_texel (arU g) (get_work g i) ts ts)
                      (get_work g o))
  | YcbcrPass i o wx wy =>
      set_work g o (dispatch wx wy 16 16 ts ts (ycbcr_main (get_work g i)) (get_work g o))
  | BlurPass i o wx wy =>
      set_work g o (dispatch wx wy 64 4 ts ts (blur_main (blurU g) (get_work g i) ts ts)
                      (get_work g o))
  | NormalizePass i wx wy =>
      let layer := norm_tile_index (normU g) in
      Build_Gpu (work1 g) (work2 g)
        (fun l => if (l =? layer)%Z
                  then dispatch wx wy 16 16 ts ts (normalize_main (normU g) (get_work g i))
                         (tiles g l)
                  else tiles g l)
        (noiseU g) (arU g) (blurU g) (normU g)
  end.

Definition exec_passes (ts : Z) (g : Gpu) (ps : list Pass) : Gpu :=
  fold_left (exec_pass ts) ps g.

(** Host-side operations: [queue.writeBuffer] lands in the buffer at once
    (queue timeline), passes are recorded in the command encoder and run
    only at [queue.submit]. *)
Inductive HostOp :=
| WriteNoise (seed tile_index tile_size : Z)
| WriteArStrength (v : R)
| WriteArLag (lag : Z)
| WriteBlurRadius (r : Z)
| WriteBlurSigma (s : R)
| WriteBlurDirChan (d c : Z)
| WriteNormScale (v : R)
| WriteNormTile (i : Z)
| Encode (p : Pass)
| Submit.

Definition write_uniform (g : Gpu) (op : HostOp) : Gpu :=
  let mk n a b m := Build_Gpu (work1 g) (work2 g) (tiles g) n a b m in
  let n := noiseU g in let a := arU g in let b := blurU g in let m := normU g in
  match op with
  | WriteNoise s i ts => mk (Build_NoiseU (Rng.u32 s) (Rng.u32 i) (Rng.u32 ts)) a b m
  | WriteArStrength v => mk n (Build_ArU v (ar_lag a)) b m
  | WriteArLag l => mk n (Build_ArU (ar_strength a) (Rng.u32 l)) b m
  | WriteBlurRadius r => mk n a (Build_BlurU r (sigma b) (direction b) (channel b)) m
  | WriteBlurSigma s => mk n a (Build_BlurU (kernel_radius b) s (direction b) (channel b)) m
  | WriteBlurDirChan d c => mk n a (Build_BlurU (kernel_radius b) (sigma b) d c) m
  | WriteNormScale v => mk n a b (Build_NormU v (norm_tile_index m))
  | WriteNormTile i => mk n a b (Build_NormU (scale m) (Rng.u32 i))
  | Encode _ | Submit => g
  end.

Fixpoint run_ops (ts : Z) (ops : list HostOp) (g : Gpu) (enc : list Pass) : Gpu :=
  match ops with
  | [] => g
  | Encode p :: rest => run_ops ts rest g (enc ++ [p])
  | Submit :: rest => run_ops ts rest (exec_passes ts g enc) []
  | op :: rest => run_ops ts rest (write_uniform g op) enc
  end.

(** [getBlurSpecs()]: (kernelRadius, sigma) for Y, Cb, Cr. *)
Definition getBlurSpecs : list (Z * R) := [(1%Z, 0.8); (7%Z, 3.75); (5%Z, 2.75)].

(** The per-channel blur loop with its ping-pong swaps; also returns the
    final [currentInput]. *)
Fixpoint blur_ops (specs : list (Z * R)) (ch : Z) (bx by_ : Z) (ci co : WorkTex)
  : list HostOp * WorkTex :=
  match specs with
  | [] => ([], ci)
  | (r, s) :: rest =>
      let hpass := [WriteBlurRadius r; WriteBlurSigma s; WriteBlurDirChan 0 ch;
                    Encode (BlurPass ci co bx by_)] in
      let vpass := [WriteBlurDirChan 1 ch; Encode (BlurPass co ci bx by_)] in
      let '(ops, fin) := blur_ops rest (ch + 1) bx by_ ci co in
      (hpass ++ vpass ++ ops, fin)
  end.

Record GrainParams := { seed : Z; grainSize : R; arLag : Z }.

(** [generateSingleTile]: the host operations of one tile, ending in its
    own [queue.submit]. *)
Definition generateSingleTile_ops (tileIndex : Z) (params : GrainParams) (tileSize : Z)
  : list HostOp :=
  let wxy := ceil_div tileSize 16 in
  let bx := ceil_div tileSize 64 in
  let by_ := ceil_div tileSize 4 in
  let '(bops, fin) := blur_ops getBlurSpecs 0 bx by_ WT1 WT2 in
  [WriteNoise (seed params) tileIndex tileSize; Encode (NoisePass WT1 wxy wxy);
   WriteArStrength 0.95; WriteArLag (arLag params); Encode (ArPass WT1 WT2 wxy wxy);
   Encode (YcbcrPass WT2 WT1 wxy wxy)]
  ++ bops ++
  [WriteNormScale 0.15; WriteNormTile tileIndex; Encode (NormalizePass fin wxy wxy);
   Submit].

Definition generateSingleTile_gpu (tileIndex : Z) (params : GrainParams) (tileSize : Z)
  (g : Gpu) : Gpu :=
  run_ops tileSize (generateSingleTile_ops tileIndex params tileSize) g [].

(** The loop [for (i = 0; i < TILE_COUNT; i++) generateSingleTile(i, ...)]. *)
Definition generate_all_gpu (params : GrainParams) (tileSize : Z) (g : Gpu) : Gpu :=
  fold_left (fun g i => generateSingleTile_gpu i params tileSize g)
    (zrange 0 (TILE_COUNT - 1)) g.

(** *** [GrainGenerator]: host-side state *)

(** Textures are GPU objects named by handles; WebGPU zero-initialises a
    freshly created texture. *)
Record GenState := {
  grainTileArray : option nat;
  workTexture1 : option nat;
  workTexture2 : option nat;
  currentTileSize : option Z;
  lastParams : option GrainParams;
  next_handle : nat;
  gpu : Gpu;
  tile_log : list Z  (** tile indices passed to [generateSingleTile], in order *) }.

Definition zero_tex : tex := fun _ _ => vzero4.

(** [tilesValid]: grainSize is deliberately not compared. *)
Definition tilesValid (st : GenState) (params : GrainParams) : bool :=
  match grainTileArray st, lastParams st with
  | Some _, Some lp => (seed lp =? seed params)%Z && (arLag lp =? arLag params)%Z
  | _, _ => false
  end.

(** Destroys the old textures and creates two work textures and the tile
    array at the new size. *)
Definition recreate_textures (tileSize : Z) (st : GenState) : GenState :=
  let n := next_handle st in
  let g := gpu st in
  Build_GenState (Some (n + 2)%nat) (Some n) (Some (S n)) (Some tileSize)
    (lastParams st) (n + 3)%nat
    (Build_Gpu zero_tex zero_tex (fun _ => zero_tex) (noiseU g) (arU g) (blurU g) (normU g))
    (tile_log st).

Definition ensureTextures (tileSize : Z) (st : GenState) : GenState :=
  match currentTileSize st with
  | Some ts => if (ts =? tileSize)%Z then st else recreate_textures tileSize st
  | None => recreate_textures tileSize st
  end.

Definition generateSingleTile (i : Z) (params : GrainParams) (tileSize : Z)
  (st : GenState) : GenState :=
  Build_GenState (grainTileArray st) (workTexture1 st) (workTexture2 st)
    (currentTileSize st) (lastParams st) (next_handle st)
    (generateSingleTile_gpu i params tileSize (gpu st)) (tile_log st ++ [i]).

Definition set_lastParams (p : GrainParams) (st : GenState) : GenState :=
  Build_GenState (grainTileArray st) (workTexture1 st) (workTexture2 st)
    (currentTileSize st) (Some p) (next_handle st) (gpu st) (tile_log st).

(** The promise's outcome: the tile array, or the thrown
    [Error('Failed to create grain textures')]. *)
Inductive GenResult := Tiles (h : nat) | FailedToCreateGrainTextures.

(** [generateTiles] (the [await] on [onSubmittedWorkDone] completes before
    [lastParams] is recorded; calls are taken one after another). *)
Definition generateTiles (params : GrainParams) (st : GenState) : GenResult * GenState :=
  match tilesValid st params, grainTileArray st with
  | true, Some h => (Tiles h, st)
  | _, _ =>
      let tileSize := BASE_TILE_SIZE in
      let st1 := ensureTextures tileSize st in
      match workTexture1 st1, workTexture2 st1, grainTileArray st1 with
      | Some _, Some _, Some h =>
          let st2 := fold_left (fun s i => generateSingleTile i params tileSize s)
                       (zrange 0 (TILE_COUNT - 1)) st1 in
          (Tiles h, set_lastParams params st2)
      | _, _, _ => (FailedToCreateGrainTextures, st1)
      end
  end.

(** [destroy]: releases the textures (the tile size is kept). *)
Definition destroy (st : GenState) : GenState :=
  Build_GenState None None None (currentTileSize st) (lastParams st) (next_handle st)
    (gpu st) (tile_log st).


(** A freshly constructed generator: no textures, no parameters yet. *)
Definition initial_state (g : Gpu) : GenState :=
  Build_GenState None None None None None 0%nat g [].

Definition zero_gpu : Gpu :=
  Build_Gpu zero_tex zero_tex (fun _ => zero_tex) (Build_NoiseU 0 0 0) (Build_ArU 0 0)
    (Build_BlurU 0 0 0 0) (Build_NormU 0 0).

(** The passes one tile's command buffer runs, and the uniform values they
    read: those of the last [writeBuffer] before the tile's [submit]. *)
Definition tile_passes (ts : Z) : list Pass :=
  let wxy := ceil_div ts 16 in
  let bx := ceil_div ts 64 in
  let by_ := ceil_div ts 4 in
  [NoisePass WT1 wxy wxy; ArPass WT1 WT2 wxy wxy; YcbcrPass WT2 WT1 wxy wxy;
   BlurPass WT1 WT2 bx by_; BlurPass WT2 WT1 bx by_;
   BlurPass WT1 WT2 bx by_; BlurPass WT2 WT1 bx by_;
   BlurPass WT1 WT2 bx by_; BlurPass WT2 WT1 bx by_;
   NormalizePass WT1 wxy wxy].

Definition with_uniforms (g : Gpu) (n : NoiseU) (a : ArU) (b : BlurU) (m : NormU) : Gpu :=
  Build_Gpu (work1 g) (work2 g) (tiles g) n a b m.

Definition tile_uniforms_gpu (i : Z) (params : GrainParams) (ts : Z) (g : Gpu) : Gpu :=
  with_uniforms g
    (Build_NoiseU (Rng.u32 (seed params)) (Rng.u32 i) (Rng.u32 ts))
    (Build_ArU 0.95 (Rng.u32 (arLag params)))
    (Build_BlurU 5 2.75 1 2)
    (Build_NormU 0.15 (Rng.u32 i)).

(** Texel agreement inside a [ts * ts] texture. *)
Definition agree_in (ts : Z) (a b : tex) : Prop :=
  forall x y, (0 <= x < ts)%Z -> (0 <= y < ts)%Z -> a x y = b x y.

(** Which work textures, and which layers of the tile array, agree
    between two GPU memories that also hold the same uniforms. *)
Definition GAgree (ts : Z) (wa : WorkTex -> bool) (S : Z -> Prop) (g1 g2 : Gpu) : Prop :=
  noiseU g1 = noiseU g2 /\ arU g1 = arU g2 /\ blurU g1 = blurU g2 /\ normU g1 = normU g2 /\
  (forall t, wa t = true -> agree_in ts (get_work g1 t) (get_work g2 t)) /\
  (forall l, S l -> agree_in ts (tiles g1 l) (tiles g2 l)).

Definition upd_wa (wa : WorkTex -> bool) (o : WorkTex) (v : bool) : WorkTex -> bool :=
  fun t => match t, o with WT1, WT1 | WT2, WT2 => v | _, _ => wa t end.

Definition post_wa (p : Pass) (wa : WorkTex -> bool) : WorkTex -> bool :=
  match p with
  | NoisePass o _ _ => upd_wa wa o true
  | ArPass i o _ _ | YcbcrPass i o _ _ | BlurPass i o _ _ => upd_wa wa o (wa i)
  | NormalizePass _ _ _ => wa
  end.

Definition post_S (p : Pass) (wa : WorkTex -> bool) (layer : Z) (S : Z -> Prop) : Z -> Prop :=
  match p with
  | NormalizePass i _ _ => fun l => (l = layer /\ wa i = true) \/ (l <> layer /\ S l)
  | _ => S
  end.

(** The dispatch of a pass reaches every texel of a [ts * ts] output. *)
Definition covers (ts : Z) (p : Pass) : Prop :=
  match p with
  | NoisePass _ wx wy | ArPass _ _ wx wy | YcbcrPass _ _ wx wy | NormalizePass _ wx wy =>
      (ts <= wx * 16 /\ ts <= wy * 16)%Z
  | BlurPass _ _ wx wy => (ts <= wx * 64 /\ ts <= wy * 4)%Z
  end.

(** The agreement reached after running a list of passes. *)
Definition post_all (ps : list Pass) (layer : Z) (wa : WorkTex -> bool) (S : Z -> Prop)
  : (WorkTex -> bool) * (Z -> Prop) :=
  fold_left (fun acc p => (post_wa p (fst acc), post_S p (fst acc) layer (snd acc)))
    ps (wa, S).

(** Invariant of every reachable generator state: a tile array only
    exists together with both work textures at the 256 tile size. *)
Definition Inv (st : GenState) : Prop :=
  grainTileArray st = None \/
  (currentTileSize st = Some BASE_TILE_SIZE /\ workTexture1 st <> None /\
   workTexture2 st <> None).

End Grain.

(** ** The autoregressive filter as the specification describes it

    Modelled from the specification's words, to be compared with
    [Grain.ar_main]: the weight of an offset is [0.7^sqrt(dx^2+dy^2)] on the
    causal footprint ([dy < 0], or [dy = 0] and [dx < 0]) within the lag
    radius and zero elsewhere; [S] sums the weighted clamped input samples
    over the [(2 lag + 1)^2] offsets, [W] sums the weights. *)

Module ArSpec.

Definition sum_over (l : list Z) (f : Z -> R) : R := fold_right (fun z acc => f z + acc) 0 l.
Definition vsum_over (l : list Z) (f : Z -> vec3) : vec3 :=
  fold_right (fun z acc => vadd3 (f z) acc) (vsplat3 0) l.

Definition causal (lag dx dy : Z) : bool :=
  ((dy <? 0)%Z || ((dy =? 0)%Z && (dx <? 0)%Z)) && (Z.abs dx <=? lag)%Z
  && (Z.abs dy <=? lag)%Z.

Definition spec_weight (lag dx dy : Z) : R :=
  if causal lag dx dy then Rpower 0.7 (sqrt (IZR (dx * dx + dy * dy))) else 0.

(** The input at the offset, coordinates clamped to the texture. *)
Definition sample_at (inp : tex) (w h x y dx dy : Z) : vec3 :=
  rgb (inp (clampZ (x + dx) 0 (w - 1)) (clampZ (y + dy) 0 (h - 1))).

Definition ar_S (inp : tex) (w h x y lag : Z) : vec3 :=
  vsum_over (zrange (- lag) lag) (fun dy =>
    vsum_over (zrange (- lag) lag) (fun dx =>
      vscale3 (sample_at inp w h x y dx dy) (spec_weight lag dx dy))).

Definition ar_W (lag : Z) : R :=
  sum_over (zrange (- lag) lag) (fun dy =>
    sum_over (zrange (- lag) lag) (fun dx => spec_weight lag dx dy)).

(** [S * (strength / W) + original * sqrt(1 - strength^2)], alpha 1 as
    the pass writes it. *)
Definition ar_spec_output (strength : R) (inp : tex) (w h x y lag : Z) : vec4 :=
  with_alpha (vadd3 (vscale3 (ar_S inp w h x y lag) (strength / ar_W lag))
                    (vscale3 (rgb (inp x y)) (sqrt (1 - strength ^ 2)))) 1.

End ArSpec.

(** ** Grain blend: [blend.wgsl] (the seam-blended patchwork sampler) *)

Module Blend.

Record BlendParams := {
  strength : R; saturation : R; toe : R; midtone_bias : R; grain_size : R;
  image_width : R; image_height : R; bseed : Z }.

Definition CHANNEL_SCALES : vec3 := V3 1.2 1.0 1.5.
Definition TILE_SIZE : R := 256.
Definition REGION_SIZE : R := 512.
Definition BLEND_PIXELS : R := 64.

(** [floor] on [f32], truncation toward zero, and the saturating
    [i32(f32)] conversion. *)
Definition ffloor (r : R) : R := IZR (Int_part r).
Definition ftrunc (r : R) : Z :=
  if Rle_dec 0 r then Int_part r else (- Int_part (- r))%Z.
Definition i32_of_f32 (r : R) : Z := clampZ (ftrunc r) (- 2 ^ 31) (2 ^ 31 - 1).
(** [i32] addition, wrapping. *)
Definition i32_add (a b : Z) : Z := to_i32 (Rng.u32 (a + b)).
(** [f32 % f32]: [x - y * trunc(x / y)]. *)
Definition fmod (x y : R) : R := x - y * IZR (ftrunc (x / y)).

Definition hash (seed x y : Z) : Z :=
  let h := Z.lxor seed (Rng.u32 (Rng.u32 (x + 10000) * 1973)) in
  let h := Z.lxor h (Rng.u32 (Rng.u32 (y + 10000) * 9277)) in
  let h := Rng.u32 (h * 2654435761) in
  Z.lxor h (Z.shiftr h 16).

(** [textureSampleLevel(grain_tiles, grain_sampler, uv, layer, 0.0).rgb]
    is given by [sample layer u v]: any tile contents, any filtering. *)
Definition sample_region_grain (sample : Z -> R -> R -> vec3) (p : BlendParams)
  (sx sy : R) (region_x region_y : Z) : vec3 :=
  let tile_index := (hash (bseed p) region_x region_y mod 8)%Z in
  let offset_hash := hash (Rng.u32 (bseed p + 1)) region_x region_y in
  let offset_x := IZR (Z.land offset_hash 255) / 255 * TILE_SIZE in
  let offset_y := IZR (Z.land (Z.shiftr offset_hash 8) 255) / 255 * TILE_SIZE in
  let lx := sx - IZR region_x * REGION_SIZE + offset_x in
  let ly := sy - IZR region_y * REGION_SIZE + offset_y in
  let wx := fmod (fmod lx TILE_SIZE + TILE_SIZE) TILE_SIZE in
  let wy := fmod (fmod ly TILE_SIZE + TILE_SIZE) TILE_SIZE in
  sample tile_index ((wx + 0.5) / TILE_SIZE) ((wy + 0.5) / TILE_SIZE).

Definition blend_weight (sx sy : R) (region_x region_y : Z) (blend_size : R) : R :=
  let cx := (IZR region_x + 0.5) * REGION_SIZE in
  let cy := (IZR region_y + 0.5) * REGION_SIZE in
  let half_size := REGION_SIZE * 0.5 + blend_size in
  let edge_x := half_size - Rabs (sx - cx) in
  let edge_y := half_size - Rabs (sy - cy) in
  smoothstep 0 blend_size edge_x * smoothstep 0 blend_size edge_y.

(** [region_x], [region_y] of the pixel at [(px, py)]. *)
Definition patch_region (p : BlendParams) (px py : R) : Z * Z :=
  (i32_of_f32 (ffloor (px / grain_size p / REGION_SIZE)),
   i32_of_f32 (ffloor (py / grain_size p / REGION_SIZE))).

(** One iteration of the inner [dx] loop. *)
Definition patch_step (sample : Z -> R -> R -> vec3) (p : BlendParams) (sx sy bs : R)
  (region_x region_y dy : Z) (acc : vec3 * R) (dx : Z) : vec3 * R :=
  let rx := i32_add region_x dx in
  let ry := i32_add region_y dy in
  let weight := blend_weight sx sy rx ry bs in
  if Rlt_dec 0.001 weight then
    (vadd3 (fst acc) (vscale3 (sample_region_grain sample p sx sy rx ry) weight),
     snd acc + weight)
  else acc.

(** [(accumulated_grain, accumulated_weight)] after the 3x3 loop. *)
Definition patch_accum (sample : Z -> R -> R -> vec3) (p : BlendParams) (px py : R)
  : vec3 * R :=
  let sx := px / grain_size p in
  let sy := py / grain_size p in
  let bs := BLEND_PIXELS / grain_size p in
  let '(region_x, region_y) := patch_region p px py in
  fold_left (fun acc dy =>
    fold_left (patch_step sample p sx sy bs region_x region_y dy) (zrange (-1) 1) acc)
    (zrange (-1) 1) (vsplat3 0, 0).

Definition sample_grain_patchwork (sample : Z -> R -> R -> vec3) (p : BlendParams)
  (px py : R) : vec3 :=
  let '(ag, aw) := patch_accum sample p px py in
  if Rlt_dec 0 aw then vdiv3 ag aw else vsplat3 0.5.

Definition luminance_response (lum bias : R) : R :=
  let base := 4 * lum * (1 - lum) in
  let clamped := clampR base 0 1 in
  wgsl_pow clamped (1 / Rmax bias 0.001).

(** [grain_final] of [main] for the pixel [image] at [(px, py)]. *)
Definition grain_final (sample : Z -> R -> R -> vec3) (p : BlendParams) (image : vec3)
  (px py : R) : vec3 :=
  let grain_raw := sample_grain_patchwork sample p px py in
  let grain_deviation :=
    vmul3 (vscale3 (vscale3 (vsub3 grain_raw (vsplat3 0.5)) (strength p)) 0.5)
      CHANNEL_SCALES in
  let grain := vadd3 (vsplat3 1) grain_deviation in
  let grain := mix3 (vsplat3 (y3 grain)) grain (saturation p) in
  let lum := dot3 image LUMA_COEFFS in
  let response := luminance_response lum (midtone_bias p) in
  vadd3 (vsplat3 1) (vscale3 (vsub3 grain (vsplat3 1)) response).

(** The value [main] stores for one pixel. *)
Definition blend_pixel (sample : Z -> R -> R -> vec3) (p : BlendParams) (image : vec3)
  (px py : R) : vec4 :=
  let gf := grain_final sample p image px py in
  let blended :=
    vadd3 (vscale3 (vsub3 (vsplat3 1) (vmul3 (vsub3 (vsplat3 1) image) gf)) (1 - toe p))
      (vsplat3 (toe p)) in
  with_alpha (clamp3 blended 0 1) 1.

(** The blend pass over the whole image: [Math.ceil(w / 16)] by
    [Math.ceil(h / 16)] workgroups of 16x16, dims [u32(image_width)],
    [u32(image_height)]. *)
Definition blend_main (sample : Z -> R -> R -> vec3) (p : BlendParams) (w h : Z)
  (input output : tex) : tex :=
  dispatch (ceil_div w 16) (ceil_div h 16) 16 16 w h
    (fun x y => blend_pixel sample p (rgb (input x y)) (IZR x) (IZR y)) output.

Definition with_toe (p : BlendParams) (t : R) : BlendParams :=
  Build_BlendParams (strength p) (saturation p) t (midtone_bias p) (grain_size p)
    (image_width p) (image_height p) (bseed p).

End Blend.

(** ** Halation: [halation/threshold.wgsl], [halation/upsample-blend.wgsl] and
    the display decision of [Renderer.render] *)

Module Halation.

(** *** [threshold.wgsl] *)
Definition halation_mask (luminance threshold : R) : R :=
  let falloff := Rmax 0.15 (1 - threshold) in
  let mask := clampR ((luminance - threshold) / falloff) 0 1 in
  mask * mask.

Definition threshold_pixel (threshold : R) (texel : vec4) : vec4 :=
  let image := rgb texel in
  let lum := dot3 image LUMA_COEFFS in
  let mask := halation_mask lum threshold in
  with_alpha (vscale3 image mask) mask.

(** The pass as [process] dispatches it: [Math.ceil(w / 16)] by
    [Math.ceil(h / 16)] workgroups of 16x16 over a [w * h] image. *)
Definition threshold_main (threshold : R) (w h : Z) (input output : tex) : tex :=
  dispatch (ceil_div w 16) (ceil_div h 16) 16 16 w h
    (fun x y => threshold_pixel threshold (input x y)) output.

(** *** [upsample-blend.wgsl] (its first shader) *)
Definition upsample_pixel (strength : R) (texel halation_raw : vec4) : vec4 :=
  let image := rgb texel in
  let glow_lum := dot3 (rgb halation_raw) LUMA_COEFFS in
  let halation_color := V3 (glow_lum * 1) (glow_lum * 0.15) 0 in
  let result := vadd3 image (vscale3 (vscale3 halation_color strength) 2) in
  with_alpha (clamp3 result 0 1) 1.

(** [halo u v] is [textureSampleLevel(halation_tex, halation_sampler, uv, 0.0)]. *)
Definition upsample_main (strength : R) (w h : Z) (halo : R -> R -> vec4)
  (input output : tex) : tex :=
  dispatch (ceil_div w 16) (ceil_div h 16) 16 16 w h
    (fun x y => upsample_pixel strength (input x y)
                  (halo ((IZR x + 0.5) / IZR w) ((IZR y + 0.5) / IZR h))) output.

(** *** Which texture [render] displays *)
Record HalationParams := { enabled : bool; h_strength : R; threshold : R }.

Definition isEnabled (p : HalationParams) : bool := enabled p.

Inductive DisplayTexture :=
| ImageTexture
| BlendOutputTexture
| HalationOutput (input : DisplayTexture).

(** [process]: returns its input when the work textures are missing. *)
Definition process (has_work_textures : bool) (input : DisplayTexture) : DisplayTexture :=
  if has_work_textures then HalationOutput input else input.

(** [blend_on] stands for [blendParams.enabled && grainTiles &&
    blendOutputTexture && grainParams]; [ready] for [isReady()]. *)
Definition render_display (blend_on : bool) (hp : HalationParams)
  (ready has_work_textures : bool) : DisplayTexture :=
  let displayTexture := if blend_on then BlendOutputTexture else ImageTexture in
  if isEnabled hp && ready then process has_work_textures displayTexture
  else displayTexture.

End Halation.

(** ** Mipmaps: [Renderer.uploadImage] and [Renderer.generateMipmaps] *)

Module Mip.

(** [Math.floor(Math.log2(Math.max(image.width, image.height))) + 1]; for
    texture dimensions ([< 2^24]) the floating [log2] floors to [Z.log2]. *)
Definition mip_level_count (w h : Z) : Z := (Z.log2 (Z.max w h) + 1)%Z.

(** [Math.max(1, Math.floor(d / 2))] *)
Definition half (d : Z) : Z := Z.max 1 (d / 2).

(** [textureLoad(src, pos, 0)] on a level of dimensions [sw * sh].  Out of
    bounds WGSL returns an unspecified value (a texel inside the level, or
    a zero vector): [oob] is that choice. *)
Definition texture_load (oob : Z -> Z -> vec4) (src : tex) (sw sh x y : Z) : vec4 :=
  if (0 <=? x)%Z && (x <? sw)%Z && (0 <=? y)%Z && (y <? sh)%Z then src x y
  else oob x y.

(** The blit shader's body at [gid = (x, y)]. *)
Definition blit_pixel (oob : Z -> Z -> vec4) (src : tex) (sw sh x y : Z) : vec4 :=
  let c00 := texture_load oob src sw sh (2 * x) (2 * y) in
  let c10 := texture_load oob src sw sh (2 * x + 1) (2 * y) in
  let c01 := texture_load oob src sw sh (2 * x) (2 * y + 1) in
  let c11 := texture_load oob src sw sh (2 * x + 1) (2 * y + 1) in
  vscale4 (vadd4 (vadd4 (vadd4 c00 c10) c01) c11) 0.25.

(** One pass: [dispatchWorkgroups(Math.ceil(width / 8), Math.ceil(height / 8))]
    with the 8x8 workgroup, reading level [level - 1] of size [sw * sh] and
    writing level [level] of size [dw * dh]. *)
Definition blit_main (oob : Z -> Z -> vec4) (src : tex) (sw sh dw dh : Z) (dst : tex) : tex :=
  dispatch (ceil_div dw 8) (ceil_div dh 8) 8 8 dw dh (blit_pixel oob src sw sh) dst.

Record Level := { lw : Z; lh : Z; ltex : tex }.

(** A freshly created texture level reads as zero. *)
Definition fresh : tex := fun _ _ => vzero4.

(** The loop [for (let level = 1; level < texture.mipLevelCount; level++)],
    [n] iterations from a level of size [w * h]. *)
Fixpoint mip_chain (oob : Z -> Z -> vec4) (n : nat) (w h : Z) (src : tex) : list Level :=
  match n with
  | O => []
  | S n' =>
      let width := half w in
      let height := half h in
      let t := blit_main oob src w h width height fresh in
      Build_Level width height t :: mip_chain oob n' width height t
  end.

(** All levels of the uploaded texture, level 0 holding the image. *)
Definition generateMipmaps (oob : Z -> Z -> vec4) (w h : Z) (image : tex) : list Level :=
  Build_Level w h image :: mip_chain oob (Z.to_nat (mip_level_count w h - 1)) w h image.

(** Modelled from the specification's words: the 2x2 box filter of the
    previous level, averaging the texels of the block [(2x..2x+1, 2y..2y+1)]
    that lie inside it. *)
Definition block_average (src : tex) (sw sh x y : Z) : vec4 :=
  let pts := filter (fun '(i, j) => (i <? sw)%Z && (j <? sh)%Z)
               [(2 * x, 2 * y); (2 * x + 1, 2 * y); (2 * x, 2 * y + 1); (2 * x + 1, 2 * y + 1)]%Z in
  vscale4 (fold_left (fun acc '(i, j) => vadd4 acc (src i j)) pts vzero4)
    (/ INR (length pts)).

(** Modelled from the specification's words: level [k] has dimensions
    halved [k] times, floored, at least 1. *)
Definition level_dim (d : Z) (k : nat) : Z := Z.max 1 (d / 2 ^ Z.of_nat k).

End Mip.

(** ** Halation processor: [HalationProcessor.process] and the
    [downsample.wgsl] and halation [blur.wgsl] compute shaders *)

Module HalationGpu.

(** [Math.round(x)]: the nearest integer, halves rounded up. *)
Definition js_round (x : R) : Z := Int_part (x + 0.5).

(** [Math.max(1, Math.ceil(d / 4))]: the quarter-resolution size. *)
Definition ds_size (d : Z) : Z := Z.max 1 (ceil_div d 4).

(** [dsRadius = Math.max(1, Math.round(this.params.radius / 4))]; the
    blur sigma is [dsRadius / 3]. *)
Definition ds_radius (radius : R) : Z := Z.max 1 (js_round (radius / 4)).

(** The [BlurParams] uniform: [kernel_radius : i32], [sigma : f32],
    [direction : u32]. *)
Record BlurU := { kernel_radius : Z; sigma : R; direction : Z }.

(** [downsample.wgsl]: the average of the 4x4 block at [gid * 4] of the
    [sw * sh] source; [oob] is what [textureLoad] returns out of bounds. *)
Definition downsample_main (oob : Z -> Z -> vec4) (src : tex) (sw sh x y : Z) : vec4 :=
  let sum :=
    fold_left (fun acc dy =>
      fold_left (fun acc dx =>
        vadd4 acc (Mip.texture_load oob src sw sh (4 * x + dx) (4 * y + dy)))
        (zrange 0 3) acc)
      (zrange 0 3) vzero4 in
  vscale4 sum (/ 16).

(** The halation [blur.wgsl] main on an input of dimensions [w * h]: the
    normalised Gaussian along [direction], clamped at the edges, with the
    i32 counter, [sample_pos + i] and [i * i] wrapping.  [None] when the
    invocation stores no number: the loop never stops
    ([kernel_radius = 2^31 - 1]), it runs no iteration
    ([kernel_radius < 0]) so that [sum / weight_sum] is [0 / 0], or
    [sigma2 = 0] makes the weight [exp(-0 / 0)] of [i = 0] NaN. *)
Definition blur_main (u : BlurU) (inp : tex) (w h x y : Z) : option vec4 :=
  let sigma2 := 2 * sigma u * sigma u in
  match i32_for (wrap_i32 (- kernel_radius u)) (kernel_radius u) with
  | None => None
  | Some is =>
      if Req_dec_T sigma2 0 then None
      else
        match is with
        | [] => None
        | _ =>
            let '(sum, ws) :=
              fold_left (fun '(sum, ws) i =>
                let sp := if (direction u =? 0)%Z
                          then (clampZ (wrap_i32 (x + i)) 0 (w - 1), y)
                          else (x, clampZ (wrap_i32 (y + i)) 0 (h - 1)) in
                let wt := exp (- IZR (wrap_i32 (i * i)) / sigma2) in
                (vadd4 sum (vscale4 (inp (fst sp) (snd sp)) wt), ws + wt))
                is (vzero4, 0) in
            Some (vscale4 sum (/ ws))
        end
  end.

(** A dispatch whose invocations may store no number: the pass gives its
    output texture only when every invocation it runs stores one, [None]
    otherwise. *)
Definition dispatch_opt (wgx wgy sx sy w h : Z) (body : Z -> Z -> option vec4) (old : tex)
  : option tex :=
  let xs := zrange 0 (Z.min (wgx * sx) w - 1) in
  let ys := zrange 0 (Z.min (wgy * sy) h - 1) in
  if forallb (fun y => forallb (fun x =>
       match body x y with Some _ => true | None => false end) xs) ys
  then Some (dispatch wgx wgy sx sy w h
               (fun x y => match body x y with Some c => c | None => vzero4 end) old)
  else None.

(** GPU memory of the processor: its five work textures and the three
    uniform buffers.  The threshold and upsample uniforms hold
    [f32(imageWidth)], [f32(imageHeight)], which the shaders convert back
    with [u32(...)]: for texture sizes ([< 2^24]) that round trip is exact,
    so the sizes are kept as integers. *)
Record HGpu := {
  highlight : tex; downsampled : tex; blurPing : tex; blurPong : tex; output : tex;
  thresholdU : R * Z * Z; blurU : BlurU; upsampleU : R * Z * Z }.

(** The passes [process] records, each with the bind group it is given. *)
Inductive HPass :=
| ThresholdPass (wgx wgy : Z)   (** input image -> highlight *)
| DownsamplePass (wgx wgy : Z)  (** highlight -> downsampled *)
| BlurHPass (wgx wgy : Z)       (** downsampled -> blurPing *)
| BlurVPass (wgx wgy : Z)       (** blurPing -> blurPong *)
| UpsamplePass (wgx wgy : Z).   (** input image, blurPong -> output *)

Section Exec.
(** The image texture given to [process], of size [w * h]; [oob] is the
    out-of-bounds [textureLoad] value and [sampleLevel t u v] the
    bilinear [textureSampleLevel] of texture [t]. *)
Variable input : tex.
Variables w h : Z.
Variable oob : Z -> Z -> vec4.
Variable sampleLevel : tex -> R -> R -> vec4.

(** One pass; [None] when a blur pass stores no number somewhere. *)
Definition exec_hpass (g : HGpu) (p : HPass) : option HGpu :=
  let dw := ds_size w in
  let dh := ds_size h in
  let mk hl ds pi po out :=
    Build_HGpu hl ds pi po out (thresholdU g) (blurU g) (upsampleU g) in
  match p with
  | ThresholdPass wx wy =>
      let '(t, tw, th) := thresholdU g in
      Some (mk (dispatch wx wy 16 16 tw th
                  (fun x y => Halation.threshold_pixel t (input x y)) (highlight g))
               (downsampled g) (blurPing g) (blurPong g) (output g))
  | DownsamplePass wx wy =>
      Some (mk (highlight g)
               (dispatch wx wy 16 16 dw dh (downsample_main oob (highlight g) w h)
                  (downsampled g))
               (blurPing g) (blurPong g) (output g))
  | BlurHPass wx wy =>
      match dispatch_opt wx wy 64 4 dw dh (blur_main (blurU g) (downsampled g) dw dh)
              (blurPing g) with
      | Some t => Some (mk (highlight g) (downsampled g) t (blurPong g) (output g))
      | None => None
      end
  | BlurVPass wx wy =>
      match dispatch_opt wx wy 64 4 dw dh (blur_main (blurU g) (blurPing g) dw dh)
              (blurPong g) with
      | Some t => Some (mk (highlight g) (downsampled g) (blurPing g) t (output g))
      | None => None
      end
  | UpsamplePass wx wy =>
      let '(s, uw, uh) := upsampleU g in
      Some (mk (highlight g) (downsampled g) (blurPing g) (blurPong g)
               (dispatch wx wy 16 16 uw uh
                  (fun x y => Halation.upsample_pixel s (input x y)
                     (sampleLevel (blurPong g) ((IZR x + 0.5) / IZR uw)
                        ((IZR y + 0.5) / IZR uh)))
                  (output g)))
  end.

(** The passes of one command buffer, in order. *)
Definition exec_hpasses (enc : list HPass) (g : HGpu) : option HGpu :=
  fold_left (fun og p => match og with Some g => exec_hpass g p | None => None end)
    enc (Some g).

(** Host operations of [process]: [queue.writeBuffer] lands at once,
    passes run at [queue.submit]. *)
Inductive HOp :=
| WriteThreshold (t : R) (tw th : Z)
| WriteBlurRadius (r : Z)
| WriteBlurSigma (s : R)
| WriteBlurDirection (d : Z)
| WriteUpsample (s : R) (uw uh : Z)
| Encode (p : HPass)
| Submit.

Definition write_huniform (g : HGpu) (op : HOp) : HGpu :=
  let mk a b c := Build_HGpu (highlight g) (downsampled g) (blurPing g) (blurPong g)
                    (output g) a b c in
  let b := blurU g in
  match op with
  | WriteThreshold t tw th => mk (t, tw, th) b (upsampleU g)
  | WriteBlurRadius r => mk (thresholdU g) (Build_BlurU r (sigma b) (direction b)) (upsampleU g)
  | WriteBlurSigma s => mk (thresholdU g) (Build_BlurU (kernel_radius b) s (direction b)) (upsampleU g)
  | WriteBlurDirection d =>
      mk (thresholdU g) (Build_BlurU (kernel_radius b) (sigma b) d) (upsampleU g)
  | WriteUpsample s uw uh => mk (thresholdU g) b (s, uw, uh)
  | Encode _ | Submit => g
  end.

Fixpoint run_hops (ops : list HOp) (g : HGpu) (enc : list HPass) : option HGpu :=
  match ops with
  | [] => Some g
  | Encode p :: rest => run_hops rest g (enc ++ [p])
  | Submit :: rest =>
      match exec_hpasses enc g with Some g' => run_hops rest g' [] | None => None end
  | op :: rest => run_hops rest (write_huniform g op) enc
  end.

End Exec.

(** The host operations of [process] for an image of [w * h] (the work
    textures exist): threshold, downsample, the two blur passes with the
    writes [Int32Array([dsRadius])] at 0 (the i32 [ToInt32(dsRadius)],
    wrapping), [Float32Array([sigma])] at 4 and [Uint32Array([0, 0])],
    then [Uint32Array([1, 0])], at 8, the upsample, and one [submit]. *)
Definition process_ops (hp : Halation.HalationParams) (radius : R) (w h : Z) : list HOp :=
  let dsWidth := ds_size w in
  let dsHeight := ds_size h in
  let dsRadius := ds_radius radius in
  let sigma := IZR dsRadius / 3 in
  [WriteThreshold (Halation.threshold hp) w h;
   Encode (ThresholdPass (ceil_div w 16) (ceil_div h 16));
   Encode (DownsamplePass (ceil_div dsWidth 16) (ceil_div dsHeight 16));
   WriteBlurRadius (wrap_i32 dsRadius); WriteBlurSigma sigma; WriteBlurDirection 0;
   Encode (BlurHPass (ceil_div dsWidth 64) (ceil_div dsHeight 4));
   WriteBlurDirection 1;
   Encode (BlurVPass (ceil_div dsWidth 64) (ceil_div dsHeight 4));
   WriteUpsample (Halation.h_strength hp) w h;
   Encode (UpsamplePass (ceil_div w 16) (ceil_div h 16));
   Submit].

Definition process_gpu (input : tex) (oob : Z -> Z -> vec4)
  (sampleLevel : tex -> R -> R -> vec4) (hp : Halation.HalationParams) (radius : R)
  (w h : Z) (g : HGpu) : option HGpu :=
  run_hops input w h oob sampleLevel (process_ops hp radius w h) g [].

End HalationGpu.

(** ** Viewing: [zoom.ts], the display shader and the fullscreen triangle *)

Module Zoom.

Record ViewState := { zoom : R; centerX : R; centerY : R }.

Definition DEFAULT_VIEW_STATE : ViewState := Build_ViewState 1 0.5 0.5.
Definition ZOOM_STEP : R := 1.2.
Definition MIN_ZOOM : R := 0.1.
Definition MAX_ZOOM : R := 32.

Definition zoomToward (newZoom targetX targetY currentZoom currentCenterX currentCenterY : R)
  : ViewState :=
  let clampedZoom := Rmax MIN_ZOOM (Rmin MAX_ZOOM newZoom) in
  let zoomRatio := currentZoom / clampedZoom in
  let newCenterX := targetX - (targetX - currentCenterX) * zoomRatio in
  let newCenterY := targetY - (targetY - currentCenterY) * zoomRatio in
  Build_ViewState clampedZoom newCenterX newCenterY.

End Zoom.

Module Display.

(** The [ViewParams] uniform of the display fragment shader. *)
Record ViewParams := {
  zoom : R; center_x : R; center_y : R; aspect_canvas : R; aspect_image : R }.

(** The uniform [Renderer.render] writes: the view state, then
    [canvasWidth / canvasHeight] and [imageWidth / imageHeight]. *)
Definition view_params (vs : Zoom.ViewState) (canvasWidth canvasHeight imageWidth imageHeight : R)
  : ViewParams :=
  Build_ViewParams (Zoom.zoom vs) (Zoom.centerX vs) (Zoom.centerY vs)
    (canvasWidth / canvasHeight) (imageWidth / imageHeight).

(** [image_uv] as [fs_main] computes it from the fragment's [uv]:
    aspect correction, then zoom and pan. *)
Definition image_uv (v : ViewParams) (u w : R) : R * R :=
  let scale_factor :=
    if Rlt_dec (aspect_canvas v) (aspect_image v) then 1
    else aspect_canvas v / aspect_image v in
  let scale_y :=
    if Rlt_dec (aspect_canvas v) (aspect_image v) then aspect_image v / aspect_canvas v
    else 1 in
  let iu := (u - 0.5) * scale_factor + 0.5 in
  let iv := (w - 0.5) * scale_y + 0.5 in
  ((iu - 0.5) / zoom v + center_x v, (iv - 0.5) / zoom v + center_y v).

Definition in_unit (r : R) : bool :=
  if Rle_dec 0 r then if Rle_dec r 1 then true else false else false.

(** [fs_main]; [sample u v] is [textureSample] of the displayed texture. *)
Definition fs_main (v : ViewParams) (sample : R -> R -> vec4) (u w : R) : vec4 :=
  let '(ix, iy) := image_uv v u w in
  let color := sample (clampR ix 0 1) (clampR iy 0 1) in
  if in_unit ix && in_unit iy then color else V4 0.1 0.1 0.1 1.

(** [vs_main] of the fullscreen triangle: clip-space [(x, y)] and [uv]
    of vertex [vertex_index] (a [u32]). *)
Definition vs_main (vertex_index : Z) : (R * R) * (R * R) :=
  let x := IZR (to_i32 (Rng.u32 (to_i32 (Z.land vertex_index 1) * 4 - 1))) in
  let y := IZR (to_i32 (Rng.u32 (to_i32 (Z.shiftr vertex_index 1) * 4 - 1))) in
  ((x, y), ((x + 1) * 0.5, (1 - y) * 0.5)).

End Display.

(** The pointer handlers of [useRendererSync] that change the view. *)
Module Interaction.
Import Zoom.

(** The aspect scale factors, [getAspectScaleFactors] (with a container). *)
Definition getAspectScaleFactors (containerWidth containerHeight imageWidth imageHeight : R)
  : R * R :=
  let aspectCanvas := containerWidth / containerHeight in
  let aspectImage := imageWidth / imageHeight in
  if Rlt_dec aspectCanvas aspectImage then (1, aspectImage / aspectCanvas)
  else (aspectCanvas / aspectImage, 1).

(** [handleWheel]: [(canvasX, canvasY)] is the pointer in canvas units,
    [(e.clientX - rect.left) / rect.width] and likewise for [y]. *)
Definition handleWheel (containerWidth containerHeight imageWidth imageHeight : R)
  (viewState : ViewState) (canvasX canvasY deltaY : R) : ViewState :=
  let aspectCanvas := containerWidth / containerHeight in
  let aspectImage := imageWidth / imageHeight in
  let scaleX := if Rlt_dec aspectCanvas aspectImage then 1 else aspectCanvas / aspectImage in
  let scaleY := if Rlt_dec aspectCanvas aspectImage then aspectImage / aspectCanvas else 1 in
  let correctedX := (canvasX - 0.5) * scaleX + 0.5 in
  let correctedY := (canvasY - 0.5) * scaleY + 0.5 in
  let imageX := (correctedX - 0.5) / zoom viewState + centerX viewState in
  let imageY := (correctedY - 0.5) / zoom viewState + centerY viewState in
  let zoomIn := if Rlt_dec deltaY 0 then true else false in
  let zoomFactor := if zoomIn then ZOOM_STEP else 1 / ZOOM_STEP in
  let newZoom := zoom viewState * zoomFactor in
  zoomToward newZoom imageX imageY (zoom viewState) (centerX viewState) (centerY viewState).

(** [handleMouseMove] while dragging, from the drag start
    [(startX, startY, startCenterX, startCenterY)]; [rectWidth],
    [rectHeight] are the canvas' client size. *)
Definition handleMouseMove (containerWidth containerHeight imageWidth imageHeight : R)
  (viewState : ViewState) (startX startY startCenterX startCenterY : R)
  (clientX clientY rectWidth rectHeight : R) : ViewState :=
  let rawDeltaX := (clientX - startX) / rectWidth in
  let rawDeltaY := (clientY - startY) / rectHeight in
  let '(scaleX, scaleY) :=
    getAspectScaleFactors containerWidth containerHeight imageWidth imageHeight in
  let deltaX := rawDeltaX * scaleX / zoom viewState in
  let deltaY := rawDeltaY * scaleY / zoom viewState in
  Build_ViewState (zoom viewState) (startCenterX - deltaX) (startCenterY - deltaY).

End Interaction.

(** ** Generator lifetimes *)

Module GrainLife.
Import Grain.

(** The states a [GrainGenerator] passes through: construction, then any
    sequence of [generateTiles] calls (each completed before the next)
    and [destroy]. *)
Inductive reachable : GenState -> Prop :=
| reach_initial (g : Gpu) : reachable (initial_state g)
| reach_generate (p : GrainParams) (st : GenState) :
    reachable st -> reachable (snd (generateTiles p st))
| reach_destroy (st : GenState) : reachable st -> reachable (destroy st).

(** A texel of a valid colour: RGB in [[0, 1]], alpha 1. *)
Definition unit_texel (c : vec4) : Prop :=
  0 <= vr c <= 1 /\ 0 <= vg c <= 1 /\ 0 <= vb c <= 1 /\ va c = 1.

End GrainLife.

(** ** Proofs about the grain tile generator *)

Module GrainFacts.
Import Grain.

Lemma zrange_0_7 : zrange 0 (TILE_COUNT - 1) = [0; 1; 2; 3; 4; 5; 6; 7]%Z.
Proof. reflexivity. Qed.

Lemma fold_left_cons {A B} (f : A -> B -> A) (x : B) (l : list B) (a : A) :
  fold_left f (x :: l) a = fold_left f l (f a x).
Proof. reflexivity. Qed.

Lemma generateSingleTile_fields (i : Z) (params : GrainParams) (ts : Z) (st : GenState) :
  let st' := generateSingleTile i params ts st in
  grainTileArray st' = grainTileArray st /\ workTexture1 st' = workTexture1 st /\
  workTexture2 st' = workTexture2 st /\ currentTileSize st' = currentTileSize st /\
  lastParams st' = lastParams st /\ next_handle st' = next_handle st /\
  tile_log st' = tile_log st ++ [i] /\
  gpu st' = generateSingleTile_gpu i params ts (gpu st).
Proof. repeat split; reflexivity. Qed.

Lemma fst_pair {A B} (a : A) (b : B) : fst (a, b) = a.
Proof. reflexivity. Qed.

Lemma snd_pair {A B} (a : A) (b : B) : snd (a, b) = b.
Proof. reflexivity. Qed.

Lemma set_lastParams_fields (p : GrainParams) (st : GenState) :
  tile_log (set_lastParams p st) = tile_log st /\
  lastParams (set_lastParams p st) = Some p /\
  gpu (set_lastParams p st) = gpu st.
Proof. repeat split; reflexivity. Qed.

(** The tile loop leaves every host field alone except the GPU memory
    and the log of generated tiles. *)
Lemma fold_tiles_fields (params : GrainParams) (ts : Z) (l : list Z) (st : GenState) :
  let st' := fold_left (fun s i => generateSingleTile i params ts s) l st in
  grainTileArray st' = grainTileArray st /\ workTexture1 st' = workTexture1 st /\
  workTexture2 st' = workTexture2 st /\ currentTileSize st' = currentTileSize st /\
  lastParams st' = lastParams st /\ next_handle st' = next_handle st /\
  tile_log st' = tile_log st ++ l /\
  gpu st' = fold_left (fun g i => generateSingleTile_gpu i params ts g) l (gpu st).
Proof.
  revert st; induction l as [| i l IH]; intros st; cbv zeta.
  - rewrite app_nil_r; repeat split; reflexivity.
  - destruct (IH (generateSingleTile i params ts st))
      as (H1 & H2 & H3 & H4 & H5 & H6 & H7 & H8).
    destruct (generateSingleTile_fields i params ts st)
      as (G1 & G2 & G3 & G4 & G5 & G6 & G7 & G8).
    rewrite !fold_left_cons; cbv beta; rewrite H1, H2, H3, H4, H5, H6, H7, H8,
      G1, G2, G3, G4, G5, G6, G7, G8, <- app_assoc.
    repeat split; reflexivity.
Qed.

Lemma Inv_initial (g : Gpu) (n : nat) (log : list Z) :
  Inv (Build_GenState None None None None None n g log).
Proof. left; reflexivity. Qed.

Lemma Inv_destroy (st : GenState) : Inv (destroy st).
Proof. left; reflexivity. Qed.

Lemma ensureTextures_same (st : GenState) :
  currentTileSize st = Some BASE_TILE_SIZE -> ensureTextures BASE_TILE_SIZE st = st.
Proof. unfold ensureTextures; intros ->; reflexivity. Qed.

Lemma ensureTextures_Inv (st : GenState) :
  Inv st -> Inv (ensureTextures BASE_TILE_SIZE st).
Proof.
  unfold ensureTextures; intros HI.
  destruct (currentTileSize st) as [ts|] eqn:Hc.
  - destruct (ts =? BASE_TILE_SIZE)%Z; [assumption|].
    right; simpl; repeat split; discriminate.
  - right; simpl; repeat split; discriminate.
Qed.

Lemma generate_branch_Inv (p : GrainParams) (st : GenState) :
  Inv st ->
  Inv (snd (let st1 := ensureTextures BASE_TILE_SIZE st in
            match workTexture1 st1, workTexture2 st1, grainTileArray st1 with
            | Some _, Some _, Some h =>
                (Tiles h, set_lastParams p
                   (fold_left (fun s i => generateSingleTile i p BASE_TILE_SIZE s)
                      (zrange 0 (TILE_COUNT - 1)) st1))
            | _, _, _ => (FailedToCreateGrainTextures, st1)
            end)).
Proof.
  intros HI; pose proof (ensureTextures_Inv st HI) as HI1; cbv zeta.
  set (st1 := ensureTextures BASE_TILE_SIZE st) in *.
  destruct (workTexture1 st1) eqn:H1; destruct (workTexture2 st1) eqn:H2;
    destruct (grainTileArray st1) eqn:H3; exact HI1.
Qed.

Lemma generateTiles_Inv (p : GrainParams) (st : GenState) :
  Inv st -> Inv (snd (generateTiles p st)).
Proof.
  intros HI; unfold generateTiles.
  destruct (tilesValid st p), (grainTileArray st) eqn:Ha;
    try exact HI; apply generate_branch_Inv; exact HI.
Qed.

Ltac regen_case :=
  cbv zeta;
  let st0 := fresh "st0" in
  let H3 := fresh "H3" in
  let E := fresh "E" in
  set (st0 := ensureTextures BASE_TILE_SIZE _);
  destruct (workTexture1 st0), (workTexture2 st0), (grainTileArray st0) eqn:H3;
  intros E; inversion E; subst; clear E;
  (split; [exact H3|]; eexists; repeat split).

(** What a completed generation leaves behind: the returned array is the
    current one, and the recorded parameters agree with the call's on
    [(seed, arLag)]. *)
Lemma generateTiles_success (p : GrainParams) (st st1 : GenState) (h : nat) :
  Inv st -> generateTiles p st = (Tiles h, st1) ->
  Inv st1 /\ grainTileArray st1 = Some h /\
  exists lp, lastParams st1 = Some lp /\ seed lp = seed p /\ arLag lp = arLag p.
Proof.
  intros HI E.
  assert (HI1 : Inv st1) by (pose proof (generateTiles_Inv p st HI) as X;
                             rewrite E in X; exact X).
  split; [exact HI1|].
  revert E; unfold generateTiles.
  destruct (tilesValid st p) eqn:Hv; destruct (grainTileArray st) as [h0|] eqn:Ha.
  - intros E; inversion E; subst; clear E.
    split; [exact Ha|].
    unfold tilesValid in Hv; rewrite Ha in Hv.
    destruct (lastParams st1) as [lp|]; [|discriminate].
    apply andb_true_iff in Hv; destruct Hv as [Hs Hl].
    exists lp; split; [reflexivity|]; split; apply Z.eqb_eq; assumption.
  - unfold tilesValid in Hv; rewrite Ha in Hv; discriminate.
  - regen_case.
  - regen_case.
Qed.

(** The regeneration branch, taken from a reachable state whose tile
    array exists: same array handle, all eight tiles regenerated. *)
Lemma generateTiles_regen (q : GrainParams) (st : GenState) (h : nat) :
  Inv st -> grainTileArray st = Some h -> tilesValid st q = false ->
  generateTiles q st =
    (Tiles h, set_lastParams q
                (fold_left (fun s i => generateSingleTile i q BASE_TILE_SIZE s)
                   (zrange 0 (TILE_COUNT - 1)) st)).
Proof.
  intros [HI|(Hs & H1 & H2)] Ha Hv; [congruence|].
  unfold generateTiles; rewrite Hv; cbv zeta.
  rewrite (ensureTextures_same st Hs).
  destruct (workTexture1 st); [|congruence].
  destruct (workTexture2 st); [|congruence].
  rewrite ?Ha; reflexivity.
Qed.

(** C1: with the generator in a reachable state and a first call
    completed, a second call with the same [(seed, arLag)] returns the
    cached array and changes nothing, whatever its [grainSize]; a second
    call differing in [seed] or [arLag] regenerates all eight tiles
    (indices 0..7, in order) into the same array and records the new
    parameters. *)
Theorem generateTiles_cache (st st1 : GenState) (p q : GrainParams) (h : nat) :
  Inv st -> generateTiles p st = (Tiles h, st1) ->
  (seed q = seed p -> arLag q = arLag p -> generateTiles q st1 = (Tiles h, st1)) /\
  (seed q <> seed p \/ arLag q <> arLag p ->
   let st2 := snd (generateTiles q st1) in
   fst (generateTiles q st1) = Tiles h /\
   tile_log st2 = tile_log st1 ++ [0; 1; 2; 3; 4; 5; 6; 7]%Z /\
   lastParams st2 = Some q /\
   gpu st2 = generate_all_gpu q BASE_TILE_SIZE (gpu st1)).
Proof.
  intros HI E.
  destruct (generateTiles_success p st st1 h HI E) as (HI1 & Ha & lp & Hl & Hs & Hg).
  split.
  - intros Eq1 Eq2.
    assert (Hv : tilesValid st1 q = true).
    { unfold tilesValid; rewrite Ha, Hl, Hs, Hg, Eq1, Eq2, !Z.eqb_refl; reflexivity. }
    unfold generateTiles; rewrite Hv, Ha; reflexivity.
  - intros Hne.
    assert (Hv : tilesValid st1 q = false).
    { unfold tilesValid; rewrite Ha, Hl, Hs, Hg.
      destruct Hne as [Hne|Hne].
      - apply Z.eqb_neq in Hne; rewrite Z.eqb_sym, Hne; reflexivity.
      - apply Z.eqb_neq in Hne; rewrite (Z.eqb_sym (arLag p)), Hne, andb_false_r;
          reflexivity. }
    rewrite (generateTiles_regen q st1 h HI1 Ha Hv); cbv zeta.
    destruct (fold_tiles_fields q BASE_TILE_SIZE (zrange 0 (TILE_COUNT - 1)) st1)
      as (_ & _ & _ & _ & _ & _ & L & G).
    destruct (set_lastParams_fields q
                (fold_left (fun s i => generateSingleTile i q BASE_TILE_SIZE s)
                   (zrange 0 (TILE_COUNT - 1)) st1)) as (P1 & P2 & P3).
    rewrite fst_pair, snd_pair, P1, P2, P3.
    split; [reflexivity|].
    split; [rewrite L, zrange_0_7; reflexivity|].
    split; [reflexivity|].
    rewrite G; unfold generate_all_gpu; reflexivity.
Qed.
End GrainFacts.

(** ** i32 arithmetic *)

Module I32Facts.

Lemma wrap_i32_id (z : Z) : (- 2 ^ 31 <= z < 2 ^ 31)%Z -> wrap_i32 z = z.
Proof.
  intros H; unfold wrap_i32, to_i32.
  destruct (Z_le_gt_dec 0 z) as [Hp|Hn].
  - rewrite Z.mod_small by lia; destruct (Z.ltb_spec z (2 ^ 31)); lia.
  - rewrite <- (Z.mod_unique z (2 ^ 32) (-1) (z + 2 ^ 32)) by lia.
    destruct (Z.ltb_spec (z + 2 ^ 32) (2 ^ 31)); lia.
Qed.

Lemma wrap_i32_range (z : Z) : (- 2 ^ 31 <= wrap_i32 z < 2 ^ 31)%Z.
Proof.
  unfold wrap_i32, to_i32; pose proof (Z.mod_pos_bound z (2 ^ 32) ltac:(lia)).
  destruct (Z.ltb_spec (z mod 2 ^ 32) (2 ^ 31)); lia.
Qed.

Lemma abs_i32_id (z : Z) : (- 2 ^ 31 < z)%Z -> abs_i32 z = Z.abs z.
Proof. intros H; unfold abs_i32; destruct (Z.eqb_spec z (- 2 ^ 31)); lia. Qed.

Lemma in_zrange_bounds (lo hi z : Z) : In z (zrange lo hi) -> (lo <= z <= hi)%Z.
Proof.
  unfold zrange; intros H; apply in_map_iff in H; destruct H as (k & <- & Hk).
  apply in_seq in Hk; lia.
Qed.

(** A loop [for (var i = lo; i <= hi; i++)] with [hi < 2^31 - 1] stops. *)
Lemma i32_for_stops (lo hi : Z) : (hi < 2 ^ 31 - 1)%Z -> i32_for lo hi = Some (zrange lo hi).
Proof. intros H; unfold i32_for; destruct (Z.eqb_spec hi (2 ^ 31 - 1)); [lia | reflexivity]. Qed.

End I32Facts.

Module GrainDeterminism.
Import Grain.

(** One tile's host operations amount to running [tile_passes] on the
    uniform values written last: every blur pass of the tile reads the
    final [blurUniformBuffer] contents, since [writeBuffer] lands on the
    queue before the tile's single [submit]. *)
Lemma generateSingleTile_gpu_eq (i : Z) (params : GrainParams) (ts : Z) (g : Gpu) :
  generateSingleTile_gpu i params ts g =
  exec_passes ts (tile_uniforms_gpu i params ts g) (tile_passes ts).
Proof. reflexivity. Qed.

Lemma fold_left_ext_in {A B} (f g : A -> B -> A) (l : list B) (a : A) :
  (forall acc x, In x l -> f acc x = g acc x) -> fold_left f l a = fold_left g l a.
Proof.
  revert a; induction l as [| x l IH]; intros a H; [reflexivity|].
  cbn [fold_left]; rewrite (H a x (or_introl eq_refl)).
  apply IH; intros acc y Hy; apply H; right; exact Hy.
Qed.

Lemma clampZ_range (ts z : Z) : (0 < ts)%Z -> (0 <= clampZ z 0 (ts - 1) < ts)%Z.
Proof. unfold clampZ; lia. Qed.

Lemma ar_texel_congr (u : ArU) (ts : Z) (a b : tex) (x y : Z) :
  (0 < ts)%Z -> agree_in ts a b -> (0 <= x < ts)%Z -> (0 <= y < ts)%Z ->
  ar_texel u a ts ts x y = ar_texel u b ts ts x y.
Proof.
  intros Hts Hab Hx Hy; unfold ar_texel, ar_main.
  assert (E : ar_accum a ts ts x y (to_i32 (ar_lag u)) =
              ar_accum b ts ts x y (to_i32 (ar_lag u))).
  { unfold ar_accum; destruct (i32_for _ _) as [ds|]; [|reflexivity]; f_equal.
    apply fold_left_ext_in; intros acc dy _.
    apply fold_left_ext_in; intros [sum ws] dx _.
    destruct (get_ar_weight dx dy (to_i32 (ar_lag u))) as [wt|]; [|reflexivity].
    destruct (Rlt_dec 0 wt); [|reflexivity].
    rewrite (Hab _ _ (clampZ_range ts _ Hts) (clampZ_range ts _ Hts)).
    reflexivity. }
  rewrite E, (Hab x y Hx Hy); reflexivity.
Qed.

Lemma blur_main_congr (u : BlurU) (ts : Z) (a b : tex) (x y : Z) :
  (0 < ts)%Z -> agree_in ts a b -> (0 <= x < ts)%Z -> (0 <= y < ts)%Z ->
  blur_main u a ts ts x y = blur_main u b ts ts x y.
Proof.
  intros Hts Hab Hx Hy; unfold blur_main.
  rewrite (Hab x y Hx Hy).
  erewrite fold_left_ext_in; [reflexivity|].
  intros [sum ws] i _; cbv beta iota.
  destruct (direction u =? 0)%Z; cbn [fst snd];
    [ rewrite (Hab _ _ (clampZ_range ts (x + i) Hts) Hy)
    | rewrite (Hab _ _ Hx (clampZ_range ts (y + i) Hts)) ]; reflexivity.
Qed.

Lemma dispatch_agree (wgx wgy sx sy ts : Z) (b1 b2 : Z -> Z -> vec4) (o1 o2 : tex) :
  (ts <= wgx * sx)%Z -> (ts <= wgy * sy)%Z ->
  (forall x y, (0 <= x < ts)%Z -> (0 <= y < ts)%Z -> b1 x y = b2 x y) ->
  agree_in ts (dispatch wgx wgy sx sy ts ts b1 o1) (dispatch wgx wgy sx sy ts ts b2 o2).
Proof.
  intros Hx Hy Hb x y Hx' Hy'; unfold dispatch.
  assert (C : ((0 <=? x) && (x <? wgx * sx) && (0 <=? y) && (y <? wgy * sy)
               && (x <? ts) && (y <? ts))%Z = true).
  { rewrite !andb_true_iff, !Z.leb_le, !Z.ltb_lt; lia. }
  rewrite C; apply Hb; assumption.
Qed.

Lemma set_work_agree (ts : Z) (wa : WorkTex -> bool) (S : Z -> Prop) (g1 g2 : Gpu)
  (o : WorkTex) (v1 v2 : tex) (b : bool) :
  GAgree ts wa S g1 g2 -> (b = true -> agree_in ts v1 v2) ->
  GAgree ts (upd_wa wa o b) S (set_work g1 o v1) (set_work g2 o v2).
Proof.
  intros (U1 & U2 & U3 & U4 & W & T) Hv.
  destruct o; unfold GAgree; cbn [set_work noiseU arU blurU normU tiles];
    (split; [assumption|]); (split; [assumption|]); (split; [assumption|]);
    (split; [assumption|]); (split; [|assumption]);
    intros [|] Ht; cbn [upd_wa get_work work1 work2] in *;
    first [ exact (Hv Ht) | exact (W _ Ht) ].
Qed.

Lemma exec_pass_agree (ts : Z) (p : Pass) (wa : WorkTex -> bool) (S : Z -> Prop)
  (g1 g2 : Gpu) :
  (0 < ts)%Z -> covers ts p -> GAgree ts wa S g1 g2 ->
  GAgree ts (post_wa p wa) (post_S p wa (norm_tile_index (normU g1)) S)
    (exec_pass ts g1 p) (exec_pass ts g2 p).
Proof.
  intros Hts Hc HG; pose proof HG as (U1 & U2 & U3 & U4 & W & T).
  destruct p as [o wx wy | i o wx wy | i o wx wy | i o wx wy | i wx wy];
    cbn [exec_pass covers post_wa post_S] in *; destruct Hc as [Hcx Hcy].
  - apply set_work_agree; [exact HG|]; intros _.
    apply dispatch_agree; try lia; intros x y _ _; rewrite U1; reflexivity.
  - apply set_work_agree; [exact HG|]; intros Hb.
    apply dispatch_agree; try lia; intros x y Hx Hy; rewrite U2.
    apply ar_texel_congr; auto.
  - apply set_work_agree; [exact HG|]; intros Hb.
    apply dispatch_agree; try lia; intros x y Hx Hy; unfold ycbcr_main.
    rewrite (W i Hb x y Hx Hy); reflexivity.
  - apply set_work_agree; [exact HG|]; intros Hb.
    apply dispatch_agree; try lia; intros x y Hx Hy; rewrite U3.
    apply blur_main_congr; auto.
  - unfold GAgree; cbn [noiseU arU blurU normU tiles get_work work1 work2].
    do 4 (split; [assumption|]); split.
    + intros [|] Ht; [apply (W WT1 Ht) | apply (W WT2 Ht)].
    + rewrite <- U4; intros l [[-> Hw] | [Hne Hs]].
      * rewrite Z.eqb_refl; apply dispatch_agree; try lia; intros x y Hx Hy.
        unfold normalize_main.
        change (get_work (Build_Gpu (work1 g1) (work2 g1) (tiles g1) (noiseU g1) (arU g1)
                  (blurU g1) (normU g1)) i) with (get_work g1 i).
        change (get_work (Build_Gpu (work1 g2) (work2 g2) (tiles g2) (noiseU g2) (arU g2)
                  (blurU g2) (normU g2)) i) with (get_work g2 i).
        rewrite (W i Hw x y Hx Hy); reflexivity.
      * rewrite (proj2 (Z.eqb_neq _ _) Hne); apply T; exact Hs.
Qed.

Lemma exec_pass_normU (ts : Z) (g : Gpu) (p : Pass) : normU (exec_pass ts g p) = normU g.
Proof. destruct p as [[] ? ? | ? [] ? ? | ? [] ? ? | ? [] ? ? | ? ? ?]; reflexivity. Qed.

Lemma exec_passes_agree (ts : Z) (ps : list Pass) (wa : WorkTex -> bool) (S : Z -> Prop)
  (g1 g2 : Gpu) :
  (0 < ts)%Z -> Forall (covers ts) ps -> GAgree ts wa S g1 g2 ->
  let post := post_all ps (norm_tile_index (normU g1)) wa S in
  GAgree ts (fst post) (snd post) (exec_passes ts g1 ps) (exec_passes ts g2 ps).
Proof.
  revert wa S g1 g2; induction ps as [| p ps IH]; intros wa S g1 g2 Hts Hc HG;
    [exact HG|].
  inversion Hc as [| ? ? Hp Hps]; subst.
  change (exec_passes ts g1 (p :: ps)) with (exec_passes ts (exec_pass ts g1 p) ps).
  change (exec_passes ts g2 (p :: ps)) with (exec_passes ts (exec_pass ts g2 p) ps).
  change (post_all (p :: ps) (norm_tile_index (normU g1)) wa S) with
    (post_all ps (norm_tile_index (normU g1)) (post_wa p wa)
       (post_S p wa (norm_tile_index (normU g1)) S)).
  pose proof (IH _ _ _ _ Hts Hps (exec_pass_agree ts p wa S g1 g2 Hts Hp HG)) as X.
  rewrite exec_pass_normU in X; exact X.
Qed.

Lemma tile_passes_covers : Forall (covers BASE_TILE_SIZE) (tile_passes BASE_TILE_SIZE).
Proof.
  unfold tile_passes, BASE_TILE_SIZE, ceil_div;
    repeat constructor; apply Z.leb_le; reflexivity.
Qed.

Lemma tile_post_all (layer : Z) (S : Z -> Prop) (l : Z) :
  l = layer \/ S l ->
  snd (post_all (tile_passes BASE_TILE_SIZE) layer (fun _ => false) S) l.
Proof.
  intros H; cbn.
  destruct (Z.eq_dec l layer) as [E|E]; [left; split; [exact E | reflexivity]|].
  right; split; [exact E|]; destruct H as [H|H]; [contradiction | exact H].
Qed.

Lemma tile_uniforms_params (i : Z) (p1 p2 : GrainParams) (ts : Z) (g : Gpu) :
  seed p1 = seed p2 -> arLag p1 = arLag p2 ->
  tile_uniforms_gpu i p2 ts g = tile_uniforms_gpu i p1 ts g.
Proof. intros Hs Ha; unfold tile_uniforms_gpu; rewrite Hs, Ha; reflexivity. Qed.

(** One tile makes its layer agree between any two GPU memories, for two
    parameter sets with the same [(seed, arLag)], and keeps the layers
    that already agreed. *)
Lemma tile_agree (i : Z) (p1 p2 : GrainParams) (g1 g2 : Gpu) (S : Z -> Prop) :
  seed p1 = seed p2 -> arLag p1 = arLag p2 ->
  (forall l, S l -> agree_in BASE_TILE_SIZE (tiles g1 l) (tiles g2 l)) ->
  forall l, l = Rng.u32 i \/ S l ->
  agree_in BASE_TILE_SIZE (tiles (generateSingleTile_gpu i p1 BASE_TILE_SIZE g1) l)
    (tiles (generateSingleTile_gpu i p2 BASE_TILE_SIZE g2) l).
Proof.
  intros Hs Ha HS l Hl; rewrite !generateSingleTile_gpu_eq.
  rewrite (tile_uniforms_params i p1 p2 BASE_TILE_SIZE g2 Hs Ha).
  assert (HG : GAgree BASE_TILE_SIZE (fun _ => false) S
                 (tile_uniforms_gpu i p1 BASE_TILE_SIZE g1)
                 (tile_uniforms_gpu i p1 BASE_TILE_SIZE g2)).
  { unfold GAgree; repeat (split; [reflexivity|]); split; [discriminate|exact HS]. }
  assert (Hts : (0 < BASE_TILE_SIZE)%Z) by (unfold BASE_TILE_SIZE; lia).
  pose proof (exec_passes_agree _ _ _ _ _ _ Hts tile_passes_covers HG) as X.
  cbv zeta in X; destruct X as (_ & _ & _ & _ & _ & T).
  apply T, tile_post_all; exact Hl.
Qed.

Lemma tiles_fold_agree (p1 p2 : GrainParams) (ks : list Z) :
  seed p1 = seed p2 -> arLag p1 = arLag p2 ->
  forall (g1 g2 : Gpu) (S : Z -> Prop),
  (forall l, S l -> agree_in BASE_TILE_SIZE (tiles g1 l) (tiles g2 l)) ->
  forall l, In l (map Rng.u32 ks) \/ S l ->
  agree_in BASE_TILE_SIZE
    (tiles (fold_left (fun g i => generateSingleTile_gpu i p1 BASE_TILE_SIZE g) ks g1) l)
    (tiles (fold_left (fun g i => generateSingleTile_gpu i p2 BASE_TILE_SIZE g) ks g2) l).
Proof.
  intros Hs Ha; induction ks as [| k ks IH]; intros g1 g2 S HS l Hl.
  - destruct Hl as [[]|H]; apply HS; exact H.
  - rewrite !GrainFacts.fold_left_cons.
    apply (IH _ _ (fun l => l = Rng.u32 k \/ S l)).
    + apply tile_agree; assumption.
    + destruct Hl as [[H|H]|H]; [right; left; symmetry; exact H | left; exact H |
                                 right; right; exact H].
Qed.

(** The GPU part of a generation: all eight layers agree, whatever the
    GPU memory held before. *)
Lemma generate_all_agree (p1 p2 : GrainParams) (g1 g2 : Gpu) (l : Z) :
  seed p1 = seed p2 -> arLag p1 = arLag p2 -> (0 <= l < TILE_COUNT)%Z ->
  agree_in BASE_TILE_SIZE (tiles (generate_all_gpu p1 BASE_TILE_SIZE g1) l)
    (tiles (generate_all_gpu p2 BASE_TILE_SIZE g2) l).
Proof.
  intros Hs Ha Hl; unfold generate_all_gpu.
  apply (tiles_fold_agree p1 p2 _ Hs Ha g1 g2 (fun _ => False));
    [intros ? Hf; destruct Hf | left].
  rewrite GrainFacts.zrange_0_7; cbn [map].
  unfold TILE_COUNT in Hl.
  assert (E : l = 0%Z \/ l = 1%Z \/ l = 2%Z \/ l = 3%Z \/ l = 4%Z \/ l = 5%Z \/
              l = 6%Z \/ l = 7%Z) by lia.
  destruct E as [-> | [-> | [-> | [-> | [-> | [-> | [-> | ->]]]]]]];
    repeat (first [left; reflexivity | right]).
Qed.

(** A generation that does not hit the cache leaves in GPU memory the
    result of the eight-tile loop run on some earlier memory. *)
Lemma generateTiles_gpu (p : GrainParams) (st st1 : GenState) (h : nat) :
  tilesValid st p = false -> generateTiles p st = (Tiles h, st1) ->
  exists g0, gpu st1 = generate_all_gpu p BASE_TILE_SIZE g0.
Proof.
  intros Hv; unfold generateTiles; rewrite Hv; cbv beta iota zeta.
  set (st0 := ensureTextures BASE_TILE_SIZE st).
  destruct (workTexture1 st0), (workTexture2 st0), (grainTileArray st0);
    intros E; try discriminate E.
  apply (f_equal snd) in E; rewrite GrainFacts.snd_pair, GrainFacts.snd_pair in E.
  subst st1; exists (gpu st0).
  destruct (GrainFacts.set_lastParams_fields p
              (fold_left (fun s i => generateSingleTile i p BASE_TILE_SIZE s)
                 (zrange 0 (TILE_COUNT - 1)) st0)) as (_ & _ & P3).
  destruct (GrainFacts.fold_tiles_fields p BASE_TILE_SIZE (zrange 0 (TILE_COUNT - 1)) st0)
    as (_ & _ & _ & _ & _ & _ & _ & G).
  rewrite P3, G; unfold generate_all_gpu; reflexivity.
Qed.

(** C8: two generations that run (no cache hit), from any two generator
    states with any GPU contents, with parameters sharing [(seed, arLag)],
    leave identical texels in all eight layers of their tile arrays. *)
Theorem generateTiles_deterministic (p p' : GrainParams) (st st' st1 st1' : GenState)
  (h h' : nat) :
  seed p = seed p' -> arLag p = arLag p' ->
  tilesValid st p = false -> tilesValid st' p' = false ->
  generateTiles p st = (Tiles h, st1) -> generateTiles p' st' = (Tiles h', st1') ->
  forall l x y, (0 <= l < TILE_COUNT)%Z ->
  (0 <= x < BASE_TILE_SIZE)%Z -> (0 <= y < BASE_TILE_SIZE)%Z ->
  tiles (gpu st1) l x y = tiles (gpu st1') l x y.
Proof.
  intros Hs Ha Hv Hv' E E' l x y Hl Hx Hy.
  destruct (generateTiles_gpu p st st1 h Hv E) as [g0 G].
  destruct (generateTiles_gpu p' st' st1' h' Hv' E') as [g0' G'].
  rewrite G, G'; apply generate_all_agree; assumption.
Qed.

End GrainDeterminism.

(** ** Concrete runs of the grain generator *)

Module GrainExamples.
Import Grain.

(** A first generation from a fresh generator with seed 42 and lag 2,
    then a call changing only [grainSize]: the cached array is returned. *)
Lemma generateTiles_cache_witness :
  Inv (initial_state zero_gpu) /\
  generateTiles (Build_GrainParams 42 1 2) (initial_state zero_gpu) =
    (Tiles 2, snd (generateTiles (Build_GrainParams 42 1 2) (initial_state zero_gpu))) /\
  generateTiles (Build_GrainParams 42 (5 / 2) 2)
    (snd (generateTiles (Build_GrainParams 42 1 2) (initial_state zero_gpu))) =
    (Tiles 2, snd (generateTiles (Build_GrainParams 42 1 2) (initial_state zero_gpu))).
Proof.
  assert (HI : Inv (initial_state zero_gpu)) by (left; reflexivity).
  assert (E : generateTiles (Build_GrainParams 42 1 2) (initial_state zero_gpu) =
    (Tiles 2, snd (generateTiles (Build_GrainParams 42 1 2) (initial_state zero_gpu)))).
  { change (Tiles 2) with
      (fst (generateTiles (Build_GrainParams 42 1 2) (initial_state zero_gpu))).
    apply surjective_pairing. }
  split; [exact HI|]; split; [exact E|].
  apply (proj1 (GrainFacts.generateTiles_cache _ _ (Build_GrainParams 42 1 2)
                  (Build_GrainParams 42 (5 / 2) 2) 2 HI E)); reflexivity.
Defined.

(** A fresh generator run with seed 42 and lag 2, against a generator
    that had already produced tiles for seed 7 and lag 3 (so holding other
    tile contents and uniform values) and now runs seed 42, lag 2 with a
    different [grainSize]. *)
Lemma generateTiles_deterministic_witness :
  tilesValid (initial_state zero_gpu) (Build_GrainParams 42 1 2) = false /\
  tilesValid (snd (generateTiles (Build_GrainParams 7 1 3) (initial_state zero_gpu))) (Build_GrainParams 42 (5 / 2) 2) = false /\
  tiles (gpu (snd (generateTiles (Build_GrainParams 42 1 2) (initial_state zero_gpu))))
    3%Z 17%Z 200%Z =
  tiles (gpu (snd (generateTiles (Build_GrainParams 42 (5 / 2) 2) (snd (generateTiles (Build_GrainParams 7 1 3) (initial_state zero_gpu)))))) 3%Z 17%Z 200%Z.
Proof.
  assert (V1 : tilesValid (initial_state zero_gpu) (Build_GrainParams 42 1 2) = false)
    by reflexivity.
  assert (V2 : tilesValid (snd (generateTiles (Build_GrainParams 7 1 3) (initial_state zero_gpu))) (Build_GrainParams 42 (5 / 2) 2) = false)
    by reflexivity.
  assert (E1 : generateTiles (Build_GrainParams 42 1 2) (initial_state zero_gpu) =
    (Tiles 2, snd (generateTiles (Build_GrainParams 42 1 2) (initial_state zero_gpu)))).
  { change (Tiles 2) with
      (fst (generateTiles (Build_GrainParams 42 1 2) (initial_state zero_gpu))).
    apply surjective_pairing. }
  assert (E2 : generateTiles (Build_GrainParams 42 (5 / 2) 2) (snd (generateTiles (Build_GrainParams 7 1 3) (initial_state zero_gpu))) =
    (Tiles 2, snd (generateTiles (Build_GrainParams 42 (5 / 2) 2) (snd (generateTiles (Build_GrainParams 7 1 3) (initial_state zero_gpu)))))).
  { change (Tiles 2) with
      (fst (generateTiles (Build_GrainParams 42 (5 / 2) 2) (snd (generateTiles (Build_GrainParams 7 1 3) (initial_state zero_gpu))))).
    apply surjective_pairing. }
  split; [exact V1|]; split; [exact V2|].
  apply (GrainDeterminism.generateTiles_deterministic (Build_GrainParams 42 1 2)
           (Build_GrainParams 42 (5 / 2) 2) _ _ _ _ 2 2 eq_refl eq_refl V1 V2 E1 E2); unfold TILE_COUNT, BASE_TILE_SIZE; lia.
Defined.
End GrainExamples.

(** ** Proofs about the grain blend *)

Module BlendFacts.
Import Blend.

Lemma clampR_id (x : R) : 0 <= x <= 1 -> clampR x 0 1 = x.
Proof.
  intros H; unfold clampR; rewrite Rmax_left by lra; rewrite Rmin_left by lra;
    reflexivity.
Qed.

Lemma clampR_range (x : R) : 0 <= clampR x 0 1 <= 1.
Proof.
  unfold clampR, Rmin, Rmax; destruct (Rle_dec x 0); destruct (Rle_dec _ 1); lra.
Qed.

(** An all-black pixel has luminance 0, hence response 0. *)
Lemma response_black (bias : R) : luminance_response (dot3 (vsplat3 0) LUMA_COEFFS) bias = 0.
Proof.
  unfold luminance_response.
  replace (4 * dot3 (vsplat3 0) LUMA_COEFFS * (1 - dot3 (vsplat3 0) LUMA_COEFFS)) with 0
    by (unfold dot3, vsplat3, LUMA_COEFFS; cbn [x3 y3 z3]; ring).
  rewrite clampR_id by lra; unfold wgsl_pow.
  destruct (Rle_dec 0 0) as [_|n]; [reflexivity | lra].
Qed.

Lemma grain_final_black (sample : Z -> R -> R -> vec3) (p : BlendParams) (px py : R) :
  grain_final sample p (vsplat3 0) px py = vsplat3 1.
Proof.
  unfold grain_final; rewrite response_black.
  unfold vadd3, vscale3, vsplat3; cbn [x3 y3 z3]; f_equal; ring.
Qed.

Lemma blend_black (sample : Z -> R -> R -> vec3) (p : BlendParams) (px py : R) :
  blend_pixel sample p (vsplat3 0) px py =
  V4 (clampR (toe p) 0 1) (clampR (toe p) 0 1) (clampR (toe p) 0 1) 1.
Proof.
  unfold blend_pixel; rewrite grain_final_black.
  unfold with_alpha, clamp3, vadd3, vscale3, vsub3, vmul3, vsplat3; cbn [x3 y3 z3].
  f_equal; f_equal; ring.
Qed.

(** With [strength = 0] the grain factor is 1 in every channel. *)
Lemma grain_final_zero_strength (sample : Z -> R -> R -> vec3) (p : BlendParams)
  (image : vec3) (px py : R) :
  strength p = 0 -> grain_final sample p image px py = vsplat3 1.
Proof.
  intros H; unfold grain_final; cbv zeta.
  set (g := sample_grain_patchwork sample p px py).
  set (r := luminance_response _ _); rewrite H.
  cbv [vadd3 vscale3 vsub3 vmul3 vsplat3 mix3 mixR x3 y3 z3 CHANNEL_SCALES].
  f_equal; ring.
Qed.

(** C2 (amended): with [strength = 0] the blend ignores the tiles, the
    saturation, the midtone bias, the grain size and the seed, but it
    still applies the toe lift: each output channel is
    [clamp(image * (1 - toe) + toe, 0, 1)] and the alpha written is 1.
    The output colour equals the input colour when moreover [toe = 0] and
    the input colour lies in [[0, 1]]. *)
Theorem blend_zero_strength (sample : Z -> R -> R -> vec3) (p : BlendParams)
  (image : vec3) (px py : R) :
  strength p = 0 ->
  blend_pixel sample p image px py =
    V4 (clampR (x3 image * (1 - toe p) + toe p) 0 1)
       (clampR (y3 image * (1 - toe p) + toe p) 0 1)
       (clampR (z3 image * (1 - toe p) + toe p) 0 1) 1 /\
  (toe p = 0 -> 0 <= x3 image <= 1 -> 0 <= y3 image <= 1 -> 0 <= z3 image <= 1 ->
   blend_pixel sample p image px py = with_alpha image 1).
Proof.
  intros H.
  assert (E : blend_pixel sample p image px py =
    V4 (clampR (x3 image * (1 - toe p) + toe p) 0 1)
       (clampR (y3 image * (1 - toe p) + toe p) 0 1)
       (clampR (z3 image * (1 - toe p) + toe p) 0 1) 1).
  { unfold blend_pixel; rewrite (grain_final_zero_strength sample p image px py H).
    cbv [with_alpha clamp3 vadd3 vscale3 vsub3 vmul3 vsplat3 x3 y3 z3].
    f_equal; f_equal; ring. }
  split; [exact E|].
  intros Ht Hx Hy Hz; rewrite E, Ht; unfold with_alpha.
  rewrite !Rminus_0_r, !Rmult_1_r, !Rplus_0_r, !clampR_id by assumption.
  reflexivity.
Qed.

(** C2: an all-black pixel with [strength = 0] and [toe = 0.5] comes out
    at 0.5 in every channel, not black. *)
Lemma blend_zero_strength_counterexample :
  strength (Build_BlendParams 0 1 0.5 1 1 16 16 42) = 0 /\
  blend_pixel (fun _ _ _ => vsplat3 0.5) (Build_BlendParams 0 1 0.5 1 1 16 16 42)
    (vsplat3 0) 0 0 <> with_alpha (vsplat3 0) 1.
Proof.
  split; [reflexivity|].
  rewrite blend_black; cbn [toe]; rewrite clampR_id by lra.
  unfold with_alpha, vsplat3; cbn [x3 y3 z3]; intros E; injection E; lra.
Qed.

(** C3: for an all-black pixel the grain factor is 1 in every channel
    (the luminance response is 0), every channel is
    [clamp((1 - (1 - 0) * grainFactor) * (1 - toe) + toe, 0, 1)], and raising
    [toe] within [[0, 1]] strictly raises every channel. *)
Theorem black_pixel_toe (sample : Z -> R -> R -> vec3) (p : BlendParams) (px py t1 t2 : R) :
  0 <= t1 < t2 -> t2 <= 1 ->
  let gf := grain_final sample p (vsplat3 0) px py in
  gf = vsplat3 1 /\
  blend_pixel sample p (vsplat3 0) px py =
    V4 (clampR ((1 - (1 - 0) * x3 gf) * (1 - toe p) + toe p) 0 1)
       (clampR ((1 - (1 - 0) * y3 gf) * (1 - toe p) + toe p) 0 1)
       (clampR ((1 - (1 - 0) * z3 gf) * (1 - toe p) + toe p) 0 1) 1 /\
  vr (blend_pixel sample (with_toe p t1) (vsplat3 0) px py) <
    vr (blend_pixel sample (with_toe p t2) (vsplat3 0) px py) /\
  vg (blend_pixel sample (with_toe p t1) (vsplat3 0) px py) <
    vg (blend_pixel sample (with_toe p t2) (vsplat3 0) px py) /\
  vb (blend_pixel sample (with_toe p t1) (vsplat3 0) px py) <
    vb (blend_pixel sample (with_toe p t2) (vsplat3 0) px py).
Proof.
  intros H1 H2 gf; subst gf; rewrite grain_final_black, !blend_black.
  cbn [vr vg vb toe with_toe]; rewrite (clampR_id t1), (clampR_id t2) by lra.
  split; [reflexivity|]; split; [|lra].
  unfold vsplat3; cbn [x3 y3 z3].
  replace ((1 - (1 - 0) * 1) * (1 - toe p) + toe p) with (toe p) by ring; reflexivity.
Qed.

Lemma smoothstep_nonneg (lo hi x : R) : 0 <= smoothstep lo hi x.
Proof.
  unfold smoothstep; pose proof (clampR_range ((x - lo) / (hi - lo))) as H.
  apply Rmult_le_pos; [apply Rmult_le_pos|]; lra.
Qed.

Lemma smoothstep_one (b e : R) : 0 < b -> b <= e -> smoothstep 0 b e = 1.
Proof.
  intros Hb He; unfold smoothstep.
  assert (Hq : 1 <= (e - 0) / (b - 0)).
  { rewrite !Rminus_0_r; apply (Rmult_le_reg_r b); [exact Hb|].
    unfold Rdiv; rewrite Rmult_assoc, Rinv_l by lra; lra. }
  unfold clampR; rewrite Rmax_left by lra; rewrite Rmin_right by lra; ring.
Qed.

Lemma blend_weight_nonneg (sx sy : R) (rx ry : Z) (bs : R) :
  0 <= blend_weight sx sy rx ry bs.
Proof. unfold blend_weight; apply Rmult_le_pos; apply smoothstep_nonneg. Qed.

(** The region index of a coordinate [s] in [[0, 512 * 2^31)]. *)
Lemma region_index (s : R) :
  0 <= s -> s < REGION_SIZE * 2147483648 ->
  let n := i32_of_f32 (ffloor (s / REGION_SIZE)) in
  (0 <= n < 2 ^ 31)%Z /\ IZR n * REGION_SIZE <= s < (IZR n + 1) * REGION_SIZE.
Proof.
  intros H0 H1 n; unfold REGION_SIZE in *.
  destruct (base_Int_part (s / 512)) as [Ha Hb].
  set (k := Int_part (s / 512)) in *.
  assert (Hk0 : (0 <= k)%Z).
  { assert (0 <= s / 512) by (unfold Rdiv; apply Rmult_le_pos; lra).
    assert (Hm : (-1 < k)%Z) by (apply lt_IZR; cbn [IZR]; lra). lia. }
  assert (Hk1 : (k < 2 ^ 31)%Z).
  { apply lt_IZR; change (IZR (2 ^ 31)) with 2147483648.
    assert (s / 512 < 2147483648) by (apply (Rmult_lt_reg_r 512); [lra|];
      unfold Rdiv; rewrite Rmult_assoc, Rinv_l by lra; lra). lra. }
  assert (Hn : n = k).
  { subst n; unfold i32_of_f32, ffloor, ftrunc; change (Int_part (s / 512)) with k.
    destruct (Rle_dec 0 (IZR k)) as [_|Hneg];
      [| exfalso; apply Hneg; apply IZR_le; exact Hk0].
    rewrite <- (Int_part_spec (IZR k) k) by lra.
    unfold clampZ; lia. }
  rewrite Hn; split; [lia|].
  assert (E : s = s / 512 * 512) by (field; lra).
  split; rewrite E at 1 || idtac; lra.
Qed.

(** The pixel's own region: indices in the i32 range, weight exactly 1. *)
Lemma own_region (p : BlendParams) (px py : R) :
  0 < grain_size p -> 0 <= px -> 0 <= py ->
  px / grain_size p < REGION_SIZE * 2147483648 ->
  py / grain_size p < REGION_SIZE * 2147483648 ->
  (0 <= fst (patch_region p px py) < 2 ^ 31)%Z /\
  (0 <= snd (patch_region p px py) < 2 ^ 31)%Z /\
  blend_weight (px / grain_size p) (py / grain_size p) (fst (patch_region p px py))
    (snd (patch_region p px py)) (BLEND_PIXELS / grain_size p) = 1.
Proof.
  intros Hg Hx Hy Hx1 Hy1.
  assert (Hx0 : 0 <= px / grain_size p)
    by (unfold Rdiv; apply Rmult_le_pos; [lra | apply Rlt_le, Rinv_0_lt_compat; lra]).
  assert (Hy0 : 0 <= py / grain_size p)
    by (unfold Rdiv; apply Rmult_le_pos; [lra | apply Rlt_le, Rinv_0_lt_compat; lra]).
  assert (Hb : 0 < BLEND_PIXELS / grain_size p)
    by (unfold BLEND_PIXELS, Rdiv; apply Rmult_lt_0_compat; [lra | apply Rinv_0_lt_compat; lra]).
  destruct (region_index _ Hx0 Hx1) as [Rx [Lx Ux]].
  destruct (region_index _ Hy0 Hy1) as [Ry [Ly Uy]].
  unfold patch_region; cbn [fst snd].
  split; [exact Rx|]; split; [exact Ry|].
  unfold blend_weight.
  rewrite !smoothstep_one; [ring | exact Hb | | exact Hb |];
    match goal with
    | |- _ <= _ - Rabs ?d =>
        assert (Rabs d <= 256) by (apply Rabs_le; unfold REGION_SIZE in *; lra);
        unfold REGION_SIZE in *; lra
    end.
Qed.

Lemma i32_add_0 (n : Z) : (0 <= n < 2 ^ 31)%Z -> i32_add n 0 = n.
Proof.
  intros H; unfold i32_add, to_i32, Rng.u32; rewrite Z.add_0_r, Z.mod_small by lia.
  destruct (Z.ltb_spec n (2 ^ 31)); lia.
Qed.

Lemma step_mono (sample : Z -> R -> R -> vec3) (p : BlendParams) (sx sy bs : R)
  (rx ry dy : Z) (acc : vec3 * R) (dx : Z) :
  snd acc <= snd (patch_step sample p sx sy bs rx ry dy acc dx).
Proof. unfold patch_step; destruct (Rlt_dec 0.001 _); cbn [snd]; lra. Qed.

Lemma own_step (sample : Z -> R -> R -> vec3) (p : BlendParams) (sx sy bs : R)
  (rx ry : Z) (acc : vec3 * R) :
  blend_weight sx sy (i32_add rx 0) (i32_add ry 0) bs = 1 ->
  snd (patch_step sample p sx sy bs rx ry 0 acc 0) = snd acc + 1.
Proof.
  intros H; unfold patch_step; rewrite H.
  destruct (Rlt_dec 0.001 1); [reflexivity | lra].
Qed.

Lemma accum_weight (sample : Z -> R -> R -> vec3) (p : BlendParams) (sx sy bs : R)
  (rx ry : Z) :
  blend_weight sx sy (i32_add rx 0) (i32_add ry 0) bs = 1 ->
  1 <= snd (fold_left (fun acc dy =>
              fold_left (patch_step sample p sx sy bs rx ry dy) (zrange (-1) 1) acc)
            (zrange (-1) 1) (vsplat3 0, 0)).
Proof.
  intros H; change (zrange (-1) 1) with [-1; 0; 1]%Z; cbn [fold_left].
  do 4 (eapply Rle_trans; [|apply step_mono]).
  rewrite (own_step sample p sx sy bs rx ry _ H).
  enough (0 <= snd (patch_step sample p sx sy bs rx ry 0
                     (patch_step sample p sx sy bs rx ry (-1)
                        (patch_step sample p sx sy bs rx ry (-1)
                           (patch_step sample p sx sy bs rx ry (-1) (vsplat3 0, 0) (-1)) 0) 1)
                     (-1))) by lra.
  do 4 (eapply Rle_trans; [|apply step_mono]); cbn [snd]; lra.
Qed.

(** C10: for [grain_size > 0] and a pixel position [(px, py)] with
    [0 <= px, py] (positions are [f32(gid)]) whose scaled coordinates stay
    below [512 * 2^31] (so that [i32(floor(...))] does not saturate), the
    pixel's own region has blend weight exactly 1, the accumulated weight
    of the 3x3 neighbourhood is at least 1, and the sampler returns the
    weighted average rather than the neutral [vec3(0.5)] fallback. *)
Theorem patchwork_no_fallback (sample : Z -> R -> R -> vec3) (p : BlendParams) (px py : R) :
  0 < grain_size p -> 0 <= px -> 0 <= py ->
  px / grain_size p < REGION_SIZE * 2147483648 ->
  py / grain_size p < REGION_SIZE * 2147483648 ->
  blend_weight (px / grain_size p) (py / grain_size p) (fst (patch_region p px py))
    (snd (patch_region p px py)) (BLEND_PIXELS / grain_size p) = 1 /\
  1 <= snd (patch_accum sample p px py) /\
  sample_grain_patchwork sample p px py =
    vdiv3 (fst (patch_accum sample p px py)) (snd (patch_accum sample p px py)).
Proof.
  intros Hg Hx Hy Hx1 Hy1.
  destruct (own_region p px py Hg Hx Hy Hx1 Hy1) as (Rx & Ry & W).
  assert (Hacc : 1 <= snd (patch_accum sample p px py)).
  { unfold patch_accum.
    destruct (patch_region p px py) as [rx ry]; cbn [fst snd] in Rx, Ry, W.
    apply accum_weight; rewrite !i32_add_0 by assumption; exact W. }
  split; [exact W|]; split; [exact Hacc|].
  unfold sample_grain_patchwork.
  destruct (patch_accum sample p px py) as [ag aw]; cbn [fst snd] in *.
  destruct (Rlt_dec 0 aw); [reflexivity | lra].
Qed.
End BlendFacts.

(** ** Concrete blend evaluations *)

Module BlendExamples.
Import Blend.

Lemma blend_zero_strength_witness :
  strength (Build_BlendParams 0 1 0 1 1 16 16 42) = 0 /\
  blend_pixel (fun _ _ _ => vsplat3 0.9) (Build_BlendParams 0 1 0 1 1 16 16 42)
    (V3 0.25 0.5 1) 3 5 = with_alpha (V3 0.25 0.5 1) 1.
Proof.
  split; [reflexivity|].
  apply (proj2 (BlendFacts.blend_zero_strength (fun _ _ _ => vsplat3 0.9)
                  (Build_BlendParams 0 1 0 1 1 16 16 42) (V3 0.25 0.5 1) 3 5 eq_refl));
    cbn [toe x3 y3 z3]; lra.
Defined.

Lemma black_pixel_toe_witness :
  vr (blend_pixel (fun _ _ _ => vsplat3 0.9) (Build_BlendParams 1 1 0 1 1 16 16 42)
        (vsplat3 0) 3 5) <
  vr (blend_pixel (fun _ _ _ => vsplat3 0.9) (Build_BlendParams 1 1 (1 / 2) 1 1 16 16 42)
        (vsplat3 0) 3 5).
Proof.
  apply (BlendFacts.black_pixel_toe (fun _ _ _ => vsplat3 0.9)
           (Build_BlendParams 1 1 0 1 1 16 16 42) 3 5 0 (1 / 2)); lra.
Defined.

Lemma patchwork_no_fallback_witness :
  1 <= snd (patch_accum (fun _ _ _ => vsplat3 0.9) (Build_BlendParams 1 1 0 1 2 16 16 42)
              1000 70).
Proof.
  apply (BlendFacts.patchwork_no_fallback (fun _ _ _ => vsplat3 0.9)
           (Build_BlendParams 1 1 0 1 2 16 16 42) 1000 70);
    cbn [grain_size]; unfold REGION_SIZE; lra.
Defined.
End BlendExamples.

(** ** Dispatches of 16x16 workgroups over a whole image *)

Module DispatchFacts.

Lemma ceil_div_cover (w : Z) : (0 < w)%Z -> (w <= ceil_div w 16 * 16)%Z.
Proof.
  intros H; unfold ceil_div.
  pose proof (Z.div_mod (w + 16 - 1) 16 ltac:(lia)).
  pose proof (Z.mod_pos_bound (w + 16 - 1) 16 ltac:(lia)).
  lia.
Qed.

Lemma dispatch16_in (w h : Z) (body : Z -> Z -> vec4) (old : tex) (x y : Z) :
  (0 <= x < w)%Z -> (0 <= y < h)%Z ->
  dispatch (ceil_div w 16) (ceil_div h 16) 16 16 w h body old x y = body x y.
Proof.
  intros Hx Hy; unfold dispatch.
  pose proof (ceil_div_cover w ltac:(lia)); pose proof (ceil_div_cover h ltac:(lia)).
  replace ((0 <=? x) && (x <? ceil_div w 16 * 16) && (0 <=? y) &&
           (y <? ceil_div h 16 * 16) && (x <? w) && (y <? h))%Z with true;
    [reflexivity|].
  symmetry; rewrite !andb_true_iff, !Z.leb_le, !Z.ltb_lt; lia.
Qed.

End DispatchFacts.

(** ** Proofs about the halation stage *)

Module HalationFacts.
Import Halation.

(** C4 (amended): with [enabled = false] the processor is never invoked
    (the blend output or the image texture is displayed); with
    [strength = 0] the upsample-blend pass stores, for every pixel, the
    input colour clamped to [[0, 1]] (so the input colour itself when it
    lies in [[0, 1]], as it does in an [rgba8unorm] texture) but with alpha
    1, whatever the input alpha. *)
Theorem halation_noop (blend_on ready has_work_textures : bool) (hp : HalationParams)
  (w h : Z) (halo : R -> R -> vec4) (input output : tex) (x y : Z) :
  (enabled hp = false ->
   render_display blend_on hp ready has_work_textures =
     if blend_on then BlendOutputTexture else ImageTexture) /\
  ((0 <= x < w)%Z -> (0 <= y < h)%Z ->
   upsample_main 0 w h halo input output x y =
     V4 (clampR (vr (input x y)) 0 1) (clampR (vg (input x y)) 0 1)
        (clampR (vb (input x y)) 0 1) 1) /\
  ((0 <= x < w)%Z -> (0 <= y < h)%Z ->
   0 <= vr (input x y) <= 1 -> 0 <= vg (input x y) <= 1 -> 0 <= vb (input x y) <= 1 ->
   upsample_main 0 w h halo input output x y =
     V4 (vr (input x y)) (vg (input x y)) (vb (input x y)) 1).
Proof.
  assert (E : (0 <= x < w)%Z -> (0 <= y < h)%Z ->
   upsample_main 0 w h halo input output x y =
     V4 (clampR (vr (input x y)) 0 1) (clampR (vg (input x y)) 0 1)
        (clampR (vb (input x y)) 0 1) 1).
  { intros Hx Hy; unfold upsample_main; rewrite DispatchFacts.dispatch16_in by assumption.
    unfold upsample_pixel; cbv zeta.
    set (hr := halo _ _).
    cbv [with_alpha clamp3 vadd3 vscale3 rgb x3 y3 z3].
    f_equal; f_equal; ring. }
  split; [|split; [exact E|]].
  - intros He; unfold render_display, isEnabled; rewrite He; reflexivity.
  - intros Hx Hy Hr Hg Hb; rewrite (E Hx Hy).
    unfold clampR; rewrite !Rmax_left by lra; rewrite !Rmin_left by lra; reflexivity.
Qed.

(** C4: an input texel of alpha 0.5 comes out of the [strength = 0]
    upsample-blend pass with alpha 1. *)
Lemma halation_noop_counterexample :
  upsample_main 0 1 1 (fun _ _ => vzero4) (fun _ _ => V4 0.25 0.5 0.75 0.5)
    (fun _ _ => vzero4) 0%Z 0%Z <> V4 0.25 0.5 0.75 0.5.
Proof.
  unfold upsample_main; rewrite DispatchFacts.dispatch16_in by lia.
  intros E; apply (f_equal va) in E; unfold upsample_pixel, with_alpha in E;
    cbn [va] in E; lra.
Qed.

(** C5: for a threshold in [[0, 1]] and every pixel of the image, the
    threshold pass stores [(image * mask, mask)] with [L] the BT.709
    luminance and [mask = clamp((L - threshold) / max(0.15, 1 - threshold),
    0, 1)^2]. *)
Theorem threshold_store (t : R) (w h : Z) (input output : tex) (x y : Z) :
  0 <= t <= 1 -> (0 <= x < w)%Z -> (0 <= y < h)%Z ->
  let c := input x y in
  let L := 0.2126 * vr c + 0.7152 * vg c + 0.0722 * vb c in
  let mask := (clampR ((L - t) / Rmax 0.15 (1 - t)) 0 1) ^ 2 in
  threshold_main t w h input output x y = V4 (vr c * mask) (vg c * mask) (vb c * mask) mask.
Proof.
  intros _ Hx Hy c L mask; unfold threshold_main.
  rewrite DispatchFacts.dispatch16_in by assumption.
  unfold threshold_pixel, halation_mask; cbv zeta.
  replace (dot3 (rgb (input x y)) LUMA_COEFFS) with L
    by (subst L c; cbv [dot3 rgb LUMA_COEFFS x3 y3 z3]; ring).
  subst mask; fold c.
  set (m := clampR ((L - t) / Rmax 0.15 (1 - t)) 0 1).
  cbv [with_alpha vscale3 rgb x3 y3 z3]; f_equal; ring.
Qed.
End HalationFacts.

(** ** Concrete halation evaluations *)

Module HalationExamples.
Import Halation.

Lemma halation_noop_witness :
  render_display false (Build_HalationParams false 1 0.8) true true = ImageTexture /\
  upsample_main 0 4 4 (fun _ _ => V4 1 1 1 1) (fun _ _ => V4 0.25 0.5 0.75 1)
    (fun _ _ => vzero4) 2%Z 3%Z = V4 0.25 0.5 0.75 1.
Proof.
  split.
  - apply (proj1 (HalationFacts.halation_noop false true true
                    (Build_HalationParams false 1 0.8) 4 4 (fun _ _ => V4 1 1 1 1)
                    (fun _ _ => V4 0.25 0.5 0.75 1) (fun _ _ => vzero4) 2 3));
      reflexivity.
  - apply (proj2 (proj2 (HalationFacts.halation_noop false true true
                           (Build_HalationParams false 1 0.8) 4 4 (fun _ _ => V4 1 1 1 1)
                           (fun _ _ => V4 0.25 0.5 0.75 1) (fun _ _ => vzero4) 2 3)));
      cbn [vr vg vb]; lia || lra.
Defined.

Lemma threshold_store_witness :
  threshold_main 0.8 4 4 (fun _ _ => V4 1 1 1 1) (fun _ _ => vzero4) 1%Z 2%Z =
  V4 (1 * (clampR ((0.2126 * 1 + 0.7152 * 1 + 0.0722 * 1 - 0.8) / Rmax 0.15 (1 - 0.8)) 0 1) ^ 2)
     (1 * (clampR ((0.2126 * 1 + 0.7152 * 1 + 0.0722 * 1 - 0.8) / Rmax 0.15 (1 - 0.8)) 0 1) ^ 2)
     (1 * (clampR ((0.2126 * 1 + 0.7152 * 1 + 0.0722 * 1 - 0.8) / Rmax 0.15 (1 - 0.8)) 0 1) ^ 2)
     ((clampR ((0.2126 * 1 + 0.7152 * 1 + 0.0722 * 1 - 0.8) / Rmax 0.15 (1 - 0.8)) 0 1) ^ 2).
Proof.
  apply (HalationFacts.threshold_store 0.8 4 4 (fun _ _ => V4 1 1 1 1) (fun _ _ => vzero4) 1 2);
    lra || lia.
Defined.
End HalationExamples.

(** ** The autoregressive filter against its specification *)

Module ArFacts.
Import Grain ArSpec.

Lemma vadd3_assoc (a b c : vec3) : vadd3 (vadd3 a b) c = vadd3 a (vadd3 b c).
Proof. destruct a, b, c; unfold vadd3; cbn [x3 y3 z3]; f_equal; ring. Qed.

Lemma vadd3_0_l (a : vec3) : vadd3 (vsplat3 0) a = a.
Proof. destruct a; unfold vadd3, vsplat3; cbn [x3 y3 z3]; f_equal; ring. Qed.

Lemma vadd3_scale0 (a v : vec3) : vadd3 a (vscale3 v 0) = a.
Proof. destruct a, v; unfold vadd3, vscale3; cbn [x3 y3 z3]; f_equal; ring. Qed.

Lemma Rpower_pos (x y : R) : 0 < Rpower x y.
Proof. unfold Rpower; apply exp_pos. Qed.

Lemma spec_weight_nonneg (lag dx dy : Z) : 0 <= spec_weight lag dx dy.
Proof.
  unfold spec_weight; destruct (causal lag dx dy); [apply Rlt_le, Rpower_pos | lra].
Qed.

(** Within the lag radius, for lags up to [32767] ([dx^2 + dy^2] fits in
    an i32), the shader's weight is the specification's weight. *)
Lemma get_ar_weight_spec (dx dy lag : Z) :
  (lag <= 32767)%Z -> (Z.abs dx <= lag)%Z -> (Z.abs dy <= lag)%Z ->
  get_ar_weight dx dy lag = Some (spec_weight lag dx dy).
Proof.
  intros Hl Hx Hy.
  assert (Sx : (0 <= dx * dx <= 32767 * 32767)%Z) by nia.
  assert (Sy : (0 <= dy * dy <= 32767 * 32767)%Z) by nia.
  unfold get_ar_weight, spec_weight, causal.
  rewrite !I32Facts.abs_i32_id by lia.
  rewrite (I32Facts.wrap_i32_id (dx * dx)), (I32Facts.wrap_i32_id (dy * dy)),
    (I32Facts.wrap_i32_id (dx * dx + dy * dy)) by lia.
  destruct (Z.ltb_spec (dx * dx + dy * dy) 0) as [Hn|_]; [lia|].
  destruct (Z.gtb_spec (Z.abs dx) lag), (Z.gtb_spec (Z.abs dy) lag),
    (Z.gtb_spec dy 0), (Z.eqb_spec dy 0), (Z.geb_spec dx 0), (Z.ltb_spec dy 0),
    (Z.ltb_spec dx 0), (Z.leb_spec (Z.abs dx) lag), (Z.leb_spec (Z.abs dy) lag);
    cbn [orb andb]; try reflexivity; exfalso; lia.
Qed.

Lemma fold_left_sum {A : Type} (step : vec3 * R -> A -> vec3 * R) (t : A -> vec3)
  (u : A -> R) (l : list A) :
  (forall acc a, In a l -> step acc a = (vadd3 (fst acc) (t a), snd acc + u a)) ->
  forall s w, fold_left step l (s, w) =
    (vadd3 s (fold_right (fun a acc => vadd3 (t a) acc) (vsplat3 0) l),
     w + fold_right (fun a acc => u a + acc) 0 l).
Proof.
  intros H; induction l as [| a l IH]; intros s w.
  - cbn [fold_left fold_right]; destruct s; unfold vadd3, vsplat3; cbn [x3 y3 z3].
    f_equal; [f_equal|]; ring.
  - cbn [fold_left fold_right]; rewrite (H (s, w) a (or_introl eq_refl)); cbn [fst snd].
    rewrite IH by (intros acc b Hb; apply H; right; exact Hb).
    rewrite vadd3_assoc, Rplus_assoc; reflexivity.
Qed.

(** For [1 <= lag <= 32767] and a pixel below [2^30] on both axes, the
    double loop stops and computes [(S, W)]. *)
Lemma ar_accum_spec (inp : tex) (w h x y lag : Z) :
  (1 <= lag <= 32767)%Z -> (0 <= x < 2 ^ 30)%Z -> (0 <= y < 2 ^ 30)%Z ->
  ar_accum inp w h x y lag = Some (ar_S inp w h x y lag, ar_W lag).
Proof.
  intros Hl Hx Hy.
  unfold ar_accum; rewrite (I32Facts.wrap_i32_id (- lag)) by lia.
  rewrite I32Facts.i32_for_stops by lia; f_equal.
  unfold ar_S, ar_W, vsum_over, sum_over.
  rewrite (fold_left_sum _
    (fun dy => fold_right (fun dx acc => vadd3
       (vscale3 (sample_at inp w h x y dx dy) (spec_weight lag dx dy)) acc)
       (vsplat3 0) (zrange (- lag) lag))
    (fun dy => fold_right (fun dx acc => spec_weight lag dx dy + acc) 0
       (zrange (- lag) lag))).
  - rewrite vadd3_0_l, Rplus_0_l; reflexivity.
  - intros [s0 w0] dy Hdy; cbn [fst snd].
    apply I32Facts.in_zrange_bounds in Hdy.
    apply (fold_left_sum _
      (fun dx => vscale3 (sample_at inp w h x y dx dy) (spec_weight lag dx dy))
      (fun dx => spec_weight lag dx dy)).
    intros [s1 w1] dx Hdx; cbn [fst snd].
    apply I32Facts.in_zrange_bounds in Hdx.
    rewrite get_ar_weight_spec by lia.
    destruct (Rlt_dec 0 (spec_weight lag dx dy)) as [Hp|Hn].
    + unfold sample_at; rewrite !I32Facts.wrap_i32_id by lia; reflexivity.
    + assert (Z0 : spec_weight lag dx dy = 0)
        by (pose proof (spec_weight_nonneg lag dx dy); lra).
      rewrite Z0, vadd3_scale0, Rplus_0_r; reflexivity.
Qed.

Lemma sum_over_nonneg (l : list Z) (f : Z -> R) :
  (forall z, 0 <= f z) -> 0 <= sum_over l f.
Proof.
  intros H; induction l as [| a l IH]; cbn [sum_over fold_right]; [lra|].
  pose proof (H a); unfold sum_over in IH; lra.
Qed.

Lemma sum_over_ge (l : list Z) (f : Z -> R) (a : Z) :
  (forall z, 0 <= f z) -> In a l -> f a <= sum_over l f.
Proof.
  intros H; induction l as [| b l IH]; intros Hin; [destruct Hin|].
  pose proof (sum_over_nonneg l f H) as N; unfold sum_over in *; cbn [fold_right].
  destruct Hin as [<-|Hin]; [lra|].
  pose proof (H b); specialize (IH Hin); lra.
Qed.

Lemma in_zrange (lo hi z : Z) : (lo <= z <= hi)%Z -> In z (zrange lo hi).
Proof.
  intros H; unfold zrange; apply in_map_iff.
  exists (Z.to_nat (z - lo)); split; [rewrite Z2Nat.id by lia; lia|].
  apply in_seq; lia.
Qed.

(** For [lag >= 1] the offset [(-1, 0)] alone weighs 0.7. *)
Lemma ar_W_ge (lag : Z) : (1 <= lag)%Z -> 0.7 <= ar_W lag.
Proof.
  intros Hl; unfold ar_W.
  apply Rle_trans with (sum_over (zrange (- lag) lag) (fun dx => spec_weight lag dx 0)).
  - apply Rle_trans with (spec_weight lag (-1) 0).
    + unfold spec_weight.
      replace (causal lag (-1) 0) with true
        by (unfold causal; cbn [Z.abs Z.ltb Z.eqb Z.compare orb andb];
            destruct (Z.leb_spec 1 lag), (Z.leb_spec 0 lag); cbn [andb]; lia || reflexivity).
      replace (IZR (-1 * -1 + 0 * 0)) with 1 by (cbn; ring).
      rewrite sqrt_1, Rpower_1 by lra; lra.
    + apply (sum_over_ge _ (fun dx => spec_weight lag dx 0)).
      * intros; apply spec_weight_nonneg.
      * apply in_zrange; lia.
  - apply (sum_over_ge _ (fun dy => sum_over (zrange (- lag) lag)
                                      (fun dx => spec_weight lag dx dy))).
    + intros; apply sum_over_nonneg; intros; apply spec_weight_nonneg.
    + apply in_zrange; lia.
Qed.

(** C6 (amended): in every tile, the AR pass (strength 0.95, lag [arLag])
    stops and computes [S * (0.95 / W) + original * sqrt(1 - 0.95^2)] at
    every pixel, [S] and [W] summing over the causal offsets within the lag
    radius with weights [0.7^sqrt(dx^2+dy^2)] and clamped source
    coordinates; stated for [1 <= arLag <= 32767], where the shader's i32
    arithmetic does not wrap, and pixels below [2^30] on both axes. *)
Theorem ar_filter_matches_spec (i : Z) (params : GrainParams) (ts : Z) (g : Gpu)
  (inp : tex) (w h x y : Z) :
  (1 <= arLag params <= 32767)%Z -> (0 <= x < 2 ^ 30)%Z -> (0 <= y < 2 ^ 30)%Z ->
  ar_main (arU (tile_uniforms_gpu i params ts g)) inp w h x y =
  Some (ar_spec_output 0.95 inp w h x y (arLag params)).
Proof.
  intros H Hx Hy.
  change (arU (tile_uniforms_gpu i params ts g))
    with (Build_ArU 0.95 (Rng.u32 (arLag params))).
  unfold ar_main; cbn [ar_strength ar_lag].
  assert (L : to_i32 (Rng.u32 (arLag params)) = arLag params).
  { unfold to_i32, Rng.u32; rewrite Z.mod_small by lia.
    destruct (Z.ltb_spec (arLag params) (2 ^ 31)); lia. }
  rewrite L, ar_accum_spec by lia; cbv beta iota zeta.
  pose proof (ar_W_ge (arLag params) ltac:(lia)) as HW.
  rewrite Rmax_left by lra.
  unfold ar_spec_output.
  replace (1 - 0.95 * 0.95) with (1 - 0.95 ^ 2) by ring; reflexivity.
Qed.

Lemma sum_over_ext (l : list Z) (f g : Z -> R) :
  (forall z, f z = g z) -> sum_over l f = sum_over l g.
Proof.
  intros H; induction l as [| a l IH]; [reflexivity|].
  unfold sum_over in *; cbn [fold_right]; rewrite H, IH; reflexivity.
Qed.

Lemma vsum_over_x3 (l : list Z) (f : Z -> vec3) :
  x3 (vsum_over l f) = sum_over l (fun z => x3 (f z)).
Proof.
  induction l as [| a l IH]; [reflexivity|].
  unfold vsum_over, sum_over in *; cbn [fold_right]; rewrite <- IH; reflexivity.
Qed.

(** On a white input the red sum [S] is the weight sum [W]. *)
Lemma ar_S_white (w h x y lag : Z) :
  x3 (ar_S (fun _ _ => V4 1 1 1 1) w h x y lag) = ar_W lag.
Proof.
  unfold ar_S, ar_W; rewrite vsum_over_x3; apply sum_over_ext; intros dy.
  rewrite vsum_over_x3; apply sum_over_ext; intros dx.
  unfold sample_at, vscale3, rgb; cbn [x3 vr]; ring.
Qed.

(** [0.7^sqrt(dx^2+dy^2)] is [0.7] only at distance 1. *)
Lemma spec_weight_far : spec_weight 65536 (-65536) (-1) <> 0.7.
Proof.
  unfold spec_weight.
  replace (causal 65536 (-65536) (-1)) with true by reflexivity.
  replace (IZR (-65536 * -65536 + -1 * -1)) with 4294967297 by (cbn; reflexivity).
  intros E.
  assert (L : sqrt 4294967297 * ln 0.7 = 1 * ln 0.7).
  { apply (f_equal ln) in E; unfold Rpower in E; rewrite ln_exp in E; lra. }
  assert (N : ln 0.7 < 0) by (rewrite <- ln_1; apply ln_increasing; lra).
  apply Rmult_eq_reg_r in L; [|lra].
  pose proof (sqrt_sqrt 4294967297 ltac:(lra)) as Q; rewrite L in Q; lra.
Qed.

(** C6: the shader's i32 arithmetic wraps for large lags.  At lag 65536 the
    offset [(-65536, -1)] has [dx * dx] wrapping to 0 and gets the weight
    [0.7] of distance 1, not [0.7^sqrt(2^32 + 1)]; with [arLag = 2^31 + 1]
    the lag reads as the i32 [-(2^31 - 1)], both loops are empty and a white
    pixel comes out as [sqrt(1 - 0.95^2)] in red, not
    [0.95 + sqrt(1 - 0.95^2)]. *)
Lemma ar_filter_matches_spec_counterexample :
  (get_ar_weight (-65536) (-1) 65536 = Some 0.7) /\
  (spec_weight 65536 (-65536) (-1) <> 0.7) /\
  (ar_main (arU (tile_uniforms_gpu 0 (Build_GrainParams 42 1 (2 ^ 31 + 1)) 256 zero_gpu))
     (fun _ _ => V4 1 1 1 1) 256 256 10 10 <>
   Some (ar_spec_output 0.95 (fun _ _ => V4 1 1 1 1) 256 256 10 10 (2 ^ 31 + 1))).
Proof.
  split; [|split; [exact spec_weight_far|]].
  - unfold get_ar_weight.
    replace (wrap_i32 (wrap_i32 (-65536 * -65536) + wrap_i32 (-1 * -1))) with 1%Z
      by reflexivity.
    replace ((abs_i32 (-65536) >? 65536)%Z || (abs_i32 (-1) >? 65536)%Z) with false
      by reflexivity.
    cbv [Z.gtb Z.compare Z.eqb Z.geb Z.ltb andb orb Z.pos_sub Pos.compare_cont].
    rewrite sqrt_1, Rpower_1 by lra; reflexivity.
  - change (arU (tile_uniforms_gpu 0 (Build_GrainParams 42 1 (2 ^ 31 + 1)) 256 zero_gpu))
      with (Build_ArU 0.95 (Rng.u32 (2 ^ 31 + 1))).
    unfold ar_main; cbn [ar_strength ar_lag].
    replace (ar_accum (fun _ _ => V4 1 1 1 1) 256 256 10 10 (to_i32 (Rng.u32 (2 ^ 31 + 1))))
      with (Some (vsplat3 0, 0)) by reflexivity.
    cbv beta iota zeta.
    intros E.
    apply (f_equal (fun o => match o with Some c => vr c | None => 0 end)) in E.
    cbv beta iota in E.
    pose proof (ar_S_white 256 256 10 10 (2 ^ 31 + 1)) as S.
    pose proof (ar_W_ge (2 ^ 31 + 1) ltac:(lia)) as HW.
    unfold ar_spec_output in E.
    rewrite Rmax_right in E by lra.
    unfold with_alpha, vadd3, vscale3, vsplat3, rgb in E.
    cbn [vr x3] in E.
    rewrite S in E.
    replace (ar_W (2 ^ 31 + 1) * (0.95 / ar_W (2 ^ 31 + 1))) with 0.95 in E by (field; lra).
    replace (1 - 0.95 * 0.95) with (1 - 0.95 ^ 2) in E by ring.
    lra.
Qed.
End ArFacts.

(** ** A concrete AR pixel *)

Module ArExamples.
Import Grain ArSpec.

Lemma ar_filter_matches_spec_witness :
  ar_main (arU (tile_uniforms_gpu 3 (Build_GrainParams 42 1 2) 256 zero_gpu))
    (fun _ _ => V4 1 0.5 0 1) 256 256 10 20 =
  Some (ar_spec_output 0.95 (fun _ _ => V4 1 0.5 0 1) 256 256 10 20 2).
Proof.
  apply (ArFacts.ar_filter_matches_spec 3 (Build_GrainParams 42 1 2) 256 zero_gpu
           (fun _ _ => V4 1 0.5 0 1) 256 256 10 20); cbn [arLag]; lia.
Defined.
End ArExamples.

(** ** The uniform draw of the PCG generator *)

Module RngFacts.
Import Rng.

Lemma u32_range (z : Z) : (0 <= u32 z < 2 ^ 32)%Z.
Proof. unfold u32; apply Z.mod_pos_bound; lia. Qed.

Lemma lxor_range32 (a b : Z) :
  (0 <= a < 2 ^ 32)%Z -> (0 <= b < 2 ^ 32)%Z -> (0 <= Z.lxor a b < 2 ^ 32)%Z.
Proof.
  intros Ha Hb.
  assert (N : (0 <= Z.lxor a b)%Z) by (apply Z.lxor_nonneg; lia).
  split; [exact N|].
  destruct (Z.eq_dec (Z.lxor a b) 0) as [E|E]; [rewrite E; lia|].
  apply Z.log2_lt_pow2; [lia|].
  assert (La : (Z.log2 a < 32)%Z).
  { destruct (Z.eq_dec a 0) as [->|]; [cbn; lia|]; apply Z.log2_lt_pow2; lia. }
  assert (Lb : (Z.log2 b < 32)%Z).
  { destruct (Z.eq_dec b 0) as [->|]; [cbn; lia|]; apply Z.log2_lt_pow2; lia. }
  pose proof (Z.log2_lxor a b ltac:(lia) ltac:(lia)); lia.
Qed.

(** The PCG output word is a [u32]. *)
Lemma pcg_range (old : Z) : (0 <= fst (pcg old) < 2 ^ 32)%Z.
Proof.
  unfold pcg; cbn [fst].
  set (word := u32 _).
  pose proof (u32_range (Z.lxor (Z.shiftr old (Z.shiftr old 28 + 4)) old * 277803737))
    as Hw; fold word in Hw.
  apply lxor_range32; [|exact Hw].
  rewrite Z.shiftr_div_pow2 by lia.
  split; [apply Z.div_pos; lia|].
  apply Z.div_lt_upper_bound; lia.
Qed.

(** The draw is the output word over [2^32 - 1]. *)
Lemma rand_float_word (st : Z) : fst (rand_float st) = IZR (fst (pcg st)) / 4294967295.
Proof. unfold rand_float; destruct (pcg st); reflexivity. Qed.

Lemma rand_float_bounds (st : Z) : 0 <= fst (rand_float st) <= 1.
Proof.
  pose proof (pcg_range st) as H.
  rewrite rand_float_word; destruct (pcg st) as [w st'] eqn:E; cbn [fst] in *.
  assert (Hw : 0 <= IZR w <= 4294967295).
  { split; [apply IZR_le; lia|].
    change 4294967295 with (IZR 4294967295); apply IZR_le; lia. }
  split.
  - unfold Rdiv; apply Rmult_le_pos; [lra|]; apply Rlt_le, Rinv_0_lt_compat; lra.
  - apply (Rmult_le_reg_r 4294967295); [lra|].
    unfold Rdiv; rewrite Rmult_assoc, Rinv_l by lra; lra.
Qed.


End RngFacts.

(** ** Proofs about the mipmap chain *)

Module MipFacts.
Import Mip.

Lemma half_max (q : Z) : (0 <= q)%Z -> half (Z.max 1 q) = Z.max 1 (q / 2).
Proof.
  intros Hq; unfold half.
  destruct (Z.eq_dec q 0) as [-> | Hne].
  - reflexivity.
  - rewrite (Z.max_r 1 q) by lia; reflexivity.
Qed.

Lemma half_level_dim (d : Z) (k : nat) :
  (1 <= d)%Z -> half (level_dim d k) = level_dim d (S k).
Proof.
  intros Hd; unfold level_dim.
  rewrite half_max by (apply Z.div_pos; [lia | apply Z.pow_pos_nonneg; lia]).
  rewrite Nat2Z.inj_succ, Z.pow_succ_r by lia.
  rewrite Z.div_div by (try apply Z.pow_pos_nonneg; lia).
  rewrite Z.mul_comm; reflexivity.
Qed.

Lemma level_dim_0 (d : Z) : (1 <= d)%Z -> level_dim d 0 = d.
Proof. intros Hd; unfold level_dim; simpl; rewrite Z.div_1_r; lia. Qed.

Lemma mip_chain_dims (oob : Z -> Z -> vec4) (w h : Z) :
  (1 <= w)%Z -> (1 <= h)%Z ->
  forall n k src,
    map (fun l => (lw l, lh l)) (mip_chain oob n (level_dim w k) (level_dim h k) src)
    = map (fun i => (level_dim w i, level_dim h i)) (seq (S k) n).
Proof.
  intros Hw Hh n; induction n as [|n IH]; intros k src; [reflexivity|].
  cbn [mip_chain map seq].
  rewrite !half_level_dim by assumption.
  f_equal; apply IH.
Qed.

Lemma last_level_dim (d m : Z) :
  (1 <= d <= m)%Z -> level_dim d (Z.to_nat (Z.log2 m)) = 1%Z.
Proof.
  intros Hd; unfold level_dim.
  rewrite Z2Nat.id by apply Z.log2_nonneg.
  destruct (Z.log2_spec m) as [_ Hlt]; [lia|].
  rewrite Z.pow_succ_r in Hlt by apply Z.log2_nonneg.
  assert (d / 2 ^ Z.log2 m < 2)%Z.
  { apply Z.div_lt_upper_bound; [apply Z.pow_pos_nonneg; [lia | apply Z.log2_nonneg] | lia]. }
  lia.
Qed.

(** C9 (the part that holds).  For an image of [w * h] texels with
    [w, h >= 1] the chain has [floor(log2(max(w, h))) + 1] levels, level [k]
    has dimensions [max(1, floor(w / 2^k)) * max(1, floor(h / 2^k))], and
    the last level is [1 * 1]. *)
Theorem mipmap_chain_shape (oob : Z -> Z -> vec4) (w h : Z) (image : tex) :
  (1 <= w)%Z -> (1 <= h)%Z ->
  map (fun l => (lw l, lh l)) (generateMipmaps oob w h image)
  = map (fun k => (level_dim w k, level_dim h k)) (seq 0 (Z.to_nat (mip_level_count w h)))
  /\ level_dim w (Z.to_nat (mip_level_count w h - 1)) = 1%Z
  /\ level_dim h (Z.to_nat (mip_level_count w h - 1)) = 1%Z.
Proof.
  intros Hw Hh.
  assert (Hl : (0 <= Z.log2 (Z.max w h))%Z) by apply Z.log2_nonneg.
  unfold mip_level_count.
  replace (Z.log2 (Z.max w h) + 1 - 1)%Z with (Z.log2 (Z.max w h)) by lia.
  split; [|split; apply last_level_dim; lia].
  rewrite Z2Nat.inj_add, Nat.add_comm by lia.
  unfold generateMipmaps, mip_level_count.
  replace (Z.log2 (Z.max w h) + 1 - 1)%Z with (Z.log2 (Z.max w h)) by lia.
  change (Z.to_nat 1) with 1%nat; cbn [Nat.add seq map lw lh].
  pose proof (mip_chain_dims oob w h Hw Hh (Z.to_nat (Z.log2 (Z.max w h))) 0 image) as E.
  rewrite (level_dim_0 w Hw), (level_dim_0 h Hh) in E.
  rewrite E, (level_dim_0 w Hw), (level_dim_0 h Hh).
  reflexivity.
Qed.

(** C9 (the averaging).  A [2 * 1] white image: level 1 is [1 * 1] and its
    texel averages [(0,0)], [(1,0)] and the out-of-bounds [(0,1)], [(1,1)].
    Where those loads return the zero vector (one of the results WGSL
    allows), the texel is [0.5] on every channel, while the box filter of
    the level's texels is white. *)
Lemma mipmap_oob_counterexample :
  let l1 := nth 1 (generateMipmaps (fun _ _ => vzero4) 2 1 (fun _ _ => V4 1 1 1 1))
              (Build_Level 0 0 fresh) in
  (lw l1, lh l1) = (1%Z, 1%Z)
  /\ ltex l1 0%Z 0%Z = V4 0.5 0.5 0.5 0.5
  /\ block_average (fun _ _ => V4 1 1 1 1) 2 1 0 0 = V4 1 1 1 1.
Proof.
  cbv zeta.
  split; [reflexivity|].
  split.
  - cbv -[Rplus Rmult Rdiv IZR]; f_equal; lra.
  - cbv [block_average]; cbn -[Rplus Rmult Rinv IZR INR].
    cbv [vscale4 vadd4 vzero4 vr vg vb va].
    replace (INR 2) with 2 by (simpl; lra).
    f_equal; field.
Qed.

End MipFacts.

Module MipExamples.
Import Mip.

Lemma mipmap_chain_shape_witness :
  (1 <= 6)%Z /\ (1 <= 3)%Z /\
  (map (fun l => (lw l, lh l)) (generateMipmaps (fun _ _ => vzero4) 6 3 fresh)
   = map (fun k => (level_dim 6 k, level_dim 3 k)) (seq 0 (Z.to_nat (mip_level_count 6 3)))
   /\ level_dim 6 (Z.to_nat (mip_level_count 6 3 - 1)) = 1%Z
   /\ level_dim 3 (Z.to_nat (mip_level_count 6 3 - 1)) = 1%Z).
Proof.
  split; [lia|]; split; [lia|].
  apply (MipFacts.mipmap_chain_shape (fun _ _ => vzero4) 6 3 fresh); lia.
Defined.

End MipExamples.

(** ** Further properties of the random-number and noise shaders *)

Module RngExtra.
Import Rng Grain.

Lemma ln_le_mono (a b : R) : 0 < a -> a <= b -> ln a <= ln b.
Proof.
  intros Ha Hab; destruct (Rle_lt_or_eq_dec a b Hab) as [H|H].
  - left; apply ln_increasing; assumption.
  - rewrite H; right; reflexivity.
Qed.

(** The PCG state step [state * 747796405 + 2891336453] (mod 2^32) is
    undone by multiplying by the inverse of the odd multiplier. *)
Lemma pcg_state_inverse (s : Z) :
  (0 <= s < 2 ^ 32)%Z ->
  u32 ((snd (pcg s) - 2891336453) * 3425435293) = s.
Proof.
  intros Hs; unfold pcg, u32; cbn [snd].
  rewrite <- Z.mul_mod_idemp_l by lia.
  rewrite Zminus_mod_idemp_l.
  rewrite Z.mul_mod_idemp_l by lia.
  replace ((s * 747796405 + 2891336453 - 2891336453) * 3425435293)%Z
    with (s + (s * 596402259) * 2 ^ 32)%Z by ring.
  rewrite Z.mod_add by lia.
  apply Z.mod_small; exact Hs.
Qed.

(** The state transition of [pcg] is injective on [u32] states: two
    different states never advance to the same state. *)
Theorem pcg_state_injective (s1 s2 : Z) :
  (0 <= s1 < 2 ^ 32)%Z -> (0 <= s2 < 2 ^ 32)%Z ->
  snd (pcg s1) = snd (pcg s2) -> s1 = s2.
Proof.
  intros H1 H2 E.
  rewrite <- (pcg_state_inverse s1 H1), <- (pcg_state_inverse s2 H2), E.
  reflexivity.
Qed.

Lemma rand_gaussian_bound (st : Z) :
  Rabs (fst (rand_gaussian st)) <= sqrt (-2 * ln (1 / 10000000000)).
Proof.
  unfold rand_gaussian.
  pose proof (RngFacts.rand_float_bounds st) as Hf.
  destruct (rand_float st) as [f1 st1]; cbn [fst] in Hf.
  destruct (rand_float st1) as [u2 st2]; cbn [fst].
  set (u1 := Rmax f1 (1 / 10000000000)).
  assert (Hu1 : 1 / 10000000000 <= u1) by apply Rmax_r.
  assert (Hu2 : u1 <= 1) by (unfold u1, Rmax; destruct (Rle_dec f1 _); lra).
  assert (Hl : ln (1 / 10000000000) <= ln u1) by (apply ln_le_mono; lra).
  assert (Hl1 : ln u1 <= 0) by (rewrite <- ln_1; apply ln_le_mono; lra).
  rewrite Rabs_mult, (Rabs_pos_eq (sqrt _)) by apply sqrt_pos.
  pose proof (COS_bound (6.283185307 * u2)) as Hc.
  assert (Hca : Rabs (cos (6.283185307 * u2)) <= 1) by (apply Rabs_le; lra).
  pose proof (sqrt_pos (-2 * ln u1)).
  apply Rle_trans with (sqrt (-2 * ln u1)).
  - rewrite <- (Rmult_1_r (sqrt (-2 * ln u1))) at 2.
    apply Rmult_le_compat_l; assumption.
  - apply sqrt_le_1_alt; lra.
Qed.

(** Every texel of the noise pass holds three Box-Muller values bounded
    by [sqrt(-2 ln 1e-10)] (about 6.79) in absolute value, and alpha 1. *)
Theorem noise_main_bounded (u : NoiseU) (x y : Z) :
  let c := noise_main u x y in
  let B := sqrt (-2 * ln (1 / 10000000000)) in
  Rabs (vr c) <= B /\ Rabs (vg c) <= B /\ Rabs (vb c) <= B /\ va c = 1.
Proof.
  cbv zeta; unfold noise_main; cbv zeta.
  set (st := init_seed x y _).
  pose proof (rand_gaussian_bound st) as B1.
  destruct (rand_gaussian st) as [g1 st1]; cbn [fst] in B1.
  pose proof (rand_gaussian_bound st1) as B2.
  destruct (rand_gaussian st1) as [g2 st2]; cbn [fst] in B2.
  pose proof (rand_gaussian_bound st2) as B3.
  destruct (rand_gaussian st2) as [g3 st3]; cbn [fst] in B3.
  cbn [vr vg vb va]; repeat split; assumption.
Qed.

End RngExtra.

(** ** Colour conversions of the grain pipeline *)

Module ColorExtra.
Import Grain.

(** The BT.709 conversions of [rgb-to-ycbcr.wgsl]: a grey [(v, v, v)]
    has luma [v] and zero chroma and converts back to itself exactly;
    for any colour in [[0, 1]^3] the round trip
    [ycbcr_to_rgb(rgb_to_ycbcr(c))] moves each channel by at most
    [1e-4] (the rounded matrix coefficients). *)
Theorem ycbcr_round_trip (v r g b : R) :
  rgb_to_ycbcr (V3 v v v) = V3 v 0 0 /\ ycbcr_to_rgb (V3 v 0 0) = V3 v v v /\
  (0 <= r <= 1 -> 0 <= g <= 1 -> 0 <= b <= 1 ->
   let c' := ycbcr_to_rgb (rgb_to_ycbcr (V3 r g b)) in
   Rabs (x3 c' - r) <= 1 / 10000 /\ Rabs (y3 c' - g) <= 1 / 10000 /\
   Rabs (z3 c' - b) <= 1 / 10000).
Proof.
  split; [unfold rgb_to_ycbcr; cbn [x3 y3 z3]; f_equal; lra|].
  split; [unfold ycbcr_to_rgb; cbn [x3 y3 z3]; f_equal; lra|].
  intros Hr Hg Hb; cbv zeta; unfold ycbcr_to_rgb, rgb_to_ycbcr; cbn [x3 y3 z3].
  repeat split; apply Rabs_le; lra.
Qed.

End ColorExtra.

(** ** Further properties of the grain blend *)

Module BlendExtra.
Import Blend.

Lemma Rpower_one_l (y : R) : Rpower 1 y = 1.
Proof. unfold Rpower; rewrite ln_1, Rmult_0_r, exp_0; reflexivity. Qed.

Lemma clampR_mono (a b lo hi : R) : a <= b -> clampR a lo hi <= clampR b lo hi.
Proof.
  intros H; unfold clampR, Rmin, Rmax.
  destruct (Rle_dec a lo), (Rle_dec b lo); try lra;
    repeat match goal with |- context [Rle_dec ?u ?v] => destruct (Rle_dec u v) end; lra.
Qed.

Lemma wgsl_pow_unit (c e : R) : 0 <= c <= 1 -> 0 < e -> 0 <= wgsl_pow c e <= 1.
Proof.
  intros Hc He; unfold wgsl_pow; destruct (Rle_dec c 0); [lra|].
  unfold Rpower; split; [left; apply exp_pos|].
  rewrite <- exp_0; destruct (Rle_lt_or_eq_dec c 1 (proj2 Hc)) as [Hlt|Heq].
  - left; apply exp_increasing.
    pose proof (ln_increasing c 1 ltac:(lra) Hlt) as Hl; rewrite ln_1 in Hl; nra.
  - rewrite Heq, ln_1, Rmult_0_r; right; reflexivity.
Qed.

(** [luminance_response(lum, bias)]: the grain weight lies in [[0, 1]],
    is symmetric about mid-grey ([lum] and [1 - lum] get the same weight),
    is 0 for black and white and 1 at [lum = 0.5], whatever the bias. *)
Theorem luminance_response_shape (lum bias : R) :
  0 <= luminance_response lum bias <= 1 /\
  luminance_response (1 - lum) bias = luminance_response lum bias /\
  luminance_response 0 bias = 0 /\ luminance_response 1 bias = 0 /\
  luminance_response 0.5 bias = 1.
Proof.
  assert (He : 0 < 1 / Rmax bias 0.001).
  { pose proof (Rmax_r bias 0.001); apply Rdiv_lt_0_compat; lra. }
  unfold luminance_response; split; [|split; [|split; [|split]]].
  - apply wgsl_pow_unit; [apply BlendFacts.clampR_range | exact He].
  - f_equal; f_equal; ring.
  - replace (4 * 0 * (1 - 0)) with 0 by ring.
    rewrite BlendFacts.clampR_id by lra; unfold wgsl_pow.
    destruct (Rle_dec 0 0); [reflexivity | lra].
  - replace (4 * 1 * (1 - 1)) with 0 by ring.
    rewrite BlendFacts.clampR_id by lra; unfold wgsl_pow.
    destruct (Rle_dec 0 0); [reflexivity | lra].
  - replace (4 * 0.5 * (1 - 0.5)) with 1 by lra.
    rewrite BlendFacts.clampR_id by lra; unfold wgsl_pow.
    destruct (Rle_dec 1 0); [lra|]; apply Rpower_one_l.
Qed.

(** With [saturation = 0] the grain is monochrome: a grey input pixel
    [(v, v, v)] is stored as a grey pixel (equal R, G and B), whatever the
    grain tiles, strength, toe and bias. *)
Theorem blend_grey_monochrome (sample : Z -> R -> R -> vec3) (p : BlendParams)
  (v px py : R) :
  saturation p = 0 ->
  let c := blend_pixel sample p (V3 v v v) px py in
  vr c = vg c /\ vg c = vb c.
Proof.
  intros Hs; cbv zeta; unfold blend_pixel, grain_final; rewrite Hs; cbv zeta.
  set (G := sample_grain_patchwork sample p px py).
  set (resp := luminance_response _ _).
  cbv [with_alpha clamp3 vadd3 vscale3 vsub3 vmul3 vsplat3 mix3 mixR CHANNEL_SCALES
       x3 y3 z3 vr vg vb].
  split; f_equal; ring.
Qed.

(** [ftrunc r] lies within 1 of [r], on the side of 0. *)
Lemma ftrunc_bounds (r : R) :
  r - 1 < IZR (ftrunc r) < r + 1 /\ (0 <= r -> IZR (ftrunc r) <= r).
Proof.
  unfold ftrunc; destruct (Rle_dec 0 r) as [H|H].
  - pose proof (base_Int_part r); split; [lra | intros; lra].
  - pose proof (base_Int_part (- r)); rewrite opp_IZR; split; [lra | intros; lra].
Qed.

Lemma fmod_scaled (x T : R) : T <> 0 -> fmod x T = T * (x / T - IZR (ftrunc (x / T))).
Proof. intros HT; unfold fmod; field; exact HT. Qed.

(** The wrap [fmod(fmod(l, T) + T, T)] of [sample_region_grain] lands in
    [[0, T)]. *)
Lemma fmod_wrap (x T : R) : 0 < T -> 0 <= fmod (fmod x T + T) T < T.
Proof.
  intros HT.
  assert (HT0 : T <> 0) by lra.
  assert (H1 : - T < fmod x T < T).
  { rewrite fmod_scaled by exact HT0.
    destruct (ftrunc_bounds (x / T)) as [[A B] _].
    split; nra. }
  set (y := fmod x T + T).
  assert (Hy : 0 < y) by (unfold y; lra).
  rewrite fmod_scaled by exact HT0.
  assert (Hq : 0 <= y / T) by (apply Rlt_le, Rdiv_lt_0_compat; assumption).
  destruct (ftrunc_bounds (y / T)) as [[A _] C]; specialize (C Hq).
  split; nra.
Qed.

(** [sample_region_grain] always samples one of the eight tile layers
    ([0 <= layer < 8]) at a [uv] in [[0.5/256, 256.5/256)] on both axes,
    for any pixel and region. *)
Theorem sample_region_grain_reads (sample : Z -> R -> R -> vec3) (p : BlendParams)
  (sx sy : R) (region_x region_y : Z) :
  exists layer u v,
    (0 <= layer < 8)%Z /\ 0.5 / 256 <= u < 256.5 / 256 /\ 0.5 / 256 <= v < 256.5 / 256 /\
    sample_region_grain sample p sx sy region_x region_y = sample layer u v.
Proof.
  unfold sample_region_grain; cbv zeta.
  set (lx := sx - _ + _). set (ly := sy - _ + _).
  assert (HT : 0 < TILE_SIZE) by (unfold TILE_SIZE; lra).
  pose proof (fmod_wrap lx TILE_SIZE HT) as Wx.
  pose proof (fmod_wrap ly TILE_SIZE HT) as Wy.
  unfold TILE_SIZE in *.
  refine (ex_intro _ _ (ex_intro _ _ (ex_intro _ _ (conj _ (conj _ (conj _ eq_refl)))))).
  - apply Z.mod_pos_bound; lia.
  - split; lra.
  - split; lra.
Qed.

End BlendExtra.

(** ** Further properties of the halation shaders *)

Module HalationExtra.
Import Halation.

Lemma sq_mono (a b : R) : 0 <= a -> a <= b -> a * a <= b * b.
Proof. intros; nra. Qed.

Lemma halation_mask_below (L t : R) : L <= t -> halation_mask L t = 0.
Proof.
  intros HL; unfold halation_mask; cbv zeta.
  set (f := Rmax 0.15 (1 - t)).
  assert (Hf : 0.15 <= f) by apply Rmax_l.
  replace (clampR ((L - t) / f) 0 1) with 0; [ring|].
  unfold clampR, Rmin, Rmax.
  assert (((L - t) / f) <= 0)
    by (unfold Rdiv; pose proof (Rinv_0_lt_compat f ltac:(lra)); nra).
  destruct (Rle_dec ((L - t) / f) 0); [|lra].
  destruct (Rle_dec 0 1); lra.
Qed.

(** [halation_mask(L, threshold)] lies in [[0, 1]], is 0 up to the
    threshold, reaches 1 at [threshold + max(0.15, 1 - threshold)], and
    never decreases as the luminance grows. *)
Theorem halation_mask_shape (L L' t : R) :
  0 <= halation_mask L t <= 1 /\
  (L <= t -> halation_mask L t = 0) /\
  (t + Rmax 0.15 (1 - t) <= L -> halation_mask L t = 1) /\
  (L <= L' -> halation_mask L t <= halation_mask L' t).
Proof.
  unfold halation_mask; cbv zeta.
  set (f := Rmax 0.15 (1 - t)).
  assert (Hf : 0.15 <= f) by apply Rmax_l.
  pose proof (BlendFacts.clampR_range ((L - t) / f)) as HR.
  split; [split; nra|].
  split; [|split].
  - intros HL; pose proof (halation_mask_below L t HL) as Z0.
    unfold halation_mask in Z0; exact Z0.
  - intros HL; replace (clampR ((L - t) / f) 0 1) with 1; [ring|].
    assert (1 <= (L - t) / f).
    { assert (Hi : f * / f = 1) by (field; lra).
      assert (0 < / f) by (apply Rinv_0_lt_compat; lra).
      unfold Rdiv; nra. }
    unfold clampR, Rmin, Rmax.
    destruct (Rle_dec ((L - t) / f) 0); [lra|].
    destruct (Rle_dec ((L - t) / f) 1); lra.
  - intros HL; apply sq_mono; [apply BlendFacts.clampR_range|].
    apply BlendExtra.clampR_mono.
    unfold Rdiv; apply Rmult_le_compat_r; [left; apply Rinv_0_lt_compat; lra | lra].
Qed.

(** Halation never darkens: with a non-negative strength and a
    non-negative glow, every stored pixel has red and green at least the
    input's (clamped to [[0, 1]]), blue equal to the input's clamped blue,
    and alpha 1. *)
Theorem upsample_never_darker (s : R) (w h : Z) (halo : R -> R -> vec4) (input output : tex)
  (x y : Z) :
  0 <= s ->
  (forall u v, 0 <= vr (halo u v) /\ 0 <= vg (halo u v) /\ 0 <= vb (halo u v)) ->
  (0 <= x < w)%Z -> (0 <= y < h)%Z ->
  let c := upsample_main s w h halo input output x y in
  clampR (vr (input x y)) 0 1 <= vr c /\ clampR (vg (input x y)) 0 1 <= vg c /\
  vb c = clampR (vb (input x y)) 0 1 /\ va c = 1.
Proof.
  intros Hs Hh Hx Hy; cbv zeta; unfold upsample_main.
  rewrite DispatchFacts.dispatch16_in by assumption.
  unfold upsample_pixel; cbv zeta.
  set (hr := halo _ _).
  destruct (Hh ((IZR x + 0.5) / IZR w) ((IZR y + 0.5) / IZR h)) as (H1 & H2 & H3);
    fold hr in H1, H2, H3.
  assert (Hg : 0 <= dot3 (rgb hr) LUMA_COEFFS)
    by (unfold dot3, rgb, LUMA_COEFFS; cbn [x3 y3 z3]; lra).
  set (gl := dot3 (rgb hr) LUMA_COEFFS) in *.
  cbv [with_alpha clamp3 vadd3 vscale3 rgb x3 y3 z3 vr vg vb va].
  split; [apply BlendExtra.clampR_mono; nra|].
  split; [apply BlendExtra.clampR_mono; nra|].
  split; [f_equal; ring | reflexivity].
Qed.

End HalationExtra.

(** ** Exactness of the mipmap blit *)

Module MipExtra.
Import Mip.

Lemma ceil_div_cover8 (w : Z) : (0 < w)%Z -> (w <= ceil_div w 8 * 8)%Z.
Proof.
  intros H; unfold ceil_div.
  pose proof (Z.div_mod (w + 8 - 1) 8 ltac:(lia)).
  pose proof (Z.mod_pos_bound (w + 8 - 1) 8 ltac:(lia)).
  lia.
Qed.

(** When the source level is at least 2 texels wide and high, every
    texel of the next level is exactly the average of its 2x2 block,
    all four reads in bounds, whatever out-of-bounds loads would return. *)
Theorem blit_exact (oob : Z -> Z -> vec4) (src dst : tex) (sw sh x y : Z) :
  (2 <= sw)%Z -> (2 <= sh)%Z -> (0 <= x < half sw)%Z -> (0 <= y < half sh)%Z ->
  blit_main oob src sw sh (half sw) (half sh) dst x y = block_average src sw sh x y.
Proof.
  intros Hw Hh Hx Hy.
  assert (Ew : half sw = (sw / 2)%Z) by (unfold half; apply Z.max_r;
                                         apply Z.div_le_lower_bound; lia).
  assert (Eh : half sh = (sh / 2)%Z) by (unfold half; apply Z.max_r;
                                         apply Z.div_le_lower_bound; lia).
  rewrite Ew, Eh in *.
  assert (Bx : (2 * x + 1 < sw)%Z) by (pose proof (Z.mul_div_le sw 2); lia).
  assert (By : (2 * y + 1 < sh)%Z) by (pose proof (Z.mul_div_le sh 2); lia).
  unfold blit_main, dispatch.
  pose proof (ceil_div_cover8 (sw / 2) ltac:(lia)).
  pose proof (ceil_div_cover8 (sh / 2) ltac:(lia)).
  replace ((0 <=? x) && (x <? ceil_div (sw / 2) 8 * 8) && (0 <=? y) &&
           (y <? ceil_div (sh / 2) 8 * 8) && (x <? sw / 2) && (y <? sh / 2))%Z with true
    by (symmetry; rewrite !andb_true_iff, !Z.leb_le, !Z.ltb_lt; lia).
  unfold blit_pixel, block_average, texture_load; cbn [filter].
  repeat match goal with
         | |- context [(?a <? ?b)%Z] =>
             replace (a <? b)%Z with true by (symmetry; apply Z.ltb_lt; lia)
         | |- context [(0 <=? ?a)%Z] =>
             replace (0 <=? a)%Z with true by (symmetry; apply Z.leb_le; lia)
         end.
  cbn [filter andb fold_left length INR].
  replace (1 + 1 + 1 + 1) with 4 by ring.
  unfold vscale4, vadd4, vzero4; cbn [vr vg vb va]; f_equal; lra.
Qed.

End MipExtra.

(** ** The display transform and the pointer handlers *)

Module DisplayFacts.
Import Display.

Lemma in_unit_true (r : R) : 0 <= r <= 1 -> in_unit r = true.
Proof.
  intros H; unfold in_unit; destruct (Rle_dec 0 r); [|lra].
  destruct (Rle_dec r 1); [reflexivity | lra].
Qed.

(** At the default view (zoom 1, centred), for any positive canvas and
    image sizes, every point [(tx, ty)] of the image is shown: some
    screen [uv] in [[0, 1]^2] displays exactly the image's sample there
    (letterboxing or pillarboxing never crops the image). *)
Theorem fit_view_shows_whole_image (cw ch iw ih tx ty : R) (sample : R -> R -> vec4) :
  0 < cw -> 0 < ch -> 0 < iw -> 0 < ih -> 0 <= tx <= 1 -> 0 <= ty <= 1 ->
  exists u v, 0 <= u <= 1 /\ 0 <= v <= 1 /\
    fs_main (view_params Zoom.DEFAULT_VIEW_STATE cw ch iw ih) sample u v = sample tx ty.
Proof.
  intros Hcw Hch Hiw Hih Htx Hty.
  assert (Hac : 0 < cw / ch) by (apply Rdiv_lt_0_compat; assumption).
  assert (Hai : 0 < iw / ih) by (apply Rdiv_lt_0_compat; assumption).
  set (ac := cw / ch) in *; set (ai := iw / ih) in *.
  set (sx := if Rlt_dec ac ai then 1 else ac / ai).
  set (sy := if Rlt_dec ac ai then ai / ac else 1).
  assert (Hsx : 1 <= sx).
  { unfold sx; destruct (Rlt_dec ac ai); [lra|].
    apply (Rmult_le_reg_r ai); [lra|]; unfold Rdiv; rewrite Rmult_assoc, Rinv_l; lra. }
  assert (Hsy : 1 <= sy).
  { unfold sy; destruct (Rlt_dec ac ai); [|lra].
    apply (Rmult_le_reg_r ac); [lra|]; unfold Rdiv; rewrite Rmult_assoc, Rinv_l; lra. }
  exists ((tx - 0.5) / sx + 0.5), ((ty - 0.5) / sy + 0.5).
  assert (Bu : 0 <= (tx - 0.5) / sx + 0.5 <= 1).
  { assert (E : tx - 0.5 = ((tx - 0.5) / sx) * sx) by (field; lra).
    set (q := (tx - 0.5) / sx) in *; split; nra. }
  assert (Bv : 0 <= (ty - 0.5) / sy + 0.5 <= 1).
  { assert (E : ty - 0.5 = ((ty - 0.5) / sy) * sy) by (field; lra).
    set (q := (ty - 0.5) / sy) in *; split; nra. }
  split; [exact Bu|]; split; [exact Bv|].
  unfold fs_main, image_uv, view_params, Zoom.DEFAULT_VIEW_STATE;
    cbn [zoom center_x center_y aspect_canvas aspect_image Zoom.zoom Zoom.centerX Zoom.centerY].
  fold ac ai sx sy.
  replace (((tx - 0.5) / sx + 0.5 - 0.5) * sx + 0.5 - 0.5) with (tx - 0.5) by (field; lra).
  replace (((ty - 0.5) / sy + 0.5 - 0.5) * sy + 0.5 - 0.5) with (ty - 0.5) by (field; lra).
  replace ((tx - 0.5) / 1 + 0.5) with tx by field.
  replace ((ty - 0.5) / 1 + 0.5) with ty by field.
  rewrite (in_unit_true tx Htx), (in_unit_true ty Hty); cbn [andb].
  rewrite !BlendFacts.clampR_id by assumption; reflexivity.
Qed.

(** Display pixels are square in image pixels: at any zoom and pan,
    stepping one canvas pixel right moves as many image pixels across as
    stepping one canvas pixel down moves image pixels down. *)
Theorem display_square_pixels (vs : Zoom.ViewState) (cw ch iw ih u v : R) :
  0 < cw -> 0 < ch -> 0 < iw -> 0 < ih -> Zoom.zoom vs <> 0 ->
  let P := view_params vs cw ch iw ih in
  (fst (image_uv P (u + 1 / cw) v) - fst (image_uv P u v)) * iw =
  (snd (image_uv P u (v + 1 / ch)) - snd (image_uv P u v)) * ih.
Proof.
  intros Hcw Hch Hiw Hih Hz; cbv zeta.
  unfold image_uv, view_params; cbn [zoom center_x center_y aspect_canvas aspect_image fst snd].
  destruct (Rlt_dec (cw / ch) (iw / ih)); field; repeat split; lra.
Qed.

End DisplayFacts.

Module InteractionFacts.
Import Zoom Interaction.

Lemma zoomToward_zoom_range (nz tx ty cz cx cy : R) :
  0.1 <= zoom (zoomToward nz tx ty cz cx cy) <= 32.
Proof.
  unfold zoomToward, MIN_ZOOM, MAX_ZOOM; cbn [zoom].
  split; [apply Rmax_l|].
  unfold Rmax, Rmin; destruct (Rle_dec 32 nz); destruct (Rle_dec 0.1 _); lra.
Qed.

(** A wheel tick zooms about the pointer: the image point under the
    pointer before the tick is under it after, as [fs_main] maps screen
    to image, and the new zoom lies in [[0.1, 32]] (canvas drawing buffer
    and container of the same aspect, current zoom positive). *)
Theorem wheel_zoom_keeps_pointer (cw ch iw ih : R) (vs : ViewState) (canvasX canvasY deltaY : R) :
  0 < cw -> 0 < ch -> 0 < iw -> 0 < ih -> 0 < zoom vs ->
  let vs' := handleWheel cw ch iw ih vs canvasX canvasY deltaY in
  Display.image_uv (Display.view_params vs' cw ch iw ih) canvasX canvasY =
  Display.image_uv (Display.view_params vs cw ch iw ih) canvasX canvasY /\
  0.1 <= zoom vs' <= 32.
Proof.
  intros Hcw Hch Hiw Hih Hz; cbv zeta.
  split; [|apply zoomToward_zoom_range].
  pose proof (zoomToward_zoom_range
    (zoom vs * (if (if Rlt_dec deltaY 0 then true else false) then ZOOM_STEP else 1 / ZOOM_STEP))
    0 0 0 0 0) as Hr.
  unfold zoomToward in Hr; cbn [zoom] in Hr.
  unfold handleWheel, zoomToward, Display.image_uv, Display.view_params; cbv zeta;
    cbn [zoom centerX centerY Display.zoom Display.center_x Display.center_y
         Display.aspect_canvas Display.aspect_image].
  set (nz := Rmax MIN_ZOOM (Rmin MAX_ZOOM _)) in *.
  destruct (Rlt_dec (cw / ch) (iw / ih)); f_equal; field; lra.
Qed.

(** A mouse drag pans with the pointer: the image point that was under
    the pointer at the drag start is under the pointer as it moves
    (same aspect for canvas and container, zoom positive). *)
Theorem drag_keeps_grabbed_point (cw ch iw ih : R) (vs : ViewState)
  (startX startY startCenterX startCenterY clientX clientY rectWidth rectHeight u v : R) :
  0 < cw -> 0 < ch -> 0 < iw -> 0 < ih -> 0 < zoom vs -> 0 < rectWidth -> 0 < rectHeight ->
  let vs' := handleMouseMove cw ch iw ih vs startX startY startCenterX startCenterY
               clientX clientY rectWidth rectHeight in
  Display.image_uv (Display.view_params vs' cw ch iw ih)
    (u + (clientX - startX) / rectWidth) (v + (clientY - startY) / rectHeight) =
  Display.image_uv
    (Display.view_params (Build_ViewState (zoom vs) startCenterX startCenterY) cw ch iw ih) u v.
Proof.
  intros Hcw Hch Hiw Hih Hz Hrw Hrh; cbv zeta.
  unfold handleMouseMove, getAspectScaleFactors, Display.image_uv, Display.view_params;
    cbv zeta;
    cbn [zoom centerX centerY Display.zoom Display.center_x Display.center_y
         Display.aspect_canvas Display.aspect_image].
  destruct (Rlt_dec (cw / ch) (iw / ih)); cbn [fst snd zoom centerX centerY];
    f_equal; field; lra.
Qed.

End InteractionFacts.

Module TriangleFacts.
Import Display.

Lemma vs_main_0 : vs_main 0 = ((-1, -1), (0, 1)).
Proof.
  unfold vs_main.
  replace (to_i32 (Rng.u32 (to_i32 (Z.land 0 1) * 4 - 1))) with (-1)%Z by reflexivity.
  replace (to_i32 (Rng.u32 (to_i32 (Z.shiftr 0 1) * 4 - 1))) with (-1)%Z by reflexivity.
  f_equal; f_equal; lra.
Qed.

Lemma vs_main_1 : vs_main 1 = ((3, -1), (2, 1)).
Proof.
  unfold vs_main.
  replace (to_i32 (Rng.u32 (to_i32 (Z.land 1 1) * 4 - 1))) with 3%Z by reflexivity.
  replace (to_i32 (Rng.u32 (to_i32 (Z.shiftr 1 1) * 4 - 1))) with (-1)%Z by reflexivity.
  f_equal; f_equal; lra.
Qed.

Lemma vs_main_2 : vs_main 2 = ((-1, 3), (0, -1)).
Proof.
  unfold vs_main.
  replace (to_i32 (Rng.u32 (to_i32 (Z.land 2 1) * 4 - 1))) with (-1)%Z by reflexivity.
  replace (to_i32 (Rng.u32 (to_i32 (Z.shiftr 2 1) * 4 - 1))) with 3%Z by reflexivity.
  f_equal; f_equal; lra.
Qed.

(** The three vertices of [draw(3)] cover the clip square: every clip
    point [(x, y)] in [[-1, 1]^2] is a convex combination of the
    vertices' positions, and interpolating their [uv] with the same
    weights gives [((x + 1) / 2, (1 - y) / 2)] in [[0, 1]^2] ([(0, 0)] at
    the top-left corner). *)
Theorem fullscreen_triangle_covers (x y : R) :
  -1 <= x <= 1 -> -1 <= y <= 1 ->
  exists a b c, 0 <= a /\ 0 <= b /\ 0 <= c /\ a + b + c = 1 /\
    a * fst (fst (vs_main 0)) + b * fst (fst (vs_main 1)) + c * fst (fst (vs_main 2)) = x /\
    a * snd (fst (vs_main 0)) + b * snd (fst (vs_main 1)) + c * snd (fst (vs_main 2)) = y /\
    a * fst (snd (vs_main 0)) + b * fst (snd (vs_main 1)) + c * fst (snd (vs_main 2)) =
      (x + 1) / 2 /\
    a * snd (snd (vs_main 0)) + b * snd (snd (vs_main 1)) + c * snd (snd (vs_main 2)) =
      (1 - y) / 2 /\
    0 <= (x + 1) / 2 <= 1 /\ 0 <= (1 - y) / 2 <= 1.
Proof.
  intros Hx Hy; rewrite vs_main_0, vs_main_1, vs_main_2; cbn [fst snd].
  exists ((2 - x - y) / 4), ((x + 1) / 4), ((y + 1) / 4).
  repeat split; lra.
Qed.

End TriangleFacts.

(** ** The halation downsample and blur *)

Module HalationGpuFacts.
Import HalationGpu.

Lemma zrange_0_3 : zrange 0 3 = [0; 1; 2; 3]%Z.
Proof. reflexivity. Qed.

Lemma in_zrange_inv (lo hi z : Z) : In z (zrange lo hi) -> (lo <= z <= hi)%Z.
Proof.
  unfold zrange; intros H; apply in_map_iff in H; destruct H as (k & <- & Hk).
  apply in_seq in Hk; lia.
Qed.

Lemma ds_size_pos (d : Z) : (1 <= d)%Z -> ds_size d = ((d + 3) / 4)%Z.
Proof.
  intros H; unfold ds_size, ceil_div; replace (d + 4 - 1)%Z with (d + 3)%Z by ring.
  apply Z.max_r, Z.div_le_lower_bound; lia.
Qed.

Lemma ds_size_pos_eq (d : Z) : (1 <= d)%Z -> (d mod 4 = 0)%Z -> ds_size d = (d / 4)%Z.
Proof.
  intros H H4; rewrite ds_size_pos by exact H.
  pose proof (Z.div_mod d 4 ltac:(lia)); pose proof (Z.div_mod (d + 3) 4 ltac:(lia)).
  pose proof (Z.mod_pos_bound (d + 3) 4 ltac:(lia)); lia.
Qed.

Lemma load00 (sw sh i j : Z) :
  Mip.texture_load (fun _ _ => vzero4) (fun _ _ => vzero4) sw sh i j = vzero4.
Proof. unfold Mip.texture_load; destruct (_ && _ && _ && _); reflexivity. Qed.

Lemma load01 (sw sh i j : Z) :
  0 <= vr (Mip.texture_load (fun _ _ => V4 1 1 1 1) (fun _ _ => vzero4) sw sh i j) <= 1.
Proof.
  unfold Mip.texture_load; destruct (_ && _ && _ && _); cbn [vr vzero4]; lra.
Qed.

(** The downsample pass reads only texels inside the highlight texture,
    so its result does not depend on what out-of-bounds loads return,
    exactly when the image width and height are multiples of 4;
    otherwise the last column or row of the quarter-resolution texture
    averages in out-of-bounds values. *)
Theorem downsample_reads_in_bounds (w h : Z) :
  (1 <= w)%Z -> (1 <= h)%Z ->
  ((w mod 4 = 0 /\ h mod 4 = 0)%Z <->
   forall (oob1 oob2 : Z -> Z -> vec4) (src : tex) (x y : Z),
     (0 <= x < ds_size w)%Z -> (0 <= y < ds_size h)%Z ->
     downsample_main oob1 src w h x y = downsample_main oob2 src w h x y).
Proof.
  intros Hw Hh; rewrite (ds_size_pos w Hw), (ds_size_pos h Hh); split.
  - intros [Mw Mh] oob1 oob2 src x y Hx Hy; unfold downsample_main.
    f_equal; apply GrainDeterminism.fold_left_ext_in; intros acc dy Hdy.
    apply GrainDeterminism.fold_left_ext_in; intros acc' dx Hdx.
    apply in_zrange_inv in Hdy; apply in_zrange_inv in Hdx.
    unfold Mip.texture_load.
    replace ((0 <=? 4 * x + dx) && (4 * x + dx <? w) && (0 <=? 4 * y + dy) &&
             (4 * y + dy <? h))%Z with true; [reflexivity|].
    symmetry; rewrite !andb_true_iff, !Z.leb_le, !Z.ltb_lt.
    assert (w = 4 * (w / 4))%Z by (pose proof (Z.div_mod w 4); lia).
    assert (h = 4 * (h / 4))%Z by (pose proof (Z.div_mod h 4); lia).
    assert ((w + 3) / 4 = w / 4)%Z by (pose proof (Z.div_mod (w + 3) 4);
                                       pose proof (Z.mod_pos_bound (w + 3) 4); lia).
    assert ((h + 3) / 4 = h / 4)%Z by (pose proof (Z.div_mod (h + 3) 4);
                                       pose proof (Z.mod_pos_bound (h + 3) 4); lia).
    lia.
  - intros Hind.
    set (one := fun _ _ : Z => V4 1 1 1 1).
    set (zero := fun _ _ : Z => vzero4).
    assert (Key : forall x y dx dy, (0 <= x)%Z -> (0 <= y)%Z ->
              (0 <= dx <= 3)%Z -> (0 <= dy <= 3)%Z ->
              (w <= 4 * x + dx \/ h <= 4 * y + dy)%Z ->
              vr (downsample_main zero zero w h x y) <>
              vr (downsample_main one zero w h x y)).
    { intros x y dx dy Hx Hy Hdx Hdy Hout.
      assert (Z1 : vr (downsample_main zero zero w h x y) = 0).
      { unfold downsample_main; rewrite zrange_0_3; cbn [fold_left].
        unfold zero; rewrite !load00.
        cbn [vr vscale4 vadd4 vzero4]; lra. }
      rewrite Z1.
      assert (T1 : vr (Mip.texture_load one zero w h (4 * x + dx) (4 * y + dy)) = 1).
      { unfold Mip.texture_load.
        replace ((0 <=? 4 * x + dx) && (4 * x + dx <? w) && (0 <=? 4 * y + dy) &&
                 (4 * y + dy <? h))%Z with false; [reflexivity|].
        symmetry; apply not_true_iff_false; rewrite !andb_true_iff, !Z.leb_le, !Z.ltb_lt.
        lia. }
      unfold downsample_main; rewrite zrange_0_3; cbn [fold_left].
      cbn [vr vscale4 vadd4 vzero4]; unfold one, zero in *.
      repeat match goal with
             | |- context [vr (Mip.texture_load ?o ?s ?a ?b ?c ?d)] =>
                 let t := fresh "t" in
                 pose proof (load01 a b c d);
                 set (t := vr (Mip.texture_load o s a b c d)) in *
             end.
      assert (Hdx' : dx = 0%Z \/ dx = 1%Z \/ dx = 2%Z \/ dx = 3%Z) by lia.
      assert (Hdy' : dy = 0%Z \/ dy = 1%Z \/ dy = 2%Z \/ dy = 3%Z) by lia.
      destruct Hdx' as [-> | [-> | [-> | ->]]]; destruct Hdy' as [-> | [-> | [-> | ->]]];
        repeat match goal with t := _ : R |- _ => subst t end; lra. }
    split.
    + destruct (Z.eq_dec (w mod 4) 0) as [E|E]; [exact E|exfalso].
      apply (Key ((w + 3) / 4 - 1) 0 3 0)%Z.
      * pose proof (Z.div_le_lower_bound (w + 3) 4 1 ltac:(lia) ltac:(lia)); lia.
      * lia.
      * lia.
      * lia.
      * left; pose proof (Z.div_mod (w + 3) 4); pose proof (Z.mod_pos_bound (w + 3) 4).
        pose proof (Z.div_mod w 4); pose proof (Z.mod_pos_bound w 4). lia.
      * f_equal; apply Hind.
        -- pose proof (Z.div_le_lower_bound (w + 3) 4 1 ltac:(lia) ltac:(lia)); lia.
        -- pose proof (Z.div_le_lower_bound (h + 3) 4 1 ltac:(lia) ltac:(lia)); lia.
    + destruct (Z.eq_dec (h mod 4) 0) as [E|E]; [exact E|exfalso].
      apply (Key 0 ((h + 3) / 4 - 1) 0 3)%Z.
      * lia.
      * pose proof (Z.div_le_lower_bound (h + 3) 4 1 ltac:(lia) ltac:(lia)); lia.
      * lia.
      * lia.
      * right; pose proof (Z.div_mod (h + 3) 4); pose proof (Z.mod_pos_bound (h + 3) 4).
        pose proof (Z.div_mod h 4); pose proof (Z.mod_pos_bound h 4). lia.
      * f_equal; apply Hind.
        -- pose proof (Z.div_le_lower_bound (w + 3) 4 1 ltac:(lia) ltac:(lia)); lia.
        -- pose proof (Z.div_le_lower_bound (h + 3) 4 1 ltac:(lia) ltac:(lia)); lia.
Qed.

End HalationGpuFacts.

Module HalationGpuExtra.
Import HalationGpu.

Lemma vadd4_zero (u : vec4) : vadd4 u vzero4 = u.
Proof. destruct u; unfold vadd4, vzero4; cbn [vr vg vb va]; f_equal; ring. Qed.

Lemma dispatch_in_general (wgx wgy sx sy w h : Z) (body : Z -> Z -> vec4) (old : tex)
  (x y : Z) :
  (w <= wgx * sx)%Z -> (h <= wgy * sy)%Z -> (0 <= x < w)%Z -> (0 <= y < h)%Z ->
  dispatch wgx wgy sx sy w h body old x y = body x y.
Proof.
  intros Hw Hh Hx Hy; unfold dispatch.
  replace ((0 <=? x) && (x <? wgx * sx) && (0 <=? y) && (y <? wgy * sy) &&
           (x <? w) && (y <? h))%Z with true; [reflexivity|].
  symmetry; rewrite !andb_true_iff, !Z.leb_le, !Z.ltb_lt; lia.
Qed.

Lemma ceil_div_cover_k (a k : Z) : (0 < k)%Z -> (a <= ceil_div a k * k)%Z.
Proof.
  intros Hk; unfold ceil_div.
  pose proof (Z.div_mod (a + k - 1) k ltac:(lia)).
  pose proof (Z.mod_pos_bound (a + k - 1) k Hk).
  lia.
Qed.

Lemma zrange_nonempty (lo hi : Z) : (lo <= hi)%Z -> zrange lo hi <> [].
Proof.
  intros H; unfold zrange.
  pose proof (Z2Nat.id (hi - lo + 1) ltac:(lia)) as E.
  destruct (Z.to_nat (hi - lo + 1)); [cbn in E; lia | discriminate].
Qed.

(** [dsRadius] of a radius below [2^32] is below [2^31 - 1]. *)
Lemma ds_radius_lt (radius : R) :
  radius < 4294967296 -> (ds_radius radius < 2 ^ 31 - 1)%Z.
Proof.
  intros Hr; unfold ds_radius, js_round.
  destruct (base_Int_part (radius / 4 + 0.5)) as [Ha _].
  assert (Hk : (Int_part (radius / 4 + 0.5) < 2147483647)%Z) by (apply lt_IZR; lra).
  lia.
Qed.

(** The blur uniform [process] writes: its radius [ToInt32(dsRadius)] is
    [dsRadius] itself below [2^31 - 1], and its [sigma2] is not zero. *)
Lemma blur_uniform_ok (radius : R) (dir : Z) :
  (ds_radius radius < 2 ^ 31 - 1)%Z ->
  (0 <= kernel_radius
          (Build_BlurU (wrap_i32 (ds_radius radius)) (IZR (ds_radius radius) / 3) dir)
     < 2 ^ 31 - 1)%Z /\
  2 * sigma (Build_BlurU (wrap_i32 (ds_radius radius)) (IZR (ds_radius radius) / 3) dir)
    * sigma (Build_BlurU (wrap_i32 (ds_radius radius)) (IZR (ds_radius radius) / 3) dir)
  <> 0.
Proof.
  intros Hr; cbn [kernel_radius sigma].
  assert (H1 : (1 <= ds_radius radius)%Z) by (unfold ds_radius; lia).
  rewrite I32Facts.wrap_i32_id by lia.
  split; [lia|].
  assert (1 <= IZR (ds_radius radius)) by (apply IZR_le; exact H1).
  nra.
Qed.

(** The halation blur as a weighted sum, for a radius in [[0, 2^31 - 1)]
    (the loop runs and stops) and a non-zero [sigma2]: its fold with the
    pair pattern unfolded. *)
Lemma blur_main_wsum (u : BlurU) (inp : tex) (w h x y : Z) :
  (0 <= kernel_radius u < 2 ^ 31 - 1)%Z -> 2 * sigma u * sigma u <> 0 ->
  blur_main u inp w h x y =
  Some (vscale4
    (fst (fold_left (fun (acc : vec4 * R) i =>
       (vadd4 (fst acc)
          (vscale4 (if (direction u =? 0)%Z
                    then inp (clampZ (wrap_i32 (x + i)) 0 (w - 1)) y
                    else inp x (clampZ (wrap_i32 (y + i)) 0 (h - 1)))
                   (exp (- IZR (wrap_i32 (i * i)) / (2 * sigma u * sigma u)))),
        snd acc + exp (- IZR (wrap_i32 (i * i)) / (2 * sigma u * sigma u))))
       (zrange (- kernel_radius u) (kernel_radius u)) (vzero4, 0)))
    (/ snd (fold_left (fun (acc : vec4 * R) i =>
       (vadd4 (fst acc)
          (vscale4 (if (direction u =? 0)%Z
                    then inp (clampZ (wrap_i32 (x + i)) 0 (w - 1)) y
                    else inp x (clampZ (wrap_i32 (y + i)) 0 (h - 1)))
                   (exp (- IZR (wrap_i32 (i * i)) / (2 * sigma u * sigma u)))),
        snd acc + exp (- IZR (wrap_i32 (i * i)) / (2 * sigma u * sigma u))))
       (zrange (- kernel_radius u) (kernel_radius u)) (vzero4, 0)))).
Proof.
  intros Hk Hs; unfold blur_main; cbv zeta.
  rewrite (I32Facts.wrap_i32_id (- kernel_radius u)) by lia.
  rewrite I32Facts.i32_for_stops by lia.
  destruct (Req_dec_T (2 * sigma u * sigma u) 0) as [E|_]; [contradiction|].
  pose proof (zrange_nonempty (- kernel_radius u) (kernel_radius u) ltac:(lia)) as Hne.
  destruct (zrange (- kernel_radius u) (kernel_radius u)) as [| i0 is]; [contradiction|].
  rewrite (GrainDeterminism.fold_left_ext_in _ (fun (acc : vec4 * R) i =>
       (vadd4 (fst acc)
          (vscale4 (if (direction u =? 0)%Z
                    then inp (clampZ (wrap_i32 (x + i)) 0 (w - 1)) y
                    else inp x (clampZ (wrap_i32 (y + i)) 0 (h - 1)))
                   (exp (- IZR (wrap_i32 (i * i)) / (2 * sigma u * sigma u)))),
        snd acc + exp (- IZR (wrap_i32 (i * i)) / (2 * sigma u * sigma u))))).
  - destruct (fold_left _ _ _); reflexivity.
  - intros [s ws] i _; destruct (direction u =? 0)%Z; reflexivity.
Qed.

Lemma blur_some (u : BlurU) (inp : tex) (w h x y : Z) :
  (0 <= kernel_radius u < 2 ^ 31 - 1)%Z -> 2 * sigma u * sigma u <> 0 ->
  blur_main u inp w h x y <> None.
Proof. intros Hk Hs; rewrite blur_main_wsum by assumption; discriminate. Qed.

(** A positively weighted sum of values in [lo, hi] stays between
    [lo] and [hi] times the total weight, for any linear component. *)
Lemma wsum_range (comp : vec4 -> R)
  (Hadd : forall a b, comp (vadd4 a b) = comp a + comp b)
  (Hsc : forall a k, comp (vscale4 a k) = comp a * k)
  (lo hi : R) (f : Z -> vec4) (wt : Z -> R) (l : list Z) (acc : vec4 * R) :
  (forall i, In i l -> 0 < wt i /\ lo <= comp (f i) <= hi) ->
  lo * snd acc <= comp (fst acc) <= hi * snd acc ->
  lo * snd (fold_left (fun (acc : vec4 * R) i =>
              (vadd4 (fst acc) (vscale4 (f i) (wt i)), snd acc + wt i)) l acc)
  <= comp (fst (fold_left (fun (acc : vec4 * R) i =>
              (vadd4 (fst acc) (vscale4 (f i) (wt i)), snd acc + wt i)) l acc))
  <= hi * snd (fold_left (fun (acc : vec4 * R) i =>
              (vadd4 (fst acc) (vscale4 (f i) (wt i)), snd acc + wt i)) l acc)
  /\ snd acc <= snd (fold_left (fun (acc : vec4 * R) i =>
              (vadd4 (fst acc) (vscale4 (f i) (wt i)), snd acc + wt i)) l acc)
  /\ (l <> [] -> snd acc < snd (fold_left (fun (acc : vec4 * R) i =>
              (vadd4 (fst acc) (vscale4 (f i) (wt i)), snd acc + wt i)) l acc)).
Proof.
  revert acc; induction l as [| i l IH]; intros acc Hl Hacc.
  - cbn [fold_left]; split; [exact Hacc | split; [lra | intros C; contradiction]].
  - cbn [fold_left].
    destruct (Hl i (or_introl eq_refl)) as [Hw [Hlo Hhi]].
    destruct (IH (vadd4 (fst acc) (vscale4 (f i) (wt i)), snd acc + wt i))
      as [Hr [Hs _]].
    + intros j Hj; apply Hl; right; exact Hj.
    + cbn [fst snd]; rewrite Hadd, Hsc; split; nra.
    + cbn [snd] in Hs; split; [exact Hr | split; [lra | intros _; lra]].
Qed.

(** The same sum of zero values is zero. *)
Lemma wsum_zero (f : Z -> vec4) (wt : Z -> R) (l : list Z) (acc : vec4 * R) :
  (forall i, In i l -> f i = vzero4) -> fst acc = vzero4 ->
  fst (fold_left (fun (acc : vec4 * R) i =>
         (vadd4 (fst acc) (vscale4 (f i) (wt i)), snd acc + wt i)) l acc) = vzero4.
Proof.
  revert acc; induction l as [| i l IH]; intros acc Hl Hacc; [exact Hacc|].
  cbn [fold_left]; apply IH.
  - intros j Hj; apply Hl; right; exact Hj.
  - cbn [fst]; rewrite Hacc, (Hl i (or_introl eq_refl)).
    unfold vadd4, vscale4, vzero4; cbn [vr vg vb va]; f_equal; ring.
Qed.

Lemma blur_range_comp (comp : vec4 -> R)
  (Hadd : forall a b, comp (vadd4 a b) = comp a + comp b)
  (Hsc : forall a k, comp (vscale4 a k) = comp a * k)
  (Hz : comp vzero4 = 0)
  (u : BlurU) (inp : tex) (w h x y : Z) (lo hi : R) (c : vec4) :
  (0 <= kernel_radius u < 2 ^ 31 - 1)%Z -> 2 * sigma u * sigma u <> 0 ->
  (1 <= w)%Z -> (1 <= h)%Z -> (0 <= x < w)%Z -> (0 <= y < h)%Z ->
  (forall i j, (0 <= i < w)%Z -> (0 <= j < h)%Z -> lo <= comp (inp i j) <= hi) ->
  blur_main u inp w h x y = Some c ->
  lo <= comp c <= hi.
Proof.
  intros Hk Hs Hw Hh Hx Hy Hin E; rewrite blur_main_wsum in E by assumption.
  injection E as <-.
  match goal with
  | |- context [fold_left ?F ?L ?A] =>
      destruct (wsum_range comp Hadd Hsc lo hi
        (fun i => if (direction u =? 0)%Z
                  then inp (clampZ (wrap_i32 (x + i)) 0 (w - 1)) y
                  else inp x (clampZ (wrap_i32 (y + i)) 0 (h - 1)))
        (fun i => exp (- IZR (wrap_i32 (i * i)) / (2 * sigma u * sigma u))) L A)
        as [Hr [_ Hpos]]
  end.
  - intros i _; split; [apply exp_pos|].
    destruct (direction u =? 0)%Z; apply Hin; unfold clampZ; lia.
  - cbn [fst snd]; rewrite Hz; lra.
  - cbn [snd] in Hpos.
    specialize (Hpos (zrange_nonempty (- kernel_radius u) (kernel_radius u) ltac:(lia))).
    rewrite Hsc.
    set (s := snd _) in *; set (c := comp (fst _)) in *.
    pose proof (Rinv_0_lt_compat s Hpos).
    assert (E1 : c * / s - lo = (c - lo * s) * / s) by (field; lra).
    assert (E2 : hi - c * / s = (hi * s - c) * / s) by (field; lra).
    assert (0 <= (c - lo * s) * / s) by (apply Rmult_le_pos; lra).
    assert (0 <= (hi * s - c) * / s) by (apply Rmult_le_pos; lra).
    split; lra.
Qed.

Lemma blur_zero_column (u : BlurU) (inp : tex) (w h x y : Z) :
  (0 <= kernel_radius u < 2 ^ 31 - 1)%Z -> 2 * sigma u * sigma u <> 0 ->
  (direction u =? 0)%Z = false ->
  (forall j, (0 <= j < h)%Z -> inp x j = vzero4) -> (1 <= h)%Z ->
  blur_main u inp w h x y = Some vzero4.
Proof.
  intros Hk Hs Hd Hcol Hh; rewrite blur_main_wsum by assumption.
  rewrite Hd, wsum_zero.
  - f_equal; unfold vscale4, vzero4; cbn [vr vg vb va]; f_equal; ring.
  - intros i _; apply Hcol; unfold clampZ; lia.
  - reflexivity.
Qed.

(** A dispatch all of whose in-range invocations store a number gives
    its texture. *)
Lemma dispatch_opt_all (wgx wgy sx sy w h : Z) (body : Z -> Z -> option vec4)
  (old : tex) :
  (forall x y, (0 <= x < w)%Z -> (0 <= y < h)%Z -> body x y <> None) ->
  dispatch_opt wgx wgy sx sy w h body old =
  Some (dispatch wgx wgy sx sy w h
          (fun x y => match body x y with Some c => c | None => vzero4 end) old).
Proof.
  intros Hb; unfold dispatch_opt; cbv zeta.
  replace (forallb _ _) with true; [reflexivity|].
  symmetry; apply forallb_forall; intros yv Hyv; apply forallb_forall; intros xv Hxv.
  apply I32Facts.in_zrange_bounds in Hyv, Hxv.
  destruct (body xv yv) eqn:E; [reflexivity|].
  exfalso; apply (Hb xv yv); [lia | lia | exact E].
Qed.

Section Passes.
Variables (input : tex) (w h : Z) (oob : Z -> Z -> vec4)
  (sampleLevel : tex -> R -> R -> vec4).

Lemma exec_hpasses_none (ps : list HPass) :
  fold_left (fun og p => match og with
                         | Some g => exec_hpass input w h oob sampleLevel g p
                         | None => None end) ps None = None.
Proof. induction ps as [| p ps IH]; [reflexivity | exact IH]. Qed.

Lemma exec_hpasses_cons (p : HPass) (ps : list HPass) (g : HGpu) :
  exec_hpasses input w h oob sampleLevel (p :: ps) g =
  match exec_hpass input w h oob sampleLevel g p with
  | Some g' => exec_hpasses input w h oob sampleLevel ps g'
  | None => None
  end.
Proof.
  unfold exec_hpasses; cbn [fold_left].
  destruct (exec_hpass input w h oob sampleLevel g p); [reflexivity|].
  apply exec_hpasses_none.
Qed.

Lemma exec_threshold_eq (g : HGpu) (t : R) (tw th wx wy : Z) :
  thresholdU g = (t, tw, th) ->
  exec_hpass input w h oob sampleLevel g (ThresholdPass wx wy) =
  Some (Build_HGpu
          (dispatch wx wy 16 16 tw th (fun x y => Halation.threshold_pixel t (input x y))
             (highlight g))
          (downsampled g) (blurPing g) (blurPong g) (output g)
          (thresholdU g) (blurU g) (upsampleU g)).
Proof. intros E; cbn [exec_hpass]; rewrite E; reflexivity. Qed.

Lemma exec_downsample_eq (g : HGpu) (wx wy : Z) :
  exec_hpass input w h oob sampleLevel g (DownsamplePass wx wy) =
  Some (Build_HGpu (highlight g)
          (dispatch wx wy 16 16 (ds_size w) (ds_size h)
             (downsample_main oob (highlight g) w h) (downsampled g))
          (blurPing g) (blurPong g) (output g)
          (thresholdU g) (blurU g) (upsampleU g)).
Proof. reflexivity. Qed.

Lemma exec_blurH_eq (g : HGpu) (wx wy : Z) :
  (0 <= kernel_radius (blurU g) < 2 ^ 31 - 1)%Z ->
  2 * sigma (blurU g) * sigma (blurU g) <> 0 ->
  exec_hpass input w h oob sampleLevel g (BlurHPass wx wy) =
  Some (Build_HGpu (highlight g) (downsampled g)
          (dispatch wx wy 64 4 (ds_size w) (ds_size h)
             (fun x y => match blur_main (blurU g) (downsampled g) (ds_size w) (ds_size h) x y
                         with Some c => c | None => vzero4 end)
             (blurPing g))
          (blurPong g) (output g) (thresholdU g) (blurU g) (upsampleU g)).
Proof.
  intros Hk Hs; cbn [exec_hpass].
  rewrite dispatch_opt_all; [reflexivity|].
  intros; apply blur_some; assumption.
Qed.

Lemma exec_blurV_eq (g : HGpu) (wx wy : Z) :
  (0 <= kernel_radius (blurU g) < 2 ^ 31 - 1)%Z ->
  2 * sigma (blurU g) * sigma (blurU g) <> 0 ->
  exec_hpass input w h oob sampleLevel g (BlurVPass wx wy) =
  Some (Build_HGpu (highlight g) (downsampled g) (blurPing g)
          (dispatch wx wy 64 4 (ds_size w) (ds_size h)
             (fun x y => match blur_main (blurU g) (blurPing g) (ds_size w) (ds_size h) x y
                         with Some c => c | None => vzero4 end)
             (blurPong g))
          (output g) (thresholdU g) (blurU g) (upsampleU g)).
Proof.
  intros Hk Hs; cbn [exec_hpass].
  rewrite dispatch_opt_all; [reflexivity|].
  intros; apply blur_some; assumption.
Qed.

Lemma exec_upsample_pong (g : HGpu) (wx wy : Z) :
  exists g', exec_hpass input w h oob sampleLevel g (UpsamplePass wx wy) = Some g' /\
             blurPong g' = blurPong g.
Proof.
  cbn [exec_hpass]; destruct (upsampleU g) as [[? ?] ?].
  eexists; split; reflexivity.
Qed.

End Passes.

Lemma process_gpu_eq (input : tex) (oob : Z -> Z -> vec4)
  (sampleLevel : tex -> R -> R -> vec4) (hp : Halation.HalationParams) (radius : R)
  (w h : Z) (g : HGpu) :
  process_gpu input oob sampleLevel hp radius w h g =
  match exec_hpasses input w h oob sampleLevel
    [ThresholdPass (ceil_div w 16) (ceil_div h 16);
     DownsamplePass (ceil_div (ds_size w) 16) (ceil_div (ds_size h) 16);
     BlurHPass (ceil_div (ds_size w) 64) (ceil_div (ds_size h) 4);
     BlurVPass (ceil_div (ds_size w) 64) (ceil_div (ds_size h) 4);
     UpsamplePass (ceil_div w 16) (ceil_div h 16)]
    (Build_HGpu (highlight g) (downsampled g) (blurPing g) (blurPong g) (output g)
       (Halation.threshold hp, w, h)
       (Build_BlurU (wrap_i32 (ds_radius radius)) (IZR (ds_radius radius) / 3) 1)
       (Halation.h_strength hp, w, h)) with
  | Some g' => Some g'
  | None => None
  end.
Proof. reflexivity. Qed.

(** Every channel of the halation blur stays within the range of its
    input, for the uniforms [process] writes: the kernel radius
    [ToInt32(dsRadius)] with [dsRadius] below [2^31 - 1] (so the i32
    loop runs and stops) and sigma [dsRadius / 3], in either direction:
    the invocation stores a number, and each of its channels is in the
    range. *)
Theorem halation_blur_in_range (radius : R) (dir : Z) (inp : tex) (w h x y : Z)
  (lo hi : R) :
  (ds_radius radius < 2 ^ 31 - 1)%Z ->
  (1 <= w)%Z -> (1 <= h)%Z -> (0 <= x < w)%Z -> (0 <= y < h)%Z ->
  (forall i j, (0 <= i < w)%Z -> (0 <= j < h)%Z ->
     lo <= vr (inp i j) <= hi /\ lo <= vg (inp i j) <= hi /\
     lo <= vb (inp i j) <= hi /\ lo <= va (inp i j) <= hi) ->
  exists c,
    blur_main (Build_BlurU (wrap_i32 (ds_radius radius)) (IZR (ds_radius radius) / 3) dir)
      inp w h x y = Some c /\
    lo <= vr c <= hi /\ lo <= vg c <= hi /\ lo <= vb c <= hi /\ lo <= va c <= hi.
Proof.
  intros Hr Hw Hh Hx Hy Hin.
  destruct (blur_uniform_ok radius dir Hr) as [Hk Hs].
  destruct (blur_main (Build_BlurU (wrap_i32 (ds_radius radius))
                         (IZR (ds_radius radius) / 3) dir) inp w h x y) as [c|] eqn:E;
    [| exfalso; exact (blur_some _ inp w h x y Hk Hs E)].
  exists c; split; [reflexivity|].
  set (U := Build_BlurU (wrap_i32 (ds_radius radius)) (IZR (ds_radius radius) / 3) dir)
    in *.
  refine (conj _ (conj _ (conj _ _)));
    [ apply (blur_range_comp vr (fun _ _ => eq_refl) (fun _ _ => eq_refl) eq_refl
               U inp w h x y lo hi c)
    | apply (blur_range_comp vg (fun _ _ => eq_refl) (fun _ _ => eq_refl) eq_refl
               U inp w h x y lo hi c)
    | apply (blur_range_comp vb (fun _ _ => eq_refl) (fun _ _ => eq_refl) eq_refl
               U inp w h x y lo hi c)
    | apply (blur_range_comp va (fun _ _ => eq_refl) (fun _ _ => eq_refl) eq_refl
               U inp w h x y lo hi c) ];
    try (intros; reflexivity); try eassumption;
    intros i j Hi Hj; destruct (Hin i j Hi Hj) as (A & B & C & D); assumption.
Qed.

(** In the halation pass, the blurred glow never spreads horizontally:
    all uniform writes land before the one submit, so both blur passes
    read direction 1 (vertical).  If [dsRadius] is below [2^31 - 1], the
    image width and height are multiples of 4, the threshold is
    non-negative and every pixel outside the 4-pixel-wide image column
    [4 * x0 .. 4 * x0 + 3] is black, then every pass stores numbers and
    the final blur texture is zero outside column [x0]. *)
Theorem halation_glow_stays_in_column (input : tex) (oob : Z -> Z -> vec4)
  (sampleLevel : tex -> R -> R -> vec4) (hp : Halation.HalationParams) (radius : R)
  (w h : Z) (g : HGpu) (x0 : Z) :
  (ds_radius radius < 2 ^ 31 - 1)%Z ->
  (1 <= w)%Z -> (1 <= h)%Z -> (w mod 4 = 0)%Z -> (h mod 4 = 0)%Z ->
  0 <= Halation.threshold hp ->
  (forall i j, (0 <= i < w)%Z -> (0 <= j < h)%Z -> (i / 4 <> x0)%Z ->
     rgb (input i j) = V3 0 0 0) ->
  exists g', process_gpu input oob sampleLevel hp radius w h g = Some g' /\
    forall x y, (0 <= x < ds_size w)%Z -> (0 <= y < ds_size h)%Z -> x <> x0 ->
    blurPong g' x y = vzero4.
Proof.
  intros Hr Hw Hh Hw4 Hh4 Ht Hblack.
  destruct (blur_uniform_ok radius 1 Hr) as [Hk Hs].
  rewrite process_gpu_eq, exec_hpasses_cons.
  rewrite (exec_threshold_eq input w h oob sampleLevel _ (Halation.threshold hp) w h)
    by reflexivity.
  rewrite exec_hpasses_cons, exec_downsample_eq, exec_hpasses_cons.
  rewrite exec_blurH_eq by (cbn [blurU]; assumption).
  rewrite exec_hpasses_cons.
  rewrite exec_blurV_eq by (cbn [blurU]; assumption).
  rewrite exec_hpasses_cons.
  match goal with
  | |- context [exec_hpass input w h oob sampleLevel ?G (UpsamplePass ?a ?b)] =>
      destruct (exec_upsample_pong input w h oob sampleLevel G a b) as [g5 [E5 P5]];
      rewrite E5
  end.
  exists g5; split; [reflexivity|].
  intros x y Hx Hy Hx0; rewrite P5.
  cbn [blurPong blurPing downsampled highlight blurU].
  set (U := Build_BlurU (wrap_i32 (ds_radius radius)) (IZR (ds_radius radius) / 3) 1)
    in *.
  pose proof (HalationGpuFacts.ds_size_pos_eq w Hw Hw4) as Edw.
  pose proof (HalationGpuFacts.ds_size_pos_eq h Hh Hh4) as Edh.
  (* threshold: black texels give zero highlight *)
  assert (H1 : forall i j, (0 <= i < w)%Z -> (0 <= j < h)%Z -> (i / 4 <> x0)%Z ->
            dispatch (ceil_div w 16) (ceil_div h 16) 16 16 w h
              (fun x y => Halation.threshold_pixel (Halation.threshold hp) (input x y))
              (highlight g) i j = vzero4).
  { intros i j Hi Hj Hij.
    rewrite DispatchFacts.dispatch16_in by assumption.
    unfold Halation.threshold_pixel; cbv zeta; rewrite (Hblack i j Hi Hj Hij).
    rewrite HalationExtra.halation_mask_below
      by (unfold dot3, LUMA_COEFFS; cbn [x3 y3 z3]; lra).
    unfold with_alpha, vscale3, vzero4; cbn [x3 y3 z3]; f_equal; ring. }
  set (hl := dispatch (ceil_div w 16) (ceil_div h 16) 16 16 w h _ (highlight g)) in *.
  set (dw := ds_size w) in *; set (dh := ds_size h) in *.
  assert (Hdw : (1 <= dw)%Z) by (unfold dw, ds_size; lia).
  assert (Hdh : (1 <= dh)%Z) by (unfold dh, ds_size; lia).
  (* downsample: the 4x4 block of column x is zero *)
  assert (H2 : forall j, (0 <= j < dh)%Z ->
            dispatch (ceil_div dw 16) (ceil_div dh 16) 16 16 dw dh
              (downsample_main oob hl w h) (downsampled g) x j = vzero4).
  { intros j Hj.
    rewrite dispatch_in_general; [| apply ceil_div_cover_k; lia
                                  | apply ceil_div_cover_k; lia | lia | lia].
    assert (Ew : w = (4 * dw)%Z) by (pose proof (Z.div_mod w 4 ltac:(lia)); lia).
    assert (Eh : h = (4 * dh)%Z) by (pose proof (Z.div_mod h 4 ltac:(lia)); lia).
    assert (L : forall dx dy, (0 <= dx <= 3)%Z -> (0 <= dy <= 3)%Z ->
              Mip.texture_load oob hl w h (4 * x + dx) (4 * j + dy) = vzero4).
    { intros dx dy Hdx Hdy; unfold Mip.texture_load.
      replace ((0 <=? 4 * x + dx) && (4 * x + dx <? w) && (0 <=? 4 * j + dy) &&
               (4 * j + dy <? h))%Z with true
        by (symmetry; rewrite !andb_true_iff, !Z.leb_le, !Z.ltb_lt; lia).
      apply H1; [lia | lia |].
      replace ((4 * x + dx) / 4)%Z with x; [exact Hx0|].
      apply (Z.div_unique _ _ _ dx); lia. }
    unfold downsample_main; rewrite HalationGpuFacts.zrange_0_3; cbn [fold_left].
    rewrite !L by lia.
    rewrite !vadd4_zero; unfold vscale4, vzero4; cbn [vr vg vb va]; f_equal; ring. }
  set (ds := dispatch (ceil_div dw 16) (ceil_div dh 16) 16 16 dw dh _ (downsampled g))
    in *.
  (* horizontal-blur pass: reads direction 1, stays in column x *)
  assert (H3 : forall j, (0 <= j < dh)%Z ->
            dispatch (ceil_div dw 64) (ceil_div dh 4) 64 4 dw dh
              (fun x y => match blur_main U ds dw dh x y with
                          | Some c => c | None => vzero4 end)
              (blurPing g) x j = vzero4).
  { intros j Hj.
    rewrite dispatch_in_general; [| apply ceil_div_cover_k; lia
                                  | apply ceil_div_cover_k; lia | lia | lia].
    rewrite blur_zero_column; [reflexivity | exact Hk | exact Hs | reflexivity
                              | exact H2 | lia]. }
  rewrite dispatch_in_general; [| apply ceil_div_cover_k; lia
                                | apply ceil_div_cover_k; lia | lia | lia].
  rewrite blur_zero_column; [reflexivity | exact Hk | exact Hs | reflexivity
                            | exact H3 | lia].
Qed.

End HalationGpuExtra.

Module GrainExtra.
Import Grain GrainLife.

Lemma exec_pass_blurU (ts : Z) (g : Gpu) (p : Pass) : blurU (exec_pass ts g p) = blurU g.
Proof. destruct p as [[] ? ? | ? [] ? ? | ? [] ? ? | ? [] ? ? | ? ? ?]; reflexivity. Qed.

Lemma exec_pass_tiles (ts : Z) (g : Gpu) (p : Pass) :
  match p with NormalizePass _ _ _ => False | _ => True end ->
  tiles (exec_pass ts g p) = tiles g.
Proof.
  destruct p as [[] ? ? | ? [] ? ? | ? [] ? ? | ? [] ? ? | ? ? ?]; intros H;
    solve [reflexivity | contradiction].
Qed.

Lemma exec_passes_fields (ts : Z) (g : Gpu) (ps : list Pass) :
  Forall (fun p => match p with NormalizePass _ _ _ => False | _ => True end) ps ->
  tiles (exec_passes ts g ps) = tiles g /\ normU (exec_passes ts g ps) = normU g /\
  blurU (exec_passes ts g ps) = blurU g.
Proof.
  revert g; induction ps as [| p ps IH]; intros g Hf; [repeat split|].
  inversion Hf as [| ? ? Hp Hps]; subst.
  change (exec_passes ts g (p :: ps)) with (exec_passes ts (exec_pass ts g p) ps).
  destruct (IH (exec_pass ts g p) Hps) as (T & N & B).
  rewrite T, N, B, exec_pass_tiles, GrainDeterminism.exec_pass_normU, exec_pass_blurU
    by exact Hp.
  repeat split.
Qed.

Lemma tile_split (G : Gpu) :
  exec_passes BASE_TILE_SIZE G (tile_passes BASE_TILE_SIZE) =
  exec_pass BASE_TILE_SIZE (exec_passes BASE_TILE_SIZE G (firstn 9 (tile_passes BASE_TILE_SIZE)))
    (NormalizePass WT1 (ceil_div BASE_TILE_SIZE 16) (ceil_div BASE_TILE_SIZE 16)).
Proof. reflexivity. Qed.

Lemma first9_split (G : Gpu) :
  exec_passes BASE_TILE_SIZE G (firstn 9 (tile_passes BASE_TILE_SIZE)) =
  exec_passes BASE_TILE_SIZE (exec_passes BASE_TILE_SIZE G (firstn 3 (tile_passes BASE_TILE_SIZE)))
    [BlurPass WT1 WT2 (ceil_div BASE_TILE_SIZE 64) (ceil_div BASE_TILE_SIZE 4);
     BlurPass WT2 WT1 (ceil_div BASE_TILE_SIZE 64) (ceil_div BASE_TILE_SIZE 4);
     BlurPass WT1 WT2 (ceil_div BASE_TILE_SIZE 64) (ceil_div BASE_TILE_SIZE 4);
     BlurPass WT2 WT1 (ceil_div BASE_TILE_SIZE 64) (ceil_div BASE_TILE_SIZE 4);
     BlurPass WT1 WT2 (ceil_div BASE_TILE_SIZE 64) (ceil_div BASE_TILE_SIZE 4);
     BlurPass WT2 WT1 (ceil_div BASE_TILE_SIZE 64) (ceil_div BASE_TILE_SIZE 4)].
Proof. reflexivity. Qed.

Lemma first9_nonorm :
  Forall (fun p => match p with NormalizePass _ _ _ => False | _ => True end)
    (firstn 9 (tile_passes BASE_TILE_SIZE)).
Proof. cbn; repeat constructor. Qed.

Lemma first3_nonorm :
  Forall (fun p => match p with NormalizePass _ _ _ => False | _ => True end)
    (firstn 3 (tile_passes BASE_TILE_SIZE)).
Proof. cbn; repeat constructor. Qed.

Lemma get_set_work (g : Gpu) (o : WorkTex) (v : tex) : get_work (set_work g o v) o = v.
Proof. destruct o; reflexivity. Qed.

(** A blur pass with the grain's final blur uniform (channel 2) copies the
    first two channels of its input unchanged. *)
Lemma blur_pass_rg (g : Gpu) (i o : WorkTex) (wx wy : Z) (T : tex) :
  blurU g = Build_BlurU 5 2.75 1 2 ->
  (BASE_TILE_SIZE <= wx * 64)%Z -> (BASE_TILE_SIZE <= wy * 4)%Z ->
  (forall x y, (0 <= x < BASE_TILE_SIZE)%Z -> (0 <= y < BASE_TILE_SIZE)%Z ->
     vr (get_work g i x y) = vr (T x y) /\ vg (get_work g i x y) = vg (T x y)) ->
  forall x y, (0 <= x < BASE_TILE_SIZE)%Z -> (0 <= y < BASE_TILE_SIZE)%Z ->
  vr (get_work (exec_pass BASE_TILE_SIZE g (BlurPass i o wx wy)) o x y) = vr (T x y) /\
  vg (get_work (exec_pass BASE_TILE_SIZE g (BlurPass i o wx wy)) o x y) = vg (T x y).
Proof.
  intros HU Hwx Hwy HT x y Hx Hy; cbn [exec_pass]; rewrite get_set_work.
  rewrite HalationGpuExtra.dispatch_in_general by assumption.
  rewrite HU; unfold blur_main; cbv zeta.
  destruct (fold_left _ _ _) as [s ws].
  cbn [channel].
  change ((2 <? 3)%Z) with true; change ((2 =? 0)%Z) with false;
    change ((2 =? 1)%Z) with false; cbv iota; cbn [vr vg].
  apply HT; assumption.
Qed.

Lemma blur_six_rg (G : Gpu) (T : tex) :
  blurU G = Build_BlurU 5 2.75 1 2 ->
  (forall x y, (0 <= x < BASE_TILE_SIZE)%Z -> (0 <= y < BASE_TILE_SIZE)%Z ->
     vr (work1 G x y) = vr (T x y) /\ vg (work1 G x y) = vg (T x y)) ->
  forall x y, (0 <= x < BASE_TILE_SIZE)%Z -> (0 <= y < BASE_TILE_SIZE)%Z ->
  let G6 := exec_passes BASE_TILE_SIZE G
    [BlurPass WT1 WT2 (ceil_div BASE_TILE_SIZE 64) (ceil_div BASE_TILE_SIZE 4);
     BlurPass WT2 WT1 (ceil_div BASE_TILE_SIZE 64) (ceil_div BASE_TILE_SIZE 4);
     BlurPass WT1 WT2 (ceil_div BASE_TILE_SIZE 64) (ceil_div BASE_TILE_SIZE 4);
     BlurPass WT2 WT1 (ceil_div BASE_TILE_SIZE 64) (ceil_div BASE_TILE_SIZE 4);
     BlurPass WT1 WT2 (ceil_div BASE_TILE_SIZE 64) (ceil_div BASE_TILE_SIZE 4);
     BlurPass WT2 WT1 (ceil_div BASE_TILE_SIZE 64) (ceil_div BASE_TILE_SIZE 4)] in
  vr (work1 G6 x y) = vr (T x y) /\ vg (work1 G6 x y) = vg (T x y).
Proof.
  intros HU HT.
  assert (Hc64 : (BASE_TILE_SIZE <= ceil_div BASE_TILE_SIZE 64 * 64)%Z)
    by (apply Z.leb_le; reflexivity).
  assert (Hc4 : (BASE_TILE_SIZE <= ceil_div BASE_TILE_SIZE 4 * 4)%Z)
    by (apply Z.leb_le; reflexivity).
  unfold exec_passes; cbn [fold_left].
  change (work1 ?g) with (get_work g WT1).
  repeat (apply blur_pass_rg; [rewrite ?exec_pass_blurU; exact HU | exact Hc64 | exact Hc4 |]).
  exact HT.
Qed.

(** One tile: its own layer is the normalize output, the others are kept. *)
Lemma tile_unit (i : Z) (p : GrainParams) (g : Gpu) (l x y : Z) :
  (0 <= x < BASE_TILE_SIZE)%Z -> (0 <= y < BASE_TILE_SIZE)%Z ->
  (l = Rng.u32 i -> unit_texel (tiles (generateSingleTile_gpu i p BASE_TILE_SIZE g) l x y)) /\
  (l <> Rng.u32 i ->
   tiles (generateSingleTile_gpu i p BASE_TILE_SIZE g) l x y = tiles g l x y).
Proof.
  intros Hx Hy; rewrite GrainDeterminism.generateSingleTile_gpu_eq, tile_split.
  set (G := tile_uniforms_gpu i p BASE_TILE_SIZE g).
  destruct (exec_passes_fields BASE_TILE_SIZE G _ first9_nonorm) as (T & N & _).
  set (g9 := exec_passes BASE_TILE_SIZE G (firstn 9 (tile_passes BASE_TILE_SIZE))) in *.
  unfold exec_pass; cbn [tiles]; rewrite N, T.
  change (normU G) with (Build_NormU 0.15 (Rng.u32 i)); change (tiles G) with (tiles g).
  cbn [norm_tile_index]; split.
  - intros ->; rewrite Z.eqb_refl, DispatchFacts.dispatch16_in by assumption.
    unfold normalize_main, unit_texel, with_alpha, clamp3; cbn [x3 y3 z3 vr vg vb va].
    repeat split; try apply BlendFacts.clampR_range.
  - intros Hne; rewrite (proj2 (Z.eqb_neq _ _) Hne); reflexivity.
Qed.

Lemma tiles_fold_unit (p : GrainParams) (ks : list Z) :
  forall (g : Gpu) (S : Z -> Prop),
  (forall l x y, S l -> (0 <= x < BASE_TILE_SIZE)%Z -> (0 <= y < BASE_TILE_SIZE)%Z ->
     unit_texel (tiles g l x y)) ->
  forall l x y, In l (map Rng.u32 ks) \/ S l ->
  (0 <= x < BASE_TILE_SIZE)%Z -> (0 <= y < BASE_TILE_SIZE)%Z ->
  unit_texel
    (tiles (fold_left (fun g i => generateSingleTile_gpu i p BASE_TILE_SIZE g) ks g) l x y).
Proof.
  induction ks as [| k ks IH]; intros g S HS l x y Hl Hx Hy.
  - destruct Hl as [[]|H]; apply HS; assumption.
  - rewrite GrainFacts.fold_left_cons.
    apply (IH _ (fun l => l = Rng.u32 k \/ S l)); [| | assumption | assumption].
    + intros l' x' y' Hl' Hx' Hy'.
      destruct (Z.eq_dec l' (Rng.u32 k)) as [E|E].
      * apply (proj1 (tile_unit k p g l' x' y' Hx' Hy')); exact E.
      * rewrite (proj2 (tile_unit k p g l' x' y' Hx' Hy') E).
        destruct Hl' as [Hl'|Hl']; [contradiction | apply HS; assumption].
    + destruct Hl as [[H|H]|H]; [right; left; symmetry; exact H | left; exact H |
                                 right; right; exact H].
Qed.

Lemma generate_all_unit (p : GrainParams) (g : Gpu) (l x y : Z) :
  (0 <= l < TILE_COUNT)%Z -> (0 <= x < BASE_TILE_SIZE)%Z -> (0 <= y < BASE_TILE_SIZE)%Z ->
  unit_texel (tiles (generate_all_gpu p BASE_TILE_SIZE g) l x y).
Proof.
  intros Hl Hx Hy; unfold generate_all_gpu.
  apply (tiles_fold_unit p _ g (fun _ => False)); [intros ? ? ? [] | | assumption | assumption].
  left; rewrite GrainFacts.zrange_0_7; cbn [map].
  unfold TILE_COUNT in Hl.
  assert (E : l = 0%Z \/ l = 1%Z \/ l = 2%Z \/ l = 3%Z \/ l = 4%Z \/ l = 5%Z \/
              l = 6%Z \/ l = 7%Z) by lia.
  destruct E as [-> | [-> | [-> | [-> | [-> | [-> | [-> | ->]]]]]]];
    repeat (first [left; reflexivity | right]).
Qed.

Lemma reachable_Inv (st : GenState) : reachable st -> Inv st.
Proof.
  induction 1.
  - apply GrainFacts.Inv_initial.
  - apply GrainFacts.generateTiles_Inv; assumption.
  - apply GrainFacts.Inv_destroy.
Qed.

Lemma ensureTextures_size (st : GenState) :
  currentTileSize (ensureTextures BASE_TILE_SIZE st) = Some BASE_TILE_SIZE /\
  lastParams (ensureTextures BASE_TILE_SIZE st) = lastParams st /\
  (currentTileSize st = Some BASE_TILE_SIZE -> ensureTextures BASE_TILE_SIZE st = st).
Proof.
  unfold ensureTextures.
  destruct (currentTileSize st) as [ts|] eqn:Hc.
  - destruct (ts =? BASE_TILE_SIZE)%Z eqn:E.
    + apply Z.eqb_eq in E; subst ts.
      split; [exact Hc | split; [reflexivity | intros _; reflexivity]].
    + apply Z.eqb_neq in E.
      split; [reflexivity | split; [reflexivity | intros C; congruence]].
  - split; [reflexivity | split; [reflexivity | discriminate]].
Qed.

Lemma generate_all_gpu_fold (p : GrainParams) (ts : Z) (g : Gpu) :
  fold_left (fun g i => generateSingleTile_gpu i p ts g) (zrange 0 (TILE_COUNT - 1)) g =
  generate_all_gpu p ts g.
Proof. unfold generate_all_gpu; reflexivity. Qed.

Lemma set_lastParams_size (p : GrainParams) (st : GenState) :
  currentTileSize (set_lastParams p st) = currentTileSize st.
Proof. reflexivity. Qed.

(** The regeneration branch of [generateTiles] keeps the invariant below. *)
Lemma generate_branch_good (p : GrainParams) (st : GenState) :
  (lastParams st = None \/
   (currentTileSize st = Some BASE_TILE_SIZE /\
    forall l x y, (0 <= l < TILE_COUNT)%Z -> (0 <= x < BASE_TILE_SIZE)%Z ->
      (0 <= y < BASE_TILE_SIZE)%Z -> unit_texel (tiles (gpu st) l x y))) ->
  let r := snd (let st1 := ensureTextures BASE_TILE_SIZE st in
            match workTexture1 st1, workTexture2 st1, grainTileArray st1 with
            | Some _, Some _, Some h =>
                (Tiles h, set_lastParams p
                   (fold_left (fun s i => generateSingleTile i p BASE_TILE_SIZE s)
                      (zrange 0 (TILE_COUNT - 1)) st1))
            | _, _, _ => (FailedToCreateGrainTextures, st1)
            end) in
  lastParams r = None \/
  (currentTileSize r = Some BASE_TILE_SIZE /\
   forall l x y, (0 <= l < TILE_COUNT)%Z -> (0 <= x < BASE_TILE_SIZE)%Z ->
     (0 <= y < BASE_TILE_SIZE)%Z -> unit_texel (tiles (gpu r) l x y)).
Proof.
  intros G r; unfold r; clear r; cbv zeta.
  destruct (ensureTextures_size st) as (S1 & S2 & S4).
  assert (G1 : lastParams (ensureTextures BASE_TILE_SIZE st) = None \/
               (currentTileSize (ensureTextures BASE_TILE_SIZE st) = Some BASE_TILE_SIZE /\
                forall l x y, (0 <= l < TILE_COUNT)%Z -> (0 <= x < BASE_TILE_SIZE)%Z ->
                  (0 <= y < BASE_TILE_SIZE)%Z ->
                  unit_texel (tiles (gpu (ensureTextures BASE_TILE_SIZE st)) l x y))).
  { destruct G as [G|[Gs Gt]]; [left; rewrite S2; exact G|].
    right; rewrite (S4 Gs); split; assumption. }
  set (st1 := ensureTextures BASE_TILE_SIZE st) in *.
  destruct (workTexture1 st1), (workTexture2 st1), (grainTileArray st1);
    rewrite GrainFacts.snd_pair; try exact G1.
  right.
  destruct (GrainFacts.set_lastParams_fields p
              (fold_left (fun s i => generateSingleTile i p BASE_TILE_SIZE s)
                 (zrange 0 (TILE_COUNT - 1)) st1)) as (_ & _ & P3).
  destruct (GrainFacts.fold_tiles_fields p BASE_TILE_SIZE (zrange 0 (TILE_COUNT - 1)) st1)
    as (_ & _ & _ & F4 & _ & _ & _ & F8).
  rewrite set_lastParams_size, F4, P3, F8, generate_all_gpu_fold.
  split; [exact S1|].
  intros l x y Hl Hx Hy; apply generate_all_unit; assumption.
Qed.

(** Invariant of the reachable states: once parameters are recorded, the
    tile size is 256 and every layer holds valid texels. *)
Lemma reachable_good (st : GenState) :
  reachable st ->
  lastParams st = None \/
  (currentTileSize st = Some BASE_TILE_SIZE /\
   forall l x y, (0 <= l < TILE_COUNT)%Z -> (0 <= x < BASE_TILE_SIZE)%Z ->
     (0 <= y < BASE_TILE_SIZE)%Z -> unit_texel (tiles (gpu st) l x y)).
Proof.
  induction 1 as [g | p st Hr IH | st Hr IH].
  - left; reflexivity.
  - unfold generateTiles.
    destruct (tilesValid st p), (grainTileArray st);
      first [exact IH | apply (generate_branch_good p st IH)].
  - exact IH.
Qed.

(** Every completed [generateTiles] call, from any reachable generator
    state, returns a tile array whose eight 256x256 layers hold valid
    texels: RGB in [[0, 1]] and alpha 1. *)
Theorem generateTiles_tiles_valid (p : GrainParams) (st st1 : GenState) (h : nat) :
  reachable st -> generateTiles p st = (Tiles h, st1) ->
  forall l x y, (0 <= l < TILE_COUNT)%Z -> (0 <= x < BASE_TILE_SIZE)%Z ->
  (0 <= y < BASE_TILE_SIZE)%Z -> unit_texel (tiles (gpu st1) l x y).
Proof.
  intros Hr E l x y Hl Hx Hy.
  assert (Hr1 : reachable st1)
    by (replace st1 with (snd (generateTiles p st)) by (rewrite E; reflexivity);
        constructor; exact Hr).
  destruct (GrainFacts.generateTiles_success p st st1 h (reachable_Inv st Hr) E)
    as (_ & _ & lp & Hlp & _).
  destruct (reachable_good st1 Hr1) as [N|[_ G]]; [congruence|].
  apply G; assumption.
Qed.

(** [destroy] keeps the current tile size while it drops the textures,
    so [ensureTextures] never recreates them: after a completed
    generation, every later [generateTiles] call on the destroyed
    generator throws [Failed to create grain textures] and changes
    nothing. *)
Theorem generateTiles_after_destroy (p : GrainParams) (st st1 : GenState) (h : nat) :
  Inv st -> generateTiles p st = (Tiles h, st1) ->
  forall q, generateTiles q (destroy st1) = (FailedToCreateGrainTextures, destroy st1).
Proof.
  intros HI E q.
  destruct (GrainFacts.generateTiles_success p st st1 h HI E) as ([N|(Hs & _ & _)] & Ha & _);
    [congruence|].
  unfold generateTiles; cbv zeta.
  change (tilesValid (destroy st1) q) with false.
  change (grainTileArray (destroy st1)) with (@None nat).
  cbv iota.
  rewrite GrainFacts.ensureTextures_same by exact Hs.
  reflexivity.
Qed.

(** In every tile, the luma (Y) and blue-difference chroma (Cb) that the
    normalize pass converts back to RGB are those the RGB-to-YCbCr pass
    produced: all six blur passes read the last-written blur uniform
    (channel 2), so only Cr is blurred. *)
Theorem tile_luma_cb_unblurred (i : Z) (p : GrainParams) (g : Gpu) (x y : Z) :
  (0 <= x < BASE_TILE_SIZE)%Z -> (0 <= y < BASE_TILE_SIZE)%Z ->
  let g0 := tile_uniforms_gpu i p BASE_TILE_SIZE g in
  let ycc := work1 (exec_passes BASE_TILE_SIZE g0 (firstn 3 (tile_passes BASE_TILE_SIZE))) in
  let blurred := work1 (exec_passes BASE_TILE_SIZE g0 (firstn 9 (tile_passes BASE_TILE_SIZE))) in
  tiles (generateSingleTile_gpu i p BASE_TILE_SIZE g) (Rng.u32 i) x y =
  normalize_main (Build_NormU 0.15 (Rng.u32 i))
    (fun _ _ => V4 (vr (ycc x y)) (vg (ycc x y)) (vb (blurred x y)) 1) x y.
Proof.
  intros Hx Hy; cbv zeta.
  rewrite GrainDeterminism.generateSingleTile_gpu_eq, tile_split.
  set (G := tile_uniforms_gpu i p BASE_TILE_SIZE g).
  destruct (exec_passes_fields BASE_TILE_SIZE G _ first9_nonorm) as (_ & N & _).
  destruct (exec_passes_fields BASE_TILE_SIZE G _ first3_nonorm) as (_ & _ & B3).
  set (g3 := exec_passes BASE_TILE_SIZE G (firstn 3 (tile_passes BASE_TILE_SIZE))) in *.
  assert (RG : vr (work1 (exec_passes BASE_TILE_SIZE G (firstn 9 (tile_passes BASE_TILE_SIZE))) x y)
                 = vr (work1 g3 x y) /\
               vg (work1 (exec_passes BASE_TILE_SIZE G (firstn 9 (tile_passes BASE_TILE_SIZE))) x y)
                 = vg (work1 g3 x y)).
  { rewrite first9_split; fold g3.
    apply (blur_six_rg g3 (work1 g3)); [rewrite B3; reflexivity | | assumption | assumption].
    intros; split; reflexivity. }
  set (g9 := exec_passes BASE_TILE_SIZE G (firstn 9 (tile_passes BASE_TILE_SIZE))) in *.
  unfold exec_pass; cbn [tiles]; rewrite N.
  change (normU G) with (Build_NormU 0.15 (Rng.u32 i)); cbn [norm_tile_index].
  rewrite Z.eqb_refl, DispatchFacts.dispatch16_in by assumption.
  unfold normalize_main, rgb; cbn [get_work vr vg vb].
  destruct RG as [R1 R2]; rewrite R1, R2; reflexivity.
Qed.

End GrainExtra.

(** ** Worked instances of the properties above *)

Module ExtraExamples.

(** Two states in range with the same successor: 5 and 5. *)
Lemma pcg_state_injective_witness :
  snd (Rng.pcg 5) = snd (Rng.pcg 5) /\ 5%Z = 5%Z.
Proof.
  split; [reflexivity|].
  apply (RngExtra.pcg_state_injective 5 5); [lia | lia | reflexivity].
Defined.

(** Pure red, converted to YCbCr and back. *)
Lemma ycbcr_round_trip_witness :
  let c' := Grain.ycbcr_to_rgb (Grain.rgb_to_ycbcr (V3 1 0 0)) in
  Rabs (x3 c' - 1) <= 1 / 10000 /\ Rabs (y3 c' - 0) <= 1 / 10000 /\
  Rabs (z3 c' - 0) <= 1 / 10000.
Proof. apply (proj2 (proj2 (ColorExtra.ycbcr_round_trip 0 1 0 0))); lra. Defined.

(** A mid-grey pixel with saturation 0 and a coloured grain sample. *)
Lemma blend_grey_monochrome_witness :
  Blend.saturation (Blend.Build_BlendParams 0.5 0 0.1 0.5 2 640 480 7) = 0 /\
  let c := Blend.blend_pixel (fun _ _ _ => V3 0.1 (-0.2) 0.3)
             (Blend.Build_BlendParams 0.5 0 0.1 0.5 2 640 480 7) (V3 0.5 0.5 0.5) 10 20 in
  vr c = vg c /\ vg c = vb c.
Proof.
  split; [reflexivity|].
  apply (BlendExtra.blend_grey_monochrome (fun _ _ _ => V3 0.1 (-0.2) 0.3)
           (Blend.Build_BlendParams 0.5 0 0.1 0.5 2 640 480 7) 0.5 10 20).
  reflexivity.
Defined.

(** Luminance 0.5 under threshold 0.8 gives no halation. *)
Lemma halation_mask_shape_witness : Halation.halation_mask 0.5 0.8 = 0.
Proof. apply (proj1 (proj2 (HalationExtra.halation_mask_shape 0.5 0.5 0.8))); lra. Defined.

(** Upsampling a 4x4 image with a grey glow at strength 1. *)
Lemma upsample_never_darker_witness :
  let c := Halation.upsample_main 1 4 4 (fun _ _ => V4 0.5 0.5 0.5 1)
             (fun _ _ => V4 0.2 0.3 0.4 1) (fun _ _ => vzero4) 1%Z 2%Z in
  clampR 0.2 0 1 <= vr c /\ clampR 0.3 0 1 <= vg c /\ vb c = clampR 0.4 0 1 /\ va c = 1.
Proof.
  apply (HalationExtra.upsample_never_darker 1 4 4 (fun _ _ => V4 0.5 0.5 0.5 1)
           (fun _ _ => V4 0.2 0.3 0.4 1) (fun _ _ => vzero4) 1 2);
    [lra | intros; cbn [vr vg vb]; lra | lia | lia].
Defined.

(** The 4x4 level blitted to 2x2, at texel (1, 0). *)
Lemma blit_exact_witness :
  Mip.blit_main (fun _ _ => V4 9 9 9 9) (fun i j => V4 (IZR i) (IZR j) 0 1) 4 4
    (Mip.half 4) (Mip.half 4) (fun _ _ => vzero4) 1%Z 0%Z =
  Mip.block_average (fun i j => V4 (IZR i) (IZR j) 0 1) 4 4 1 0.
Proof.
  apply MipExtra.blit_exact; try lia; (split; [lia | reflexivity]).
Defined.

(** An 800x600 canvas showing a 1000x500 image at the default view. *)
Lemma fit_view_shows_whole_image_witness :
  exists u v, 0 <= u <= 1 /\ 0 <= v <= 1 /\
    Display.fs_main (Display.view_params Zoom.DEFAULT_VIEW_STATE 800 600 1000 500)
      (fun a b => V4 a b 0 1) u v = V4 0.3 0.7 0 1.
Proof.
  apply (DisplayFacts.fit_view_shows_whole_image 800 600 1000 500 0.3 0.7
           (fun a b => V4 a b 0 1)); lra.
Defined.

Lemma display_square_pixels_witness :
  let P := Display.view_params (Zoom.Build_ViewState 2 0.25 0.75) 800 600 1000 500 in
  (fst (Display.image_uv P (0.3 + 1 / 800) 0.4) - fst (Display.image_uv P 0.3 0.4)) * 1000 =
  (snd (Display.image_uv P 0.3 (0.4 + 1 / 600)) - snd (Display.image_uv P 0.3 0.4)) * 500.
Proof.
  apply (DisplayFacts.display_square_pixels (Zoom.Build_ViewState 2 0.25 0.75));
    cbn [Zoom.zoom]; lra.
Defined.

(** A wheel step zooming in at (0.25, 0.6) from the default view. *)
Lemma wheel_zoom_keeps_pointer_witness :
  let vs' := Interaction.handleWheel 800 600 1000 500 Zoom.DEFAULT_VIEW_STATE 0.25 0.6 (-100) in
  Display.image_uv (Display.view_params vs' 800 600 1000 500) 0.25 0.6 =
  Display.image_uv (Display.view_params Zoom.DEFAULT_VIEW_STATE 800 600 1000 500) 0.25 0.6 /\
  0.1 <= Zoom.zoom vs' <= 32.
Proof.
  apply InteractionFacts.wheel_zoom_keeps_pointer; cbn [Zoom.zoom Zoom.DEFAULT_VIEW_STATE];
    lra.
Defined.

(** A drag of (30, -20) pixels on a 400x300 element, zoom 2. *)
Lemma drag_keeps_grabbed_point_witness :
  let vs' := Interaction.handleMouseMove 800 600 1000 500 (Zoom.Build_ViewState 2 0.5 0.5)
               100 100 0.5 0.5 130 80 400 300 in
  Display.image_uv (Display.view_params vs' 800 600 1000 500)
    (0.2 + (130 - 100) / 400) (0.7 + (80 - 100) / 300) =
  Display.image_uv
    (Display.view_params (Zoom.Build_ViewState 2 0.5 0.5) 800 600 1000 500) 0.2 0.7.
Proof.
  apply (InteractionFacts.drag_keeps_grabbed_point 800 600 1000 500
           (Zoom.Build_ViewState 2 0.5 0.5)); cbn [Zoom.zoom]; lra.
Defined.

(** The clip-space point (0.5, -0.25). *)
Lemma fullscreen_triangle_covers_witness :
  exists a b c, 0 <= a /\ 0 <= b /\ 0 <= c /\ a + b + c = 1 /\
    a * fst (fst (Display.vs_main 0)) + b * fst (fst (Display.vs_main 1)) +
      c * fst (fst (Display.vs_main 2)) = 0.5 /\
    a * snd (fst (Display.vs_main 0)) + b * snd (fst (Display.vs_main 1)) +
      c * snd (fst (Display.vs_main 2)) = -0.25 /\
    a * fst (snd (Display.vs_main 0)) + b * fst (snd (Display.vs_main 1)) +
      c * fst (snd (Display.vs_main 2)) = (0.5 + 1) / 2 /\
    a * snd (snd (Display.vs_main 0)) + b * snd (snd (Display.vs_main 1)) +
      c * snd (snd (Display.vs_main 2)) = (1 - -0.25) / 2 /\
    0 <= (0.5 + 1) / 2 <= 1 /\ 0 <= (1 - -0.25) / 2 <= 1.
Proof. apply TriangleFacts.fullscreen_triangle_covers; lra. Defined.

(** An 8x8 highlight texture: all reads are in bounds. *)
Lemma downsample_reads_in_bounds_witness :
  HalationGpu.downsample_main (fun _ _ => vzero4) (fun _ _ => V4 0.5 0.5 0.5 1) 8 8 1 1
  = HalationGpu.downsample_main (fun _ _ => V4 1 1 1 1) (fun _ _ => V4 0.5 0.5 0.5 1) 8 8 1 1.
Proof.
  apply (proj1 (HalationGpuFacts.downsample_reads_in_bounds 8 8 ltac:(lia) ltac:(lia))).
  - split; reflexivity.
  - split; [lia | reflexivity].
  - split; [lia | reflexivity].
Defined.

(** The horizontal blur of a uniform grey 4x4 texture, radius 8. *)
Lemma halation_blur_in_range_witness :
  (HalationGpu.ds_radius 8 < 2 ^ 31 - 1)%Z /\
  exists c,
    HalationGpu.blur_main
      (HalationGpu.Build_BlurU (wrap_i32 (HalationGpu.ds_radius 8))
         (IZR (HalationGpu.ds_radius 8) / 3) 0)
      (fun _ _ => V4 0.5 0.5 0.5 1) 4 4 1 1 = Some c /\
    0 <= vr c <= 1 /\ 0 <= vg c <= 1 /\ 0 <= vb c <= 1 /\ 0 <= va c <= 1.
Proof.
  assert (Hr : (HalationGpu.ds_radius 8 < 2 ^ 31 - 1)%Z)
    by (apply HalationGpuExtra.ds_radius_lt; lra).
  split; [exact Hr|].
  apply (HalationGpuExtra.halation_blur_in_range 8 0 (fun _ _ => V4 0.5 0.5 0.5 1)
           4 4 1 1 0 1 Hr); try lia.
  intros; cbn [vr vg vb va]; lra.
Defined.

(** A 16x16 image lit only in pixel columns 4..7, threshold 0.8. *)
Lemma halation_glow_stays_in_column_witness :
  exists g',
    HalationGpu.process_gpu
       (fun i j => if (i / 4 =? 1)%Z then V4 1 1 1 1 else V4 0 0 0 1)
       (fun _ _ => vzero4) (fun _ _ _ => vzero4) (Halation.Build_HalationParams true 1 0.8)
       20 16 16
       (HalationGpu.Build_HGpu (fun _ _ => vzero4) (fun _ _ => vzero4) (fun _ _ => vzero4)
          (fun _ _ => vzero4) (fun _ _ => vzero4) (0, 0%Z, 0%Z)
          (HalationGpu.Build_BlurU 0 0 0) (0, 0%Z, 0%Z)) = Some g' /\
    HalationGpu.blurPong g' 2%Z 3%Z = vzero4.
Proof.
  destruct (HalationGpuExtra.halation_glow_stays_in_column
    (fun i j => if (i / 4 =? 1)%Z then V4 1 1 1 1 else V4 0 0 0 1)
    (fun _ _ => vzero4) (fun _ _ _ => vzero4) (Halation.Build_HalationParams true 1 0.8)
    20 16 16
    (HalationGpu.Build_HGpu (fun _ _ => vzero4) (fun _ _ => vzero4) (fun _ _ => vzero4)
       (fun _ _ => vzero4) (fun _ _ => vzero4) (0, 0%Z, 0%Z)
       (HalationGpu.Build_BlurU 0 0 0) (0, 0%Z, 0%Z)) 1
    ltac:(apply HalationGpuExtra.ds_radius_lt; lra) ltac:(lia) ltac:(lia)
    eq_refl eq_refl ltac:(cbn [Halation.threshold]; lra)
    ltac:(intros i j _ _ Hij; cbv beta; rewrite (proj2 (Z.eqb_neq _ _) Hij); reflexivity))
    as [g' [E P]].
  exists g'; split; [exact E|].
  apply P; [split; [lia | reflexivity] | split; [lia | reflexivity] | lia].
Defined.

(** A first generation from a fresh generator, seed 42 and lag 2. *)
Lemma generateTiles_tiles_valid_witness :
  GrainLife.unit_texel
    (Grain.tiles (Grain.gpu (snd (Grain.generateTiles (Grain.Build_GrainParams 42 1 2)
                                  (Grain.initial_state Grain.zero_gpu)))) 3%Z 17%Z 200%Z).
Proof.
  assert (E : Grain.generateTiles (Grain.Build_GrainParams 42 1 2)
                (Grain.initial_state Grain.zero_gpu) =
    (Grain.Tiles 2, snd (Grain.generateTiles (Grain.Build_GrainParams 42 1 2)
                           (Grain.initial_state Grain.zero_gpu)))).
  { change (Grain.Tiles 2) with
      (fst (Grain.generateTiles (Grain.Build_GrainParams 42 1 2)
              (Grain.initial_state Grain.zero_gpu))).
    apply surjective_pairing. }
  apply (GrainExtra.generateTiles_tiles_valid _ _ _ 2 (GrainLife.reach_initial _) E);
    unfold Grain.TILE_COUNT, Grain.BASE_TILE_SIZE; lia.
Defined.

(** The same generator, destroyed, then asked for seed 7 and lag 3. *)
Lemma generateTiles_after_destroy_witness :
  Grain.generateTiles (Grain.Build_GrainParams 7 1 3)
    (Grain.destroy (snd (Grain.generateTiles (Grain.Build_GrainParams 42 1 2)
                           (Grain.initial_state Grain.zero_gpu)))) =
  (Grain.FailedToCreateGrainTextures,
   Grain.destroy (snd (Grain.generateTiles (Grain.Build_GrainParams 42 1 2)
                         (Grain.initial_state Grain.zero_gpu)))).
Proof.
  assert (E : Grain.generateTiles (Grain.Build_GrainParams 42 1 2)
                (Grain.initial_state Grain.zero_gpu) =
    (Grain.Tiles 2, snd (Grain.generateTiles (Grain.Build_GrainParams 42 1 2)
                           (Grain.initial_state Grain.zero_gpu)))).
  { change (Grain.Tiles 2) with
      (fst (Grain.generateTiles (Grain.Build_GrainParams 42 1 2)
              (Grain.initial_state Grain.zero_gpu))).
    apply surjective_pairing. }
  apply (GrainExtra.generateTiles_after_destroy _ _ _ 2 (GrainFacts.Inv_initial _ 0 []) E).
Defined.

(** Tile 0 for seed 42 and lag 2, texel (17, 200). *)
Lemma tile_luma_cb_unblurred_witness :
  let g0 := Grain.tile_uniforms_gpu 0 (Grain.Build_GrainParams 42 1 2) Grain.BASE_TILE_SIZE
              Grain.zero_gpu in
  let ycc := Grain.work1 (Grain.exec_passes Grain.BASE_TILE_SIZE g0
                            (firstn 3 (Grain.tile_passes Grain.BASE_TILE_SIZE))) in
  let blurred := Grain.work1 (Grain.exec_passes Grain.BASE_TILE_SIZE g0
                                (firstn 9 (Grain.tile_passes Grain.BASE_TILE_SIZE))) in
  Grain.tiles (Grain.generateSingleTile_gpu 0 (Grain.Build_GrainParams 42 1 2)
                 Grain.BASE_TILE_SIZE Grain.zero_gpu) (Rng.u32 0) 17%Z 200%Z =
  Grain.normalize_main (Grain.Build_NormU 0.15 (Rng.u32 0))
    (fun _ _ => V4 (vr (ycc 17%Z 200%Z)) (vg (ycc 17%Z 200%Z)) (vb (blurred 17%Z 200%Z)) 1)
    17 200.
Proof.
  apply GrainExtra.tile_luma_cb_unblurred; unfold Grain.BASE_TILE_SIZE; lia.
Defined.

End ExtraExamples.

